(** * Cowrie log analyzer (Activity-02/analyze_log.py)

    A shallow embedding of the five report tasks of [analyze_log.py] and the
    properties its specification states about them.

    Modelling conventions.
    - Text is a [string] whose characters are code points below 256.  On these
      code points [\d] is exactly [0-9] and [str.strip] removes the characters
      listed in [is_py_space].  The loop of the connections task, whose
      behaviour depends on the decimal digits beyond these code points, is
      modelled a second time on texts of arbitrary code points, in the module
      [Unicode]; on code points below 256 the two models agree (lemma
      [connections_counter_of_string]).  The one character of the program's
      own output above 255, the [≥] (U+2265) in the title of the identify-bots
      report, is held as the three bytes of its UTF-8 encoding.
    - A file is the list of its lines, in order, as [for line in fp] yields
      them (a line keeps its trailing newline).
    - A [dict], [Counter] or [defaultdict] is an association list in insertion
      order with unique keys: Python dictionaries iterate in insertion order
      and the reports' tie-breaks depend on it.
    - A [set] of IP strings is a [gset string]; only its cardinality is read.
    - [print] appends one line to the output; a task returns the lines it
      printed, or the exception that ended it.
    - [strftime] leaves [%Y] to the C library, which may or may not zero-fill
      a year below 1000; the connections task and [main] take that choice as
      the parameter [pad_year]. *)

From Stdlib Require Import ZArith Lia Ascii String DecimalString.
From stdpp Require Import base option list strings gmap sorting.

Open Scope string_scope.
Set Warnings "-clear-no-such-hyp".

(** ** Regular expressions

    The fragment of Python's [re] syntax the program uses, with the
    backtracking priorities of the [sre] engine: a greedy repetition tries the
    longest run first, a lazy one the shortest, an optional group is tried
    before it is skipped, and [search] returns the match at the leftmost start
    position. *)
Module Re.

Inductive regex : Type :=
| Chars (t : string)                       (* literal text *)
| OneOf (p : ascii -> bool)                (* one character of a class *)
| Seq (r1 r2 : regex)                      (* r1 r2 *)
| Rep (greedy : bool) (p : ascii -> bool)  (* [p]* when greedy, [p]*? otherwise *)
| Maybe (r : regex)                        (* (?:r)? *)
| Named (name : string) (r : regex).       (* (?P<name>r) *)

(** The match object's group dictionary. *)
Definition groups : Type := list (string * string).

Definition cont : Type := string -> groups -> option groups.

Fixpoint strip_prefix (t s : string) : option string :=
  match t, s with
  | EmptyString, _ => Some s
  | String a t', String b s' => if Ascii.eqb a b then strip_prefix t' s' else None
  | String _ _, EmptyString => None
  end.

Fixpoint rep_greedy (p : ascii -> bool) (s : string) (g : groups) (k : cont)
  : option groups :=
  match s with
  | String c s' =>
      if p c then
        match rep_greedy p s' g k with
        | Some m => Some m
        | None => k s g
        end
      else k s g
  | EmptyString => k s g
  end.

Fixpoint rep_lazy (p : ascii -> bool) (s : string) (g : groups) (k : cont)
  : option groups :=
  match k s g with
  | Some m => Some m
  | None =>
      match s with
      | String c s' => if p c then rep_lazy p s' g k else None
      | EmptyString => None
      end
  end.

(** The text consumed between the suffix [s] and its suffix [s']. *)
Definition consumed (s s' : string) : string :=
  substring 0 (String.length s - String.length s') s.

Fixpoint set_group (name text : string) (g : groups) : groups :=
  match g with
  | [] => [(name, text)]
  | (n, t) :: g' =>
      if String.eqb n name then (n, text) :: g' else (n, t) :: set_group name text g'
  end.

Fixpoint run (r : regex) (s : string) (g : groups) (k : cont) : option groups :=
  match r with
  | Chars t =>
      match strip_prefix t s with
      | Some s' => k s' g
      | None => None
      end
  | OneOf p =>
      match s with
      | String c s' => if p c then k s' g else None
      | EmptyString => None
      end
  | Seq r1 r2 => run r1 s g (fun s' g' => run r2 s' g' k)
  | Rep true p => rep_greedy p s g k
  | Rep false p => rep_lazy p s g k
  | Maybe r' =>
      match run r' s g k with
      | Some m => Some m
      | None => k s g
      end
  | Named name r' =>
      run r' s g (fun s' g' => k s' (set_group name (consumed s s') g'))
  end.

(** [pattern.match] anchored at the start of [s]. *)
Definition match_here (r : regex) (s : string) : option groups :=
  run r s [] (fun _ g => Some g).

(** [pattern.search(s)]: the first start position with a match. *)
Fixpoint search (r : regex) (s : string) : option groups :=
  match match_here r s with
  | Some g => Some g
  | None =>
      match s with
      | String _ s' => search r s'
      | EmptyString => None
      end
  end.

(** [m.group(name)] for a group that took part in the match. *)
Fixpoint group (name : string) (g : groups) : string :=
  match g with
  | [] => ""
  | (n, t) :: g' => if String.eqb n name then t else group name g'
  end.

(** Character classes. *)
Definition is_digit (c : ascii) : bool :=
  (48 <=? nat_of_ascii c)%nat && (nat_of_ascii c <=? 57)%nat.
Definition dot (c : ascii) : bool := negb (Ascii.eqb c "010"%char).
Definition other_than (x : ascii) (c : ascii) : bool := negb (Ascii.eqb c x).
Definition is_hex_colon (c : ascii) : bool :=
  is_digit c
  || ((97 <=? nat_of_ascii c)%nat && (nat_of_ascii c <=? 102)%nat)
  || Ascii.eqb c ":"%char.

(** Derived forms. *)
Definition plus (p : ascii -> bool) : regex := Seq (OneOf p) (Rep true p).
Fixpoint times (n : nat) (r : regex) : regex :=
  match n with
  | O => Chars ""
  | S O => r
  | S n' => Seq r (times n' r)
  end.
Fixpoint cat (rs : list regex) : regex :=
  match rs with
  | [] => Chars ""
  | [r] => r
  | r :: rs' => Seq r (cat rs')
  end.

End Re.

Import Re.

(** ** The five patterns *)

(** [\d+\.\d+\.\d+\.\d+] *)
Definition ipv4 : regex :=
  cat [plus is_digit; Chars "."; plus is_digit; Chars ".";
       plus is_digit; Chars "."; plus is_digit].

(** [\[HoneyPotSSHTransport,\d+,(?P<ip>\d+\.\d+\.\d+\.\d+)\]] *)
Definition transport_marker : regex :=
  cat [Chars "[HoneyPotSSHTransport,"; plus is_digit; Chars ",";
       Named "ip" ipv4; Chars "]"].

Definition FAILED_LOGIN_PATTERN : regex :=
  cat [transport_marker; Rep false dot;
       Chars "login attempt ["; Rep false dot; Chars "/"; Rep false dot;
       Chars "] failed"].

(** [\d{4}-\d{2}-\d{2}T\d{2}:\d{2}:\d{2}(?:\.\d+)?] *)
Definition timestamp : regex :=
  cat [times 4 (OneOf is_digit); Chars "-"; times 2 (OneOf is_digit);
       Chars "-"; times 2 (OneOf is_digit); Chars "T";
       times 2 (OneOf is_digit); Chars ":"; times 2 (OneOf is_digit);
       Chars ":"; times 2 (OneOf is_digit);
       Maybe (Seq (Chars ".") (plus is_digit))].

Definition NEW_CONN_PATTERN : regex :=
  cat [Named "ts" timestamp;
       Chars "Z ";
       Chars "[cowrie.ssh.factory.CowrieSSHFactory] New connection: ";
       Named "ip" ipv4; Chars ":"; plus is_digit].

Definition SUCCESS_LOGIN_PATTERN : regex :=
  cat [transport_marker; Rep false dot;
       Chars "login attempt [";
       Named "user" (plus (other_than "/"%char)); Chars "/";
       Named "pw" (plus (other_than "]"%char));
       Chars "] succeeded"].

Definition FINGERPRINT_PATTERN : regex :=
  cat [transport_marker; Rep false dot;
       Chars "SSH client hassh fingerprint: ";
       Named "fp" (times 32 (OneOf is_hex_colon))].

Definition CMD_PATTERN : regex :=
  cat [Chars "CMD: "; Named "cmd" (plus dot)].

(** ** Exceptions *)

Inductive exn : Type := ValueError.

Inductive result (A : Type) : Type :=
| Ok (a : A)
| Raise (e : exn).
Arguments Ok {A} a.
Arguments Raise {A} e.

(** The interpreter's exit status: 0 when [main] returns, 1 when an exception
    reaches the top level. *)
Definition exit_status {A} (r : result A) : nat :=
  match r with
  | Ok _ => 0
  | Raise _ => 1
  end.

(** ** Dictionaries in insertion order *)
Module Dict.
Section dict.
Context {K V : Type} `{EqDecision K}.

Fixpoint get (k : K) (d : list (K * V)) : option V :=
match d with
| [] => None
| (k', v) :: d' => if decide (k' = k) then Some v else get k d'
end.

(** [d[k] = v]: an existing key keeps its position, a new key goes last. *)
Fixpoint setitem (k : K) (v : V) (d : list (K * V)) : list (K * V) :=
match d with
| [] => [(k, v)]
| (k', v') :: d' =>
    if decide (k' = k) then (k', v) :: d' else (k', v') :: setitem k v d'
end.

Definition keys (d : list (K * V)) : list K := d.*1.
End dict.
End Dict.

(** [Counter]: a missing key reads as 0. *)
Module Counter.
Section counter.
Context {K : Type} `{EqDecision K}.

Definition getitem (c : list (K * nat)) (k : K) : nat := default 0 (Dict.get k c).

(** [c[k] += 1] *)
Definition incr (k : K) (c : list (K * nat)) : list (K * nat) :=
Dict.setitem k (getitem c k + 1) c.
End counter.
End Counter.

(** [defaultdict(set)]: a missing key reads as the empty set. *)
Module SetDict.
Section setdict.
Context {K : Type} `{EqDecision K}.

Definition getitem (d : list (K * gset string)) (k : K) : gset string :=
default ∅ (Dict.get k d).

(** [d[k].add(x)] *)
Definition add (k : K) (x : string) (d : list (K * gset string))
: list (K * gset string) :=
Dict.setitem k ({[x]} ∪ getitem d k) d.
End setdict.
End SetDict.

(** ** [sorted]

    Python's sort is stable and compares with [<] only.  [sorted lt l] is the
    stable insertion sort for the strict comparison [lt]: an element is put
    before the first later element that is not smaller than it. *)
Module Sorting.
Section sorted.
Context {A : Type} (lt : A -> A -> bool).

Fixpoint insert (x : A) (l : list A) : list A :=
match l with
| [] => [x]
| y :: l' => if lt y x then y :: insert x l' else x :: y :: l'
end.

Definition sorted (l : list A) : list A := foldr insert [] l.
End sorted.

(** [sorted(l, key=key, reverse=True)] for an integer key: descending by
    key, elements with equal keys in their original order. *)
Definition sorted_desc {A} (key : A -> nat) : list A -> list A :=
  sorted (fun y x => (key x <? key y)%nat).

(** [<] on [(str, int)] tuples. *)
Definition item_lt (a b : string * nat) : bool :=
  if String.eqb a.1 b.1 then (a.2 <? b.2)%nat else String.ltb a.1 b.1.

(** [sorted(counter.items())] *)
Definition sorted_items : list (string * nat) -> list (string * nat) :=
  sorted item_lt.
End Sorting.

(** ** Format fields *)
Module Fmt.

Fixpoint repeat_char (c : ascii) (n : nat) : string :=
  match n with
  | O => ""
  | S n' => String c (repeat_char c n')
  end.

(** [f"{s:<w}"] *)
Definition ljust (w : nat) (s : string) : string :=
  s ++ repeat_char " " (w - String.length s).

(** [f"{s:>w}"] *)
Definition rjust (w : nat) (s : string) : string :=
  repeat_char " " (w - String.length s) ++ s.

(** [str(n)] for a count. *)
Definition str_nat (n : nat) : string := NilEmpty.string_of_uint (Nat.to_uint n).

(** [str(z)] for an integer command-line argument. *)
Definition str_int (z : Z) : string := NilEmpty.string_of_int (Z.to_int z).

(** [max(xs, default=d)] *)
Definition max_default (xs : list nat) (d : nat) : nat :=
  match xs with
  | [] => d
  | x :: xs' => foldl Nat.max x xs'
  end.

(** The whitespace [str.strip] removes, among the code points below 256. *)
Definition is_py_space (c : ascii) : bool :=
  let n := nat_of_ascii c in
  ((9 <=? n) && (n <=? 13) || (28 <=? n) && (n <=? 32)
   || (n =? 133) || (n =? 160))%nat.

Fixpoint lstrip (s : string) : string :=
  match s with
  | String c s' => if is_py_space c then lstrip s' else s
  | EmptyString => s
  end.

Fixpoint rstrip (s : string) : string :=
  match s with
  | String c s' =>
      match rstrip s' with
      | EmptyString => if is_py_space c then "" else String c ""
      | t => String c t
      end
  | EmptyString => s
  end.

Definition strip (s : string) : string := rstrip (lstrip s).

End Fmt.

(** ** [datetime] *)
Module Datetime.

Record datetime : Type := mk_datetime {
  year : nat; month : nat; day : nat; hour : nat; minute : nat; second : nat
}.

Definition is_leap (y : nat) : bool :=
  ((y mod 4 =? 0) && (negb (y mod 100 =? 0) || (y mod 400 =? 0)))%nat.

Definition days_in_month (y m : nat) : nat :=
  match m with
  | 2 => if is_leap y then 29 else 28
  | 4 | 6 | 9 | 11 => 30
  | _ => 31
  end.

(** The checks of the [datetime] constructor; the year is at most 9999. *)
Definition valid (dt : datetime) : bool :=
  ((1 <=? year dt) && (year dt <? 10 * 1000)
   && (1 <=? month dt) && (month dt <=? 12)
   && (1 <=? day dt) && (day dt <=? days_in_month (year dt) (month dt))
   && (hour dt <=? 23) && (minute dt <=? 59) && (second dt <=? 59))%nat.

Definition digit_val (c : ascii) : nat := nat_of_ascii c - 48.

Definition num2 (a b : ascii) : nat := 10 * digit_val a + digit_val b.

Definition sep_is (x c : ascii) : bool := Ascii.eqb c x.

(** [datetime.strptime(s, "%Y-%m-%dT%H:%M:%S")] on the slices the program
    passes to it.  [NEW_CONN_PATTERN] only captures timestamps whose first 19
    characters have the shape [dddd-dd-ddTdd:dd:dd] (lemma
    [new_conn_ts_shape]); on that shape the directives accept the two-digit
    fields 01-12, 01-31, 00-23, 00-59 and 00-61 and the constructor then
    requires a date of the calendar with a second below 60.  Every failure
    is a [ValueError], here [None]. *)
Definition strptime (s : string) : option datetime :=
  match list_ascii_of_string s with
  | [y1; y2; y3; y4; p1; m1; m2; p2; d1; d2; p3; h1; h2; p4; n1; n2; p5; s1; s2] =>
      if forallb is_digit [y1; y2; y3; y4; m1; m2; d1; d2; h1; h2; n1; n2; s1; s2]
         && sep_is "-" p1 && sep_is "-" p2
         && (sep_is "T" p3 || sep_is "t" p3)
         && sep_is ":" p4 && sep_is ":" p5
      then
        let dt := {| year := 100 * num2 y1 y2 + num2 y3 y4;
                     month := num2 m1 m2; day := num2 d1 d2;
                     hour := num2 h1 h2; minute := num2 n1 n2;
                     second := num2 s1 s2 |} in
        if valid dt then Some dt else None
      else None
  | _ => None
  end.

Definition digit_char (n : nat) : ascii := ascii_of_nat (48 + n).

Definition pad2 (n : nat) : string :=
  String (digit_char (n / 10)) (String (digit_char (n mod 10)) "").

Definition pad4 (n : nat) : string := pad2 (n / 100) ++ pad2 (n mod 100).

(** [%Y] is written by the C library.  Some zero-fill it to four digits, as
    the Python documentation shows ([pad_year = true]); glibc writes the plain
    decimal ([pad_year = false]).  A year from 1000 on has the same text on
    both. *)
Definition year_text (pad_year : bool) (y : nat) : string :=
  if pad_year then pad4 y else NilEmpty.string_of_uint (Nat.to_uint y).

(** [dt.strftime("%Y-%m-%d %H:%M")] *)
Definition strftime (pad_year : bool) (dt : datetime) : string :=
  year_text pad_year (year dt) ++ "-" ++ pad2 (month dt) ++ "-" ++ pad2 (day dt) ++ " "
  ++ pad2 (hour dt) ++ ":" ++ pad2 (minute dt).

End Datetime.

Import Datetime.

(** ** The report tasks *)

(** [max((len(str(k)) for k in counter), default=len(head1))] *)
Definition counter_width (counter : list (string * nat)) (head1 : string) : nat :=
  Fmt.max_default (String.length <$> Dict.keys counter) (String.length head1).

(** [f"{key:<{width}} {cnt:>8}"] *)
Definition counter_row (width : nat) (item : string * nat) : string :=
  Fmt.ljust width item.1 ++ " " ++ Fmt.rjust 8 (Fmt.str_nat item.2).

(** [sorted(counter.items()) if sort_keys else counter.most_common()] *)
Definition counter_items (counter : list (string * nat)) (sort_keys : bool)
    : list (string * nat) :=
  if sort_keys then Sorting.sorted_items counter else Sorting.sorted_desc snd counter.

(** [_print_counter(counter, head1, head2, sort_keys)]: the lines it prints. *)
Definition _print_counter (counter : list (string * nat)) (head1 head2 : string)
    (sort_keys : bool) : list string :=
  let width := counter_width counter head1 in
  (Fmt.ljust width head1 ++ " " ++ Fmt.rjust 8 head2)
  :: Fmt.repeat_char "-" (width + 9)
  :: (counter_row width <$> counter_items counter sort_keys).

(** *** Task 1: failed logins *)

Definition failed_logins_step (counter : list (string * nat)) (line : string)
    : list (string * nat) :=
  match search FAILED_LOGIN_PATTERN line with
  | Some m => Counter.incr (group "ip" m) counter
  | None => counter
  end.

Definition failed_logins_counter (lines : list string) : list (string * nat) :=
  fold_left failed_logins_step lines [].

(** [{ip: cnt for ip, cnt in counter.items() if cnt >= min_count}] *)
Definition counts_at_least (min_count : Z) (counter : list (string * nat))
    : list (string * nat) :=
  filter (fun item => (min_count <= Z.of_nat item.2)%Z) counter.

Definition failed_logins_filtered (lines : list string) (min_count : Z)
    : list (string * nat) :=
  counts_at_least min_count (failed_logins_counter lines).

Definition analyze_failed_logins (lines : list string) (min_count : Z) : list string :=
  ("Failed login attempts (min " ++ Fmt.str_int min_count ++ ")")
  :: _print_counter (failed_logins_filtered lines min_count) "IP" "Count" false.

(** *** Task 2: connections per minute *)

Definition connections_step (pad_year : bool) (acc : result (list (string * nat)))
    (line : string)
    : result (list (string * nat)) :=
  match acc with
  | Raise e => Raise e
  | Ok per_min =>
      match search NEW_CONN_PATTERN line with
      | Some m =>
          match strptime (substring 0 19 (group "ts" m)) with
          | Some dt => Ok (Counter.incr (strftime pad_year dt) per_min)
          | None => Raise ValueError
          end
      | None => Ok per_min
      end
  end.

Definition connections_counter (pad_year : bool) (lines : list string)
    : result (list (string * nat)) :=
  fold_left (connections_step pad_year) lines (Ok []).

Definition connections (pad_year : bool) (lines : list string) : result (list string) :=
  match connections_counter pad_year lines with
  | Ok per_min =>
      Ok ("Connections per minute" :: _print_counter per_min "Timestamp" "Count" true)
  | Raise e => Raise e
  end.

(** *** Task 3: successful credentials *)

Definition successful_creds_step (creds : list ((string * string) * gset string))
    (line : string) : list ((string * string) * gset string) :=
  match search SUCCESS_LOGIN_PATTERN line with
  | Some m => SetDict.add (group "user" m, group "pw" m) (group "ip" m) creds
  | None => creds
  end.

Definition successful_creds_map (lines : list string)
    : list ((string * string) * gset string) :=
  fold_left successful_creds_step lines [].

Definition successful_creds_items (lines : list string)
    : list ((string * string) * gset string) :=
  Sorting.sorted_desc (fun item => size item.2) (successful_creds_map lines).

(** [f"{user:<15} {pw:<15} {len(ips):>9}"] *)
Definition creds_row (item : (string * string) * gset string) : string :=
  Fmt.ljust 15 item.1.1 ++ " " ++ Fmt.ljust 15 item.1.2 ++ " "
  ++ Fmt.rjust 9 (Fmt.str_nat (size item.2)).

Definition analyze_successful_creds (lines : list string) : list string :=
  "Successful login credentials"
  :: (Fmt.ljust 15 "Username" ++ " " ++ Fmt.ljust 15 "Password" ++ " " ++ Fmt.rjust 9 "IP_Count")
  :: Fmt.repeat_char "-" 41
  :: (creds_row <$> successful_creds_items lines).

(** *** Task 4: bots by fingerprint *)

Definition identify_bots_step (fp_map : list (string * gset string)) (line : string)
    : list (string * gset string) :=
  match search FINGERPRINT_PATTERN line with
  | Some m => SetDict.add (group "fp" m) (group "ip" m) fp_map
  | None => fp_map
  end.

Definition identify_bots_map (lines : list string) : list (string * gset string) :=
  fold_left identify_bots_step lines [].

(** [{fp: ips for fp, ips in fp_map.items() if len(ips) >= min_ips}] *)
Definition sets_at_least (min_ips : Z) (fp_map : list (string * gset string))
    : list (string * gset string) :=
  filter (fun item => (min_ips <= Z.of_nat (size item.2))%Z) fp_map.

Definition identify_bots_bots (lines : list string) (min_ips : Z)
    : list (string * gset string) :=
  sets_at_least min_ips (identify_bots_map lines).

Definition identify_bots_items (lines : list string) (min_ips : Z)
    : list (string * gset string) :=
  Sorting.sorted_desc (fun item => size item.2) (identify_bots_bots lines min_ips).

(** [f"{fp:<47} {len(ips):>6}"] *)
Definition bots_row (item : string * gset string) : string :=
  Fmt.ljust 47 item.1 ++ " " ++ Fmt.rjust 6 (Fmt.str_nat (size item.2)).

Definition identify_bots (lines : list string) (min_ips : Z) : list string :=
  ("Fingerprints seen from ≥ " ++ Fmt.str_int min_ips ++ " unique IPs")
  :: (Fmt.ljust 47 "Fingerprint" ++ " " ++ Fmt.rjust 6 "IPs")
  :: Fmt.repeat_char "-" 53
  :: (bots_row <$> identify_bots_items lines min_ips).

(** *** Extra task: top shell commands *)

Definition top_commands_step (counter : list (string * nat)) (line : string)
    : list (string * nat) :=
  match search CMD_PATTERN line with
  | Some m => Counter.incr (Fmt.strip (group "cmd" m)) counter
  | None => counter
  end.

Definition top_commands_counter (lines : list string) : list (string * nat) :=
  fold_left top_commands_step lines [].

Definition top_commands (lines : list string) : list string :=
  "Top shell commands" :: _print_counter (top_commands_counter lines) "Command" "Count" false.

(** *** The command line *)

Inductive task : Type :=
| FailedLogins | Connections | SuccessfulCreds | IdentifyBots | TopCommands.

Record args : Type := mk_args {
  arg_task : task;
  min_count : Z;   (* --min-count, default 1 *)
  min_ips : Z      (* --min-ips, default 3 *)
}.

Definition default_args (t : task) : args :=
  {| arg_task := t; min_count := 1; min_ips := 3 |}.

Definition main (pad_year : bool) (a : args) (lines : list string)
    : result (list string) :=
  match arg_task a with
  | FailedLogins => Ok (analyze_failed_logins lines (min_count a))
  | Connections => connections pad_year lines
  | SuccessfulCreds => Ok (analyze_successful_creds lines)
  | IdentifyBots => Ok (identify_bots lines (min_ips a))
  | TopCommands => Ok (top_commands lines)
  end.

(** The grammar a task runs every line through. *)
Definition task_pattern (t : task) : regex :=
  match t with
  | FailedLogins => FAILED_LOGIN_PATTERN
  | Connections => NEW_CONN_PATTERN
  | SuccessfulCreds => SUCCESS_LOGIN_PATTERN
  | IdentifyBots => FINGERPRINT_PATTERN
  | TopCommands => CMD_PATTERN
  end.

(** ** Vocabulary of the statements *)

(** The event a line yields under each grammar, [None] when it does not match. *)
Definition failed_login_ip (line : string) : option string :=
  group "ip" <$> search FAILED_LOGIN_PATTERN line.

Definition new_conn_ts (line : string) : option string :=
  group "ts" <$> search NEW_CONN_PATTERN line.

Definition success_login (line : string) : option ((string * string) * string) :=
  (fun m => ((group "user" m, group "pw" m), group "ip" m))
    <$> search SUCCESS_LOGIN_PATTERN line.

Definition client_fingerprint (line : string) : option (string * string) :=
  (fun m => (group "fp" m, group "ip" m)) <$> search FINGERPRINT_PATTERN line.

Definition shell_command (line : string) : option string :=
  (fun m => Fmt.strip (group "cmd" m)) <$> search CMD_PATTERN line.

(** The two aggregation loops, over an arbitrary extraction function. *)
Section loops.
Context {K : Type} `{EqDecision K}.

Definition count_step (ev : string -> option K) (c : list (K * nat)) (line : string)
    : list (K * nat) :=
  match ev line with
  | Some k => Counter.incr k c
  | None => c
  end.

Definition collect_step (ev : string -> option (K * string))
    (d : list (K * gset string)) (line : string) : list (K * gset string) :=
  match ev line with
  | Some (k, x) => SetDict.add k x d
  | None => d
  end.

(** The distinct elements of a list, in the order of their first occurrence. *)
Fixpoint first_seen (l : list K) : list K :=
  match l with
  | [] => []
  | k :: l' => k :: filter (fun k' => k' <> k) (first_seen l')
  end.
End loops.

(** [not_after lt a b]: a sort by the strict comparison [lt] may leave [a] in
    front of [b]. *)
Definition not_after {A} (lt : A -> A -> bool) (a b : A) : Prop := lt b a = false.

(** How many lines yield the key [k], and the set of secondary values the
    lines yield together with [k]. *)
Definition occurrences {K} `{EqDecision K} (ev : string -> option K)
    (lines : list string) (k : K) : nat :=
  length (filter (fun l => ev l = Some k) lines).

Definition seen_with {K} `{EqDecision K} (ev : string -> option (K * string))
    (lines : list string) (k : K) : gset string :=
  list_to_set (filter (fun e => e.1 = k) (omap ev lines)).*2.

(** The length of the longest key, 0 when there is none. *)
Definition longest (ks : list string) : nat := foldr Nat.max 0 (String.length <$> ks).

(** The header row of a task's output: the line after the title. *)
Definition header_row (out : list string) : string := default "" (out !! 1).

(** The header row the specification describes: the key column as wide as the
    longest key or the header text, the metric column 8 to 10 wide. *)
Definition header_as_specified (header : string) (ks : list string)
    (head1 head2 : string) : Prop :=
  exists w, 8 <= w <= 10 /\
    header = Fmt.ljust (Nat.max (longest ks) (String.length head1)) head1
             ++ " " ++ Fmt.rjust w head2.

(** The [(key, metric)] pairs of the two counter reports sorted by metric, in
    the order their rows are printed. *)
Definition failed_logins_rows (lines : list string) (min_count : Z)
    : list (string * nat) :=
  counter_items (failed_logins_filtered lines min_count) false.

Definition top_commands_rows (lines : list string) : list (string * nat) :=
  counter_items (top_commands_counter lines) false.

(** What the connections loop does with one line: raise, because the line
    matches and [strptime] rejects its timestamp, or else count the line in a
    minute bucket, if it matches at all. *)
Definition bucket_raises (line : string) : bool :=
  match search NEW_CONN_PATTERN line with
  | Some m => bool_decide (strptime (substring 0 19 (group "ts" m)) = None)
  | None => false
  end.

Definition bucket_of (pad_year : bool) (line : string) : option string :=
  match search NEW_CONN_PATTERN line with
  | Some m => strftime pad_year <$> strptime (substring 0 19 (group "ts" m))
  | None => None
  end.

(** A timestamp text cut to the minute: [YYYY-MM-DD], a space, [HH:MM]. *)
Definition minute_text (ts : string) : string :=
  substring 0 10 ts ++ " " ++ substring 11 5 ts.

(** The captured timestamp denotes a date and time that [strptime] accepts. *)
Definition valid_timestamp (ts : string) : Prop :=
  is_Some (strptime (substring 0 19 ts)).

(** The three lines a task prints when its aggregate is empty: its title, the
    header row and the separator rule. *)
Definition empty_report (a : args) : list string :=
  match arg_task a with
  | FailedLogins =>
      ["Failed login attempts (min " ++ Fmt.str_int (min_count a) ++ ")";
       "IP    Count";
       "-----------"]
  | Connections =>
      ["Connections per minute";
       "Timestamp    Count";
       "------------------"]
  | SuccessfulCreds =>
      ["Successful login credentials";
       "Username        Password         IP_Count";
       "-----------------------------------------"]
  | IdentifyBots =>
      ["Fingerprints seen from ≥ " ++ Fmt.str_int (min_ips a) ++ " unique IPs";
       "Fingerprint                                        IPs";
       "-----------------------------------------------------"]
  | TopCommands =>
      ["Top shell commands";
       "Command    Count";
       "----------------"]
  end.

(** The shape [dddd-dd-ddTdd:dd:dd] of a 19-character timestamp. *)
Definition ts_shape (s : string) : bool :=
  match list_ascii_of_string s with
  | [y1; y2; y3; y4; p1; m1; m2; p2; d1; d2; p3; h1; h2; p4; n1; n2; p5; s1; s2] =>
      forallb is_digit [y1; y2; y3; y4; m1; m2; d1; d2; h1; h2; n1; n2; s1; s2]
      && sep_is "-" p1 && sep_is "-" p2 && sep_is "T" p3
      && sep_is ":" p4 && sep_is ":" p5
  | _ => false
  end.

(** What a successful run of a regular expression on [s] establishes: the
    rest [s'] of the text and the groups [g'] it hands to its continuation. *)
Fixpoint den (r : regex) (s s' : string) (g g' : groups) : Prop :=
  match r with
  | Chars t => s = t ++ s' /\ g' = g
  | OneOf p => exists c, s = String c s' /\ p c = true /\ g' = g
  | Seq r1 r2 => exists s1 g1, den r1 s s1 g g1 /\ den r2 s1 s' g1 g'
  | Rep _ p => exists t, s = t ++ s' /\ g' = g
  | Maybe r' => den r' s s' g g' \/ (s' = s /\ g' = g)
  | Named name r' =>
      exists g1, den r' s s' g g1 /\ g' = set_group name (consumed s s') g1
  end.

(** Every character of [s] belongs to the class [p]. *)
Fixpoint all_chars (p : ascii -> bool) (s : string) : bool :=
  match s with
  | EmptyString => true
  | String c s' => p c && all_chars p s'
  end.

(** A non-empty run of characters of the class [p]: what [[p]+] matches. *)
Definition run_of (p : ascii -> bool) (s : string) : Prop :=
  s <> "" /\ all_chars p s = true.

(** Four runs of digits separated by dots: what [\d+\.\d+\.\d+\.\d+] matches. *)
Definition dotted_quad (ip : string) : Prop :=
  exists a b c d,
    ip = a ++ "." ++ b ++ "." ++ c ++ "." ++ d
    /\ run_of is_digit a /\ run_of is_digit b /\ run_of is_digit c /\ run_of is_digit d.

(** The texts a regular expression can match at the start of [s]: [s'] is the
    rest of [s] after one of them and [g'] the groups after it. *)
Fixpoint matches (r : regex) (s s' : string) (g g' : groups) : Prop :=
  match r with
  | Chars t => s = t ++ s' /\ g' = g
  | OneOf p => exists c, s = String c s' /\ p c = true /\ g' = g
  | Seq r1 r2 => exists s1 g1, matches r1 s s1 g g1 /\ matches r2 s1 s' g1 g'
  | Rep _ p => exists t, s = t ++ s' /\ all_chars p t = true /\ g' = g
  | Maybe r' => matches r' s s' g g' \/ (s' = s /\ g' = g)
  | Named name r' =>
      exists g1, matches r' s s' g g1 /\ g' = set_group name (consumed s s') g1
  end.

(** The longest prefix of [s] in the class [p], and what follows it. *)
Fixpoint take_run (p : ascii -> bool) (s : string) : string :=
  match s with
  | String c s' => if p c then String c (take_run p s') else ""
  | EmptyString => ""
  end.

Fixpoint drop_run (p : ascii -> bool) (s : string) : string :=
  match s with
  | String c s' => if p c then drop_run p s' else s
  | EmptyString => ""
  end.

(** The six numbers a 19-character timestamp spells. *)
Definition timestamp_fields (s : string) : datetime :=
  match list_ascii_of_string s with
  | [y1; y2; y3; y4; _; m1; m2; _; d1; d2; _; h1; h2; _; n1; n2; _; s1; s2] =>
      {| year := 100 * num2 y1 y2 + num2 y3 y4;
         month := num2 m1 m2; day := num2 d1 d2;
         hour := num2 h1 h2; minute := num2 n1 n2; second := num2 s1 s2 |}
  | _ => mk_datetime 0 0 0 0 0 0
  end.

(** The text of a failed-login event: the transport marker with session
    number [n] and address [ip], any text [mid], and the failed attempt of
    [u]/[p]. *)
Definition failed_login_text (n ip mid u p : string) : string :=
  "[HoneyPotSSHTransport," ++ n ++ "," ++ ip ++ "]" ++ mid
  ++ "login attempt [" ++ u ++ "/" ++ p ++ "] failed".

(** A character of an address: a digit or a dot. *)
Definition is_addr_char (c : ascii) : bool := is_digit c || Ascii.eqb c ".".

(** A text of exactly [n] digits: what [\d{n}] matches. *)
Definition digits (n : nat) (s : string) : Prop :=
  String.length s = n /\ all_chars is_digit s = true.

(** A timestamp as [NEW_CONN_PATTERN] reads it: [dddd-dd-ddTdd:dd:dd] and
    possibly a dot and a run of digits. *)
Definition timestamp_text (ts : string) : Prop :=
  exists y mo d h mi se frac,
    ts = y ++ "-" ++ mo ++ "-" ++ d ++ "T" ++ h ++ ":" ++ mi ++ ":" ++ se ++ frac
    /\ digits 4 y /\ digits 2 mo /\ digits 2 d
    /\ digits 2 h /\ digits 2 mi /\ digits 2 se
    /\ (frac = "" \/ exists f, frac = "." ++ f /\ run_of is_digit f).

(** The text of a new-connection event: the timestamp, the zone letter, the
    factory's phrase, and the peer's address and port. *)
Definition new_conn_text (ts ip port : string) : string :=
  ts ++ "Z [cowrie.ssh.factory.CowrieSSHFactory] New connection: " ++ ip ++ ":" ++ port.

(** A character that is not a digit. *)
Definition not_digit (c : ascii) : bool := negb (is_digit c).

(** The line matches the new-connection grammar and [strptime] rejects its
    timestamp. *)
Definition rejected_timestamp (line : string) : Prop :=
  exists ts, new_conn_ts line = Some ts /\ ~ valid_timestamp ts.

(** ** The connections task on arbitrary text

    The file is read as UTF-8, and on a [str] pattern [\d] matches every
    decimal digit of Unicode, not only [0-9]; [strptime] in turn reads such
    digits in some positions of a timestamp and not in others.  What the
    connections task does with a timestamp therefore depends on code points
    above 255.  This module models the loop of [connections] on texts of
    arbitrary code points: the same matcher as [Re], over lists of code
    points, with Python's [\d], and [strptime] with the per-directive
    patterns of the standard library. *)
Module Unicode.

(** A text is the list of its code points. *)
Definition text : Type := list N.

Definition of_string (s : string) : text := N_of_ascii <$> list_ascii_of_string s.

(** The decimal digits (category Nd) of Unicode 14.0, the database of
    CPython 3.11: each is one of the ten code points that start at one of
    these zeros, at the offset of its value. *)
Definition decimal_zeros : list N :=
  [48; 1632; 1776; 1984; 2406; 2534; 2662; 2790; 2918; 3046; 3174; 3302; 3430;
   3558; 3664; 3792; 3872; 4160; 4240; 6112; 6160; 6470; 6608; 6784; 6800; 6992;
   7088; 7232; 7248; 42528; 43216; 43264; 43472; 43504; 43600; 44016; 65296;
   66720; 68912; 69734; 69872; 69942; 70096; 70384; 70736; 70864; 71248; 71360;
   71472; 71904; 72016; 72784; 73040; 73120; 92768; 92864; 93008; 120782;
   120792; 120802; 120812; 120822; 123200; 123632; 125264; 130032]%N.

(** [unicodedata.decimal(c)], the value [int] gives the digit [c]. *)
Definition decimal (c : N) : option nat :=
  (fun z => N.to_nat (c - z))
    <$> List.find (fun z => (z <=? c) && (c <? z + 10))%N decimal_zeros.

(** [\d] *)
Definition is_digit (c : N) : bool :=
  match decimal c with
  | Some _ => true
  | None => false
  end.

(** *** The matcher of [Re], over code points *)

Inductive regex : Type :=
| Chars (t : text)
| OneOf (p : N -> bool)
| Seq (r1 r2 : regex)
| Rep (greedy : bool) (p : N -> bool)
| Maybe (r : regex)
| Named (name : string) (r : regex).

Definition groups : Type := list (string * text).

Definition cont : Type := text -> groups -> option groups.

Fixpoint strip_prefix (t s : text) : option text :=
  match t, s with
  | [], _ => Some s
  | a :: t', b :: s' => if (a =? b)%N then strip_prefix t' s' else None
  | _ :: _, [] => None
  end.

Fixpoint rep_greedy (p : N -> bool) (s : text) (g : groups) (k : cont)
  : option groups :=
  match s with
  | c :: s' =>
      if p c then
        match rep_greedy p s' g k with
        | Some m => Some m
        | None => k s g
        end
      else k s g
  | [] => k s g
  end.

Fixpoint rep_lazy (p : N -> bool) (s : text) (g : groups) (k : cont)
  : option groups :=
  match k s g with
  | Some m => Some m
  | None =>
      match s with
      | c :: s' => if p c then rep_lazy p s' g k else None
      | [] => None
      end
  end.

Definition consumed (s s' : text) : text := take (length s - length s') s.

Fixpoint set_group (name : string) (t : text) (g : groups) : groups :=
  match g with
  | [] => [(name, t)]
  | (n, t') :: g' =>
      if String.eqb n name then (n, t) :: g' else (n, t') :: set_group name t g'
  end.

Fixpoint run (r : regex) (s : text) (g : groups) (k : cont) : option groups :=
  match r with
  | Chars t =>
      match strip_prefix t s with
      | Some s' => k s' g
      | None => None
      end
  | OneOf p =>
      match s with
      | c :: s' => if p c then k s' g else None
      | [] => None
      end
  | Seq r1 r2 => run r1 s g (fun s' g' => run r2 s' g' k)
  | Rep true p => rep_greedy p s g k
  | Rep false p => rep_lazy p s g k
  | Maybe r' =>
      match run r' s g k with
      | Some m => Some m
      | None => k s g
      end
  | Named name r' =>
      run r' s g (fun s' g' => k s' (set_group name (consumed s s') g'))
  end.

Definition match_here (r : regex) (s : text) : option groups :=
  run r s [] (fun _ g => Some g).

Fixpoint search (r : regex) (s : text) : option groups :=
  match match_here r s with
  | Some g => Some g
  | None =>
      match s with
      | _ :: s' => search r s'
      | [] => None
      end
  end.

Fixpoint group (name : string) (g : groups) : text :=
  match g with
  | [] => []
  | (n, t) :: g' => if String.eqb n name then t else group name g'
  end.

Definition plus (p : N -> bool) : regex := Seq (OneOf p) (Rep true p).

Fixpoint times (n : nat) (r : regex) : regex :=
  match n with
  | O => Chars []
  | S O => r
  | S n' => Seq r (times n' r)
  end.

Fixpoint cat (rs : list regex) : regex :=
  match rs with
  | [] => Chars []
  | [r] => r
  | r :: rs' => Seq r (cat rs')
  end.

(** *** [NEW_CONN_PATTERN] *)

Definition ipv4 : regex :=
  cat [plus is_digit; Chars (of_string "."); plus is_digit; Chars (of_string ".");
       plus is_digit; Chars (of_string "."); plus is_digit].

Definition timestamp : regex :=
  cat [times 4 (OneOf is_digit); Chars (of_string "-"); times 2 (OneOf is_digit);
       Chars (of_string "-"); times 2 (OneOf is_digit); Chars (of_string "T");
       times 2 (OneOf is_digit); Chars (of_string ":"); times 2 (OneOf is_digit);
       Chars (of_string ":"); times 2 (OneOf is_digit);
       Maybe (Seq (Chars (of_string ".")) (plus is_digit))].

Definition NEW_CONN_PATTERN : regex :=
  cat [Named "ts" timestamp;
       Chars (of_string "Z ");
       Chars (of_string "[cowrie.ssh.factory.CowrieSSHFactory] New connection: ");
       Named "ip" ipv4; Chars (of_string ":"); plus is_digit].

(** *** [datetime.strptime(s, "%Y-%m-%dT%H:%M:%S")]

    [strptime] matches [s] in full against the pattern it builds from the
    format, ignoring case:

    [(?P<Y>\d\d\d\d)-(?P<m>1[0-2]|0[1-9]|[1-9])-(?P<d>3[0-1]|[1-2]\d|0[1-9]|[1-9]| [1-9])T]
    [(?P<H>2[0-3]|[0-1]\d|\d):(?P<M>[0-5]\d|\d):(?P<S>6[0-1]|[0-5]\d|\d)]

    converts the groups with [int], which reads every decimal digit, and calls
    the [datetime] constructor.  The program passes it the first 19 characters
    of a captured timestamp; a text of 19 characters can only match with two
    characters in every field after the year, which leaves the two-character
    alternatives below.  A bracketed class such as [[0-5]] admits the ASCII
    digits only, [\d] any decimal digit. *)

(** The value of an ASCII digit between [lo] and [hi]. *)
Definition ascii_in (lo hi : N) (c : N) : option nat :=
  if ((48 + lo <=? c) && (c <=? 48 + hi))%N then Some (N.to_nat (c - 48)) else None.

Definition blank (c : N) : option nat := if (c =? 32)%N then Some 0 else None.

(** The first alternative, in order, that admits both characters. *)
Fixpoint two (alts : list ((N -> option nat) * (N -> option nat))) (a b : N)
  : option nat :=
  match alts with
  | [] => None
  | (fa, fb) :: alts' =>
      match fa a, fb b with
      | Some x, Some y => Some (10 * x + y)
      | _, _ => two alts' a b
      end
  end.

Definition directive_m : N -> N -> option nat :=
  two [(ascii_in 1 1, ascii_in 0 2); (ascii_in 0 0, ascii_in 1 9)].

Definition directive_d : N -> N -> option nat :=
  two [(ascii_in 3 3, ascii_in 0 1); (ascii_in 1 2, decimal);
       (ascii_in 0 0, ascii_in 1 9); (blank, ascii_in 1 9)].

Definition directive_H : N -> N -> option nat :=
  two [(ascii_in 2 2, ascii_in 0 3); (ascii_in 0 1, decimal)].

Definition directive_M : N -> N -> option nat :=
  two [(ascii_in 0 5, decimal)].

Definition directive_S : N -> N -> option nat :=
  two [(ascii_in 6 6, ascii_in 0 1); (ascii_in 0 5, decimal)].

Definition directive_Y (a b c d : N) : option nat :=
  match decimal a, decimal b, decimal c, decimal d with
  | Some x, Some y, Some z, Some w => Some (100 * (10 * x + y) + (10 * z + w))
  | _, _, _, _ => None
  end.

Definition sep_is (x : ascii) (c : N) : bool := (c =? N_of_ascii x)%N.

Definition strptime (s : text) : option datetime :=
  match s with
  | [y1; y2; y3; y4; p1; m1; m2; p2; d1; d2; p3; h1; h2; p4; n1; n2; p5; s1; s2] =>
      if sep_is "-" p1 && sep_is "-" p2 && (sep_is "T" p3 || sep_is "t" p3)
         && sep_is ":" p4 && sep_is ":" p5
      then
        match directive_Y y1 y2 y3 y4, directive_m m1 m2, directive_d d1 d2,
              directive_H h1 h2, directive_M n1 n2, directive_S s1 s2 with
        | Some y, Some mo, Some d, Some h, Some mi, Some se =>
            let dt := {| year := y; month := mo; day := d;
                         hour := h; minute := mi; second := se |} in
            if valid dt then Some dt else None
        | _, _, _, _, _, _ => None
        end
      else None
  | _ => None
  end.

(** [dt.strftime("%Y-%m-%d %H:%M")] *)
Definition strftime (pad_year : bool) (dt : datetime) : text :=
  of_string (Datetime.strftime pad_year dt).

(** *** The loop of [connections] *)

Definition connections_step (pad_year : bool) (acc : result (list (text * nat)))
    (line : text) : result (list (text * nat)) :=
  match acc with
  | Raise e => Raise e
  | Ok per_min =>
      match search NEW_CONN_PATTERN line with
      | Some m =>
          match strptime (take 19 (group "ts" m)) with
          | Some dt => Ok (Counter.incr (strftime pad_year dt) per_min)
          | None => Raise ValueError
          end
      | None => Ok per_min
      end
  end.

Definition connections_counter (pad_year : bool) (lines : list text)
    : result (list (text * nat)) :=
  fold_left (connections_step pad_year) lines (Ok []).

(** *** Vocabulary *)

(** The timestamp a line yields, [None] when it does not match. *)
Definition new_conn_ts (line : text) : option text :=
  group "ts" <$> search NEW_CONN_PATTERN line.

(** The captured timestamp is accepted by [strptime]. *)
Definition valid_timestamp (ts : text) : Prop := is_Some (strptime (take 19 ts)).

(** A timestamp text cut to the minute: [YYYY-MM-DD], a space, [HH:MM]. *)
Definition minute_text (ts : text) : text :=
  (take 10 ts ++ of_string " " ++ take 5 (drop 11 ts))%list.

(** The first 19 characters are [dddd-dd-ddTdd:dd:dd] written with the ASCII
    digits [0-9]. *)
Definition is_ascii_digit (c : N) : bool := ((48 <=? c) && (c <=? 57))%N.

Definition ascii_timestamp (ts : text) : bool :=
  match take 19 ts with
  | [y1; y2; y3; y4; p1; m1; m2; p2; d1; d2; p3; h1; h2; p4; n1; n2; p5; s1; s2] =>
      forallb is_ascii_digit [y1; y2; y3; y4; m1; m2; d1; d2; h1; h2; n1; n2; s1; s2]
      && sep_is "-" p1 && sep_is "-" p2 && sep_is "T" p3
      && sep_is ":" p4 && sep_is ":" p5
  | _ => false
  end.


(** The six numbers the digits of a 19-character timestamp spell. *)
Definition timestamp_fields (s : text) : option datetime :=
  match s with
  | [y1; y2; y3; y4; _; m1; m2; _; d1; d2; _; h1; h2; _; n1; n2; _; s1; s2] =>
      match decimal y1, decimal y2, decimal y3, decimal y4,
            decimal m1, decimal m2, decimal d1, decimal d2,
            decimal h1, decimal h2, decimal n1, decimal n2,
            decimal s1, decimal s2 with
      | Some a, Some b, Some c, Some d, Some e, Some f, Some g, Some h,
        Some i, Some j, Some k, Some l, Some m, Some n =>
          Some {| year := 100 * (10 * a + b) + (10 * c + d);
                  month := 10 * e + f; day := 10 * g + h;
                  hour := 10 * i + j; minute := 10 * k + l; second := 10 * m + n |}
      | _, _, _, _, _, _, _, _, _, _, _, _, _, _ => None
      end
  | _ => None
  end.

(** What the loop does with one line: the bucket it counts the line in, and
    whether it raises. *)
Definition bucket_of (pad_year : bool) (line : text) : option text :=
  match search NEW_CONN_PATTERN line with
  | Some m => strftime pad_year <$> strptime (take 19 (group "ts" m))
  | None => None
  end.

Definition bucket_raises (line : text) : bool :=
  match search NEW_CONN_PATTERN line with
  | Some m =>
      match strptime (take 19 (group "ts" m)) with
      | Some _ => false
      | None => true
      end
  | None => false
  end.

(** The line matches and [strptime] rejects its timestamp. *)
Definition rejected (line : text) : Prop :=
  exists ts, new_conn_ts line = Some ts /\ ~ valid_timestamp ts.

Definition count_step {K} `{EqDecision K} (ev : text -> option K)
    (c : list (K * nat)) (line : text) : list (K * nat) :=
  match ev line with
  | Some k => Counter.incr k c
  | None => c
  end.

(** Equality of optional numbers, and the number two ASCII digits spell when
    it lies between [lo] and [hi]. *)
Definition opt_nat_eqb (x y : option nat) : bool :=
  match x, y with
  | Some a, Some b => (a =? b)%nat
  | None, None => true
  | _, _ => false
  end.

Definition in_range (lo hi n : nat) : option nat :=
  if ((lo <=? n) && (n <=? hi))%nat then Some n else None.

(** *** Text of code points below 256 inside the Unicode model *)

Definition of_groups (g : Re.groups) : groups := prod_map id of_string <$> g.

Definition of_counter (c : list (string * nat)) : list (text * nat) :=
  prod_map of_string id <$> c.

Definition of_result (r : result (list (string * nat))) : result (list (text * nat)) :=
  match r with
  | Ok c => Ok (of_counter c)
  | Raise e => Raise e
  end.

(** The same pattern over the two alphabets: the classes agree on the code
    points below 256. *)
Inductive same_pattern : Re.regex -> regex -> Prop :=
| same_Chars t : same_pattern (Re.Chars t) (Chars (of_string t))
| same_OneOf p P :
    (forall c, P (N_of_ascii c) = p c) -> same_pattern (Re.OneOf p) (OneOf P)
| same_Seq r1 R1 r2 R2 :
    same_pattern r1 R1 -> same_pattern r2 R2 ->
    same_pattern (Re.Seq r1 r2) (Seq R1 R2)
| same_Rep b p P :
    (forall c, P (N_of_ascii c) = p c) -> same_pattern (Re.Rep b p) (Rep b P)
| same_Maybe r R : same_pattern r R -> same_pattern (Re.Maybe r) (Maybe R)
| same_Named n r R : same_pattern r R -> same_pattern (Re.Named n r) (Named n R).
(** A new-connection line with the timestamp [ts]. *)
Definition conn_line (ts : text) : text :=
  (ts ++ of_string "Z [cowrie.ssh.factory.CowrieSSHFactory] New connection: 10.0.0.7:51234 (10.0.0.1:2222) [session: ab12]"
      ++ [10%N])%list.

End Unicode.

(** Sample log lines. *)
Definition nl : string := String "010"%char "".

Definition failed_line (ip : string) : string :=
  "2023-01-01T10:15:02.123456Z [HoneyPotSSHTransport,12," ++ ip
  ++ "] [b'root'/b'toor'] login attempt [root/toor] failed" ++ nl.

Definition success_line (ip user pw : string) : string :=
  "2023-01-01T10:15:02.123456Z [HoneyPotSSHTransport,7," ++ ip
  ++ "] login attempt [" ++ user ++ "/" ++ pw ++ "] succeeded" ++ nl.

Definition conn_line (ts : string) : string :=
  ts ++ "Z [cowrie.ssh.factory.CowrieSSHFactory] New connection: 10.0.0.7:51234 (10.0.0.1:2222) [session: ab12]" ++ nl.

Definition hassh_line (ip fp : string) : string :=
  "2023-01-01T10:15:03.000001Z [HoneyPotSSHTransport,7," ++ ip
  ++ "] SSH client hassh fingerprint: " ++ fp ++ nl.

Definition cmd_line_of (cmd : string) : string :=
  "2023-01-01T10:15:09.000001Z [HoneyPotSSHTransport,7,10.0.0.7] CMD: " ++ cmd ++ nl.

(** * Properties *)

Open Scope list_scope.

(** ** Dictionaries *)
Section dict_facts.
Context {K V : Type} `{EqDecision K}.
Implicit Types (d : list (K * V)) (k : K) (v : V).

Lemma get_setitem k k' v d :
  Dict.get k' (Dict.setitem k v d) = if decide (k = k') then Some v else Dict.get k' d.
Proof.
  induction d as [|[k0 v0] d IH]; csimpl.
  - repeat case_decide; congruence.
  - destruct (decide (k0 = k)) as [->|Hne]; csimpl.
    + repeat case_decide; congruence.
    + rewrite IH. repeat case_decide; congruence.
Qed.

Lemma keys_setitem k v d :
  Dict.keys (Dict.setitem k v d)
  = if decide (k ∈ Dict.keys d) then Dict.keys d else Dict.keys d ++ [k].
Proof.
  unfold Dict.keys. induction d as [|[k0 v0] d IH]; csimpl.
  - done.
  - destruct (decide (k0 = k)) as [->|Hne]; csimpl.
    + rewrite decide_True by left. done.
    + rewrite IH. destruct (decide (k ∈ d.*1)) as [Hin|Hnin].
      * rewrite decide_True by (by right). done.
      * rewrite decide_False; [done|].
        intros [?|?]%elem_of_cons; congruence.
Qed.

Lemma get_None k d : Dict.get k d = None <-> k ∉ Dict.keys d.
Proof.
  unfold Dict.keys. induction d as [|[k0 v0] d IH]; csimpl.
  - split; [intros _; apply not_elem_of_nil | done].
  - rewrite not_elem_of_cons. case_decide.
    + split; [done | intros [? _]; congruence].
    + rewrite IH. split; [intros ?; split; [congruence | done] | by intros [_ ?]].
Qed.

Lemma get_Some_elem_of k v d : Dict.get k d = Some v -> (k, v) ∈ d.
Proof.
  induction d as [|[k0 v0] d IH]; csimpl; [done|].
  case_decide; intros; simplify_eq; [left | right; auto].
Qed.

Lemma elem_of_get k v d : NoDup (Dict.keys d) -> (k, v) ∈ d -> Dict.get k d = Some v.
Proof.
  unfold Dict.keys. induction d as [|[k0 v0] d IH]; csimpl.
  - intros _ Hin. by apply elem_of_nil in Hin.
  - intros [Hnin Hnd]%NoDup_cons [Heq|Hin]%elem_of_cons.
    + simplify_eq. by rewrite decide_True.
    + rewrite decide_False; [auto|].
      intros ->. apply Hnin. apply list_elem_of_fmap. by exists (k, v).
Qed.

Lemma NoDup_keys_setitem k v d :
  NoDup (Dict.keys d) -> NoDup (Dict.keys (Dict.setitem k v d)).
Proof.
  intros Hnd. rewrite keys_setitem. case_decide as Hin; [done|].
  apply NoDup_app. split_and!; [done | | apply NoDup_singleton].
  intros x Hx ->%list_elem_of_singleton. done.
Qed.
End dict_facts.

(** ** Lists *)
Section list_facts.
Context {A : Type}.

Lemma Sorted_mono (R R' : relation A) (l : list A) :
  (forall a b, R a b -> R' a b) -> Sorted R l -> Sorted R' l.
Proof.
  intros HR. induction 1 as [|x l Hs IH Hhd]; constructor; [done|].
  destruct Hhd; constructor. by apply HR.
Qed.

Lemma filter_all (P : A -> Prop) `{!forall x, Decision (P x)} (l : list A) :
  Forall P l -> filter P l = l.
Proof.
  induction 1 as [|x l Hx _ IH]; [done|].
  rewrite filter_cons_True by done. by rewrite IH.
Qed.
End list_facts.

(** ** Order of first occurrence *)
Section first_seen_facts.
Context {K : Type} `{EqDecision K}.
Implicit Types (l : list K) (k : K).

Lemma elem_of_first_seen k l : k ∈ first_seen l <-> k ∈ l.
Proof.
  induction l as [|k0 l IH]; csimpl; [done|].
  rewrite !elem_of_cons, list_elem_of_filter, IH.
  destruct (decide (k = k0)); naive_solver.
Qed.

Lemma NoDup_first_seen l : NoDup (first_seen l).
Proof.
  induction l as [|k0 l IH]; csimpl; [constructor|].
  apply NoDup_cons. split; [|by apply NoDup_filter].
  rewrite list_elem_of_filter. naive_solver.
Qed.

Lemma filter_not_in_cons (seen : list K) k l :
  k ∈ seen ->
  filter (fun x => x ∉ seen) (filter (fun x => x <> k) l) = filter (fun x => x ∉ seen) l.
Proof.
  intros Hin. apply list_filter_filter_l. intros x Hx ->. done.
Qed.

Lemma filter_not_in_snoc (seen : list K) k l :
  filter (fun x => x ∉ seen ++ [k]) l
  = filter (fun x => x ∉ seen) (filter (fun x => x <> k) l).
Proof.
  rewrite list_filter_filter. apply list_filter_iff.
  intros x. rewrite not_elem_of_app, list_elem_of_singleton. done.
Qed.
End first_seen_facts.

(** ** Counters *)
Section counter_facts.
Context {K : Type} `{EqDecision K}.
Implicit Types (c : list (K * nat)) (k : K).

Lemma getitem_incr k k' c :
  Counter.getitem (Counter.incr k c) k'
  = if decide (k = k') then S (Counter.getitem c k') else Counter.getitem c k'.
Proof.
  unfold Counter.incr, Counter.getitem at 1. rewrite get_setitem.
  case_decide; subst; csimpl; [lia | done].
Qed.

Lemma keys_incr k c :
  Dict.keys (Counter.incr k c)
  = if decide (k ∈ Dict.keys c) then Dict.keys c else Dict.keys c ++ [k].
Proof. apply keys_setitem. Qed.

Lemma getitem_elem_of c k n :
  NoDup (Dict.keys c) -> (k, n) ∈ c -> Counter.getitem c k = n.
Proof. intros Hnd Hin. unfold Counter.getitem. by rewrite (elem_of_get k n c). Qed.

Lemma incr_positive k c :
  Forall (fun it => 0 < it.2) c -> Forall (fun it => 0 < it.2) (Counter.incr k c).
Proof.
  unfold Counter.incr. generalize (Counter.getitem c k). intros n.
  induction c as [|[k0 n0] c IH]; csimpl; intros Hall.
  - repeat constructor. csimpl. lia.
  - apply Forall_cons in Hall as [H0 Hall]. case_decide.
    + constructor; [csimpl; lia | done].
    + constructor; [done | auto].
Qed.

Section count_loop.
Variable ev : string -> option K.

Lemma getitem_count_loop (lines : list string) c k :
  Counter.getitem (fold_left (count_step ev) lines c) k
  = Counter.getitem c k + length (filter (fun l => ev l = Some k) lines).
Proof.
  revert c. induction lines as [|line lines IH]; intros c; csimpl; [lia|].
  rewrite IH. unfold count_step. rewrite filter_cons.
  destruct (ev line) as [k0|] eqn:Hev.
  - rewrite getitem_incr. repeat case_decide; simplify_eq; csimpl; lia.
  - rewrite decide_False by done. lia.
Qed.

Lemma keys_count_loop (lines : list string) c :
  Dict.keys (fold_left (count_step ev) lines c)
  = Dict.keys c ++ filter (fun k => k ∉ Dict.keys c) (first_seen (omap ev lines)).
Proof.
  revert c. induction lines as [|line lines IH]; intros c; csimpl.
  - by rewrite app_nil_r.
  - rewrite IH. unfold count_step.
    destruct (ev line) as [k0|] eqn:Hev; csimpl; [|done].
    rewrite keys_incr, filter_cons. case_decide as Hin.
    + rewrite decide_False by (intros ?; done). by rewrite filter_not_in_cons.
    + rewrite decide_True by done.
      rewrite filter_not_in_snoc, <- app_assoc. done.
Qed.

Lemma NoDup_keys_count_loop (lines : list string) :
  NoDup (Dict.keys (fold_left (count_step ev) lines [])).
Proof.
  rewrite keys_count_loop. csimpl.
  apply NoDup_filter, NoDup_first_seen.
Qed.

Lemma keys_count_loop_nil (lines : list string) :
  Dict.keys (fold_left (count_step ev) lines []) = first_seen (omap ev lines).
Proof.
  rewrite keys_count_loop. csimpl.
  apply filter_all, Forall_forall. intros x _. apply not_elem_of_nil.
Qed.

Lemma count_loop_positive (lines : list string) c :
  Forall (fun it => 0 < it.2) c ->
  Forall (fun it => 0 < it.2) (fold_left (count_step ev) lines c).
Proof.
  revert c. induction lines as [|line lines IH]; intros c Hc; csimpl; [done|].
  apply IH. unfold count_step. destruct (ev line); [by apply incr_positive | done].
Qed.
End count_loop.
End counter_facts.

(** ** Dictionaries of sets *)
Section setdict_facts.
Context {K : Type} `{EqDecision K}.
Implicit Types (d : list (K * gset string)) (k : K) (x : string).

Lemma setitem_same {V} (k : K) (v : V) (d : list (K * V)) :
  Dict.get k d = Some v -> Dict.setitem k v d = d.
Proof.
  induction d as [|[k0 v0] d IH]; csimpl; [done|].
  case_decide; intros; simplify_eq; [done | by rewrite IH].
Qed.

Lemma getitem_add k k' x d :
  SetDict.getitem (SetDict.add k x d) k'
  = if decide (k = k') then {[x]} ∪ SetDict.getitem d k' else SetDict.getitem d k'.
Proof.
  unfold SetDict.add, SetDict.getitem at 1. rewrite get_setitem.
  case_decide; subst; done.
Qed.

Lemma keys_add k x d :
  Dict.keys (SetDict.add k x d)
  = if decide (k ∈ Dict.keys d) then Dict.keys d else Dict.keys d ++ [k].
Proof. apply keys_setitem. Qed.

Lemma add_present k x d : x ∈ SetDict.getitem d k -> SetDict.add k x d = d.
Proof.
  unfold SetDict.add, SetDict.getitem. intros Hx.
  destruct (Dict.get k d) as [s|] eqn:Hget; csimpl in *.
  - apply setitem_same. rewrite Hget. f_equal. set_solver.
  - set_solver.
Qed.

Lemma add_idemp k x d : SetDict.add k x (SetDict.add k x d) = SetDict.add k x d.
Proof. apply add_present. rewrite getitem_add, decide_True by done. set_solver. Qed.

Section collect_loop.
Variable ev : string -> option (K * string).

Lemma getitem_collect_loop (lines : list string) d k :
  SetDict.getitem (fold_left (collect_step ev) lines d) k
  = SetDict.getitem d k
    ∪ list_to_set (filter (fun e => e.1 = k) (omap ev lines)).*2.
Proof.
  revert d. induction lines as [|line lines IH]; intros d; csimpl.
  - set_solver.
  - rewrite IH. unfold collect_step.
    destruct (ev line) as [[k0 x]|] eqn:Hev; [|done].
    rewrite getitem_add, filter_cons. csimpl.
    case_decide; subst; csimpl; set_solver.
Qed.

Lemma keys_collect_loop (lines : list string) d :
  Dict.keys (fold_left (collect_step ev) lines d)
  = Dict.keys d
    ++ filter (fun k => k ∉ Dict.keys d) (first_seen (omap ev lines).*1).
Proof.
  revert d. induction lines as [|line lines IH]; intros d; csimpl.
  - by rewrite app_nil_r.
  - rewrite IH. unfold collect_step.
    destruct (ev line) as [[k0 x]|] eqn:Hev; csimpl; [|done].
    rewrite keys_add, filter_cons. case_decide as Hin.
    + rewrite decide_False by (intros ?; done). by rewrite filter_not_in_cons.
    + rewrite decide_True by done.
      rewrite filter_not_in_snoc, <- app_assoc. done.
Qed.

Lemma keys_collect_loop_nil (lines : list string) :
  Dict.keys (fold_left (collect_step ev) lines [])
  = first_seen (omap ev lines).*1.
Proof.
  rewrite keys_collect_loop. csimpl.
  apply filter_all, Forall_forall. intros x _. apply not_elem_of_nil.
Qed.
End collect_loop.
End setdict_facts.

(** ** The task loops are instances of the two generic loops *)

Lemma failed_logins_step_eq c line :
  failed_logins_step c line = count_step failed_login_ip c line.
Proof.
  unfold failed_logins_step, count_step, failed_login_ip.
  by destruct (search FAILED_LOGIN_PATTERN line).
Qed.

Lemma top_commands_step_eq c line :
  top_commands_step c line = count_step shell_command c line.
Proof.
  unfold top_commands_step, count_step, shell_command.
  by destruct (search CMD_PATTERN line).
Qed.

Lemma successful_creds_step_eq d line :
  successful_creds_step d line = collect_step success_login d line.
Proof.
  unfold successful_creds_step, collect_step, success_login.
  by destruct (search SUCCESS_LOGIN_PATTERN line).
Qed.

Lemma identify_bots_step_eq d line :
  identify_bots_step d line = collect_step client_fingerprint d line.
Proof.
  unfold identify_bots_step, collect_step, client_fingerprint.
  by destruct (search FINGERPRINT_PATTERN line).
Qed.

Lemma fold_left_ext {A B} (f g : A -> B -> A) (l : list B) (a : A) :
  (forall x y, f x y = g x y) -> fold_left f l a = fold_left g l a.
Proof.
  intros Hfg. revert a. induction l as [|y l IH]; intros a; csimpl; [done|].
  by rewrite Hfg, IH.
Qed.

Lemma failed_logins_counter_eq lines :
  failed_logins_counter lines = fold_left (count_step failed_login_ip) lines [].
Proof. apply fold_left_ext, failed_logins_step_eq. Qed.

Lemma top_commands_counter_eq lines :
  top_commands_counter lines = fold_left (count_step shell_command) lines [].
Proof. apply fold_left_ext, top_commands_step_eq. Qed.

Lemma successful_creds_map_eq lines :
  successful_creds_map lines = fold_left (collect_step success_login) lines [].
Proof. apply fold_left_ext, successful_creds_step_eq. Qed.

Lemma identify_bots_map_eq lines :
  identify_bots_map lines = fold_left (collect_step client_fingerprint) lines [].
Proof. apply fold_left_ext, identify_bots_step_eq. Qed.

(** ** Sorting *)
Section sorted_facts.
Context {A : Type} (lt : A -> A -> bool).

Local Abbreviation not_after := (not_after lt).

Hypothesis lt_asym : forall a b, lt a b = true -> lt b a = false.

Lemma insert_Permutation x l : Sorting.insert lt x l ≡ₚ x :: l.
Proof.
  induction l as [|y l IH]; csimpl; [done|].
  destruct (lt y x); [|done]. rewrite IH. apply Permutation_swap.
Qed.

Lemma sorted_Permutation l : Sorting.sorted lt l ≡ₚ l.
Proof.
  induction l as [|x l IH]; csimpl; [done|].
  fold (Sorting.sorted lt l). by rewrite insert_Permutation, IH.
Qed.

Lemma insert_HdRel a x l :
  not_after a x -> HdRel not_after a l -> HdRel not_after a (Sorting.insert lt x l).
Proof.
  intros Hax Hal. destruct l as [|y l]; csimpl; [by constructor|].
  destruct (lt y x); constructor; [|done]. by inversion Hal.
Qed.

Lemma insert_Sorted x l :
  Sorted not_after l -> Sorted not_after (Sorting.insert lt x l).
Proof.
  induction 1 as [|y l Hs IH Hhd]; csimpl; [by repeat constructor|].
  destruct (lt y x) eqn:Hyx.
  - constructor; [done|]. apply insert_HdRel; [|done].
    unfold not_after. by apply lt_asym.
  - constructor; [by constructor|]. by constructor.
Qed.

Lemma sorted_Sorted l : Sorted not_after (Sorting.sorted lt l).
Proof.
  induction l as [|x l IH]; csimpl; [constructor|].
  by apply insert_Sorted.
Qed.

(** Stability: elements that are pairwise incomparable keep their order. *)
Section stable.
Context (P : A -> Prop) `{!forall x, Decision (P x)}.
Hypothesis P_tied : forall a b, P a -> P b -> lt a b = false.

Lemma filter_insert x l :
  filter P (Sorting.insert lt x l) = filter P (x :: l).
Proof.
  induction l as [|y l IH]; csimpl; [done|].
  destruct (lt y x) eqn:Hyx; [|done].
  rewrite filter_cons, IH, !filter_cons.
  destruct (decide (P y)) as [Hy|Hy]; [|done].
  destruct (decide (P x)) as [Hx|Hx]; [|done].
  rewrite P_tied in Hyx by done. done.
Qed.

Lemma filter_sorted l : filter P (Sorting.sorted lt l) = filter P l.
Proof.
  induction l as [|x l IH]; csimpl; [done|].
  fold (Sorting.sorted lt l). by rewrite filter_insert, !filter_cons, IH.
Qed.
End stable.
End sorted_facts.

Section sorted_desc_facts.
Context {A : Type} (key : A -> nat).

Lemma sorted_desc_Permutation l : Sorting.sorted_desc key l ≡ₚ l.
Proof. apply sorted_Permutation. Qed.

Lemma sorted_desc_descending l :
  StronglySorted (fun a b => key b <= key a) (Sorting.sorted_desc key l).
Proof.
  apply Sorted_StronglySorted.
  - intros a b c ??. lia.
  - eapply Sorted_mono; [|apply sorted_Sorted].
    + intros a b Hab. unfold not_after in Hab. apply Nat.ltb_ge in Hab. done.
    + intros a b Hab. apply Nat.ltb_lt in Hab. apply Nat.ltb_ge. lia.
Qed.

Lemma sorted_desc_stable m l :
  filter (fun a => key a = m) (Sorting.sorted_desc key l)
  = filter (fun a => key a = m) l.
Proof.
  apply filter_sorted. intros a b -> <-. apply Nat.ltb_irrefl.
Qed.
End sorted_desc_facts.

(** ** The order on [(key, count)] items *)
Section item_order.
Implicit Types (a b : string * nat) (c : list (string * nat)).

Lemma ltb_false_le (s t : string) : String.ltb s t = false <-> String.le t s.
Proof.
  unfold String.le, String.leb, String.ltb.
  rewrite (String.compare_antisym t s).
  destruct (String.compare s t); csimpl; split; done.
Qed.

Lemma ltb_true_lt (s t : string) : String.ltb s t = true -> String.le s t /\ s <> t.
Proof.
  unfold String.le, String.leb, String.ltb.
  destruct (String.compare s t) eqn:Hc; csimpl; try done.
  intros _. split; [done|]. intros ->.
  pose proof (String.compare_antisym t t) as Ha. rewrite Hc in Ha. done.
Qed.

Lemma not_after_item_lt a b :
  not_after Sorting.item_lt a b
  <-> (a.1 = b.1 /\ a.2 <= b.2) \/ (a.1 <> b.1 /\ String.le a.1 b.1).
Proof.
  unfold not_after, Sorting.item_lt.
  destruct (String.eqb_spec b.1 a.1) as [Heq|Hne].
  - rewrite Nat.ltb_ge. split; [intros ?; left; done|].
    intros [[_ ?]|[? _]]; [done | congruence].
  - rewrite ltb_false_le. split; [intros ?; right; split; [congruence | done]|].
    intros [[? _]|[_ ?]]; [congruence | done].
Qed.

Lemma item_lt_asym a b :
  Sorting.item_lt a b = true -> Sorting.item_lt b a = false.
Proof.
  intros Hab. fold (not_after Sorting.item_lt a b). apply not_after_item_lt.
  unfold Sorting.item_lt in Hab.
  destruct (String.eqb_spec a.1 b.1) as [Heq|Hne].
  - apply Nat.ltb_lt in Hab. left. split; [done | lia].
  - apply ltb_true_lt in Hab as [? _]. by right.
Qed.

Global Instance not_after_item_lt_trans : Transitive (not_after Sorting.item_lt).
Proof.
  intros a b x. rewrite !not_after_item_lt.
  intros [[Hab ?]|[Hab ?]] [[Hbc ?]|[Hbc ?]].
  - left. split; [congruence | lia].
  - right. rewrite Hab. done.
  - right. rewrite <- Hbc. done.
  - right. assert (String.le a.1 x.1) as Hac by (by etrans).
    split; [|done]. intros Heq. rewrite <- Heq in *.
    apply Hab. by apply (anti_symm String.le).
Qed.

Global Instance not_after_item_lt_antisym : AntiSymm (=) (not_after Sorting.item_lt).
Proof.
  intros [k1 n1] [k2 n2]. rewrite !not_after_item_lt. csimpl.
  intros [[? ?]|[Hne ?]] [[? ?]|[? ?]]; try congruence.
  - f_equal; [done | lia].
  - exfalso. apply Hne. by apply (anti_symm String.le).
Qed.

Lemma sorted_items_Permutation c : Sorting.sorted_items c ≡ₚ c.
Proof. apply sorted_Permutation. Qed.

Lemma sorted_items_Sorted c : Sorted (not_after Sorting.item_lt) (Sorting.sorted_items c).
Proof. apply sorted_Sorted, item_lt_asym. Qed.

(** The sorted item list only depends on the items, not on their order. *)
Lemma sorted_items_perm c1 c2 :
  c1 ≡ₚ c2 -> Sorting.sorted_items c1 = Sorting.sorted_items c2.
Proof.
  intros Hperm. apply (Sorted_unique (not_after Sorting.item_lt)).
  - apply sorted_items_Sorted.
  - apply sorted_items_Sorted.
  - by rewrite !sorted_items_Permutation.
Qed.

(** With unique keys the sorted items ascend strictly by key. *)
Lemma sorted_items_ascending c :
  NoDup (Dict.keys c) ->
  StronglySorted (fun a b => String.ltb a.1 b.1 = true) (Sorting.sorted_items c).
Proof.
  intros Hnd.
  assert (NoDup (Dict.keys (Sorting.sorted_items c))) as Hnd'.
  { unfold Dict.keys. by rewrite sorted_items_Permutation. }
  pose proof (Sorted_StronglySorted _ _ (sorted_items_Sorted c)) as Hss.
  revert Hss Hnd'. generalize (Sorting.sorted_items c). unfold Dict.keys.
  induction 1 as [|a l Hss IH Hall]; csimpl; intros Hnd'; [constructor|].
  apply NoDup_cons in Hnd' as [Hnin Hnd']. constructor; [auto|].
  rewrite Forall_forall in Hall |- *. intros b Hb.
  pose proof (Hall _ Hb) as Hab. apply not_after_item_lt in Hab.
  assert (a.1 <> b.1) as Hne.
  { intros Heq. apply Hnin. rewrite Heq. apply list_elem_of_fmap. by exists b. }
  destruct Hab as [[? _]|[_ Hle]]; [done|].
  destruct (String.ltb a.1 b.1) eqn:Hlt; [done|].
  apply ltb_false_le in Hlt. exfalso. apply Hne. by apply (anti_symm String.le).
Qed.
End item_order.

(** ** Format fields *)
Section fmt_facts.

Lemma ljust_max w s : Fmt.ljust w s = Fmt.ljust (Nat.max w (String.length s)) s.
Proof. unfold Fmt.ljust. do 2 f_equal. lia. Qed.

Lemma foldl_max a (l : list nat) : foldl Nat.max a l = Nat.max a (foldr Nat.max 0 l).
Proof.
  revert a. induction l as [|x l IH]; intros a; csimpl; [lia|].
  rewrite IH. lia.
Qed.

Lemma counter_width_cases counter head1 :
  counter_width counter head1
  = if decide (counter = []) then String.length head1 else longest (Dict.keys counter).
Proof.
  unfold counter_width, longest, Fmt.max_default, Dict.keys.
  destruct counter as [|[k n] counter]; csimpl; [done|].
  rewrite foldl_max. done.
Qed.

Lemma ljust_counter_width counter head1 :
  Fmt.ljust (counter_width counter head1) head1
  = Fmt.ljust (Nat.max (longest (Dict.keys counter)) (String.length head1)) head1.
Proof.
  rewrite counter_width_cases. case_decide as Hc.
  - subst. done.
  - apply ljust_max.
Qed.
End fmt_facts.

(** ** The claims *)

(** C1.  The threshold filter keeps exactly the entries whose metric (count,
    or number of unique IPs) is at least the minimum, in their order: an entry
    whose metric equals the minimum is kept, one whose metric is one below the
    minimum is dropped. *)
Theorem threshold_filter_inclusive :
  (forall (counter : list (string * nat)) (min_count : Z) item,
      item ∈ counts_at_least min_count counter
      <-> item ∈ counter /\ (min_count <= Z.of_nat item.2)%Z)
  /\ (forall (fp_map : list (string * gset string)) (min_ips : Z) item,
      item ∈ sets_at_least min_ips fp_map
      <-> item ∈ fp_map /\ (min_ips <= Z.of_nat (size item.2))%Z)
  /\ (forall counter min_count, sublist (counts_at_least min_count counter) counter)
  /\ (forall fp_map min_ips, sublist (sets_at_least min_ips fp_map) fp_map)
  /\ (forall counter ip cnt,
      ((ip, cnt) ∈ counts_at_least (Z.of_nat cnt) counter <-> (ip, cnt) ∈ counter)
      /\ (ip, cnt) ∉ counts_at_least (Z.of_nat cnt + 1) counter)
  /\ (forall fp_map fp ips,
      ((fp, ips) ∈ sets_at_least (Z.of_nat (size ips)) fp_map <-> (fp, ips) ∈ fp_map)
      /\ (fp, ips) ∉ sets_at_least (Z.of_nat (size ips) + 1) fp_map)
  /\ (forall lines min_count,
      failed_logins_filtered lines min_count
      = counts_at_least min_count (failed_logins_counter lines))
  /\ (forall lines min_ips,
      identify_bots_bots lines min_ips = sets_at_least min_ips (identify_bots_map lines)).
Proof.
  unfold counts_at_least, sets_at_least. split_and!.
  - intros. rewrite list_elem_of_filter. tauto.
  - intros. rewrite list_elem_of_filter. tauto.
  - intros. apply sublist_filter.
  - intros. apply sublist_filter.
  - intros counter ip cnt. rewrite !list_elem_of_filter. csimpl. split.
    + split; [tauto|]. intros; split; [lia | done].
    + intros [? _]. lia.
  - intros fp_map fp ips. rewrite !list_elem_of_filter. csimpl. split.
    + split; [tauto|]. intros; split; [lia | done].
    + intros [? _]. lia.
  - done.
  - done.
Qed.

Lemma counter_entry_count {K} `{EqDecision K} (ev : string -> option K)
    (lines : list string) (k : K) (n : nat) :
  (k, n) ∈ fold_left (count_step ev) lines []
  <-> 0 < n /\ n = length (filter (fun l => ev l = Some k) lines).
Proof.
  pose proof (getitem_count_loop ev lines [] k) as Hget. csimpl in Hget.
  split.
  - intros Hin. split.
    + pose proof (count_loop_positive ev lines [] (Forall_nil_2 _)) as Hpos.
      rewrite Forall_forall in Hpos. apply (Hpos _ Hin).
    + rewrite <- Hget. symmetry. apply getitem_elem_of; [|done].
      apply NoDup_keys_count_loop.
  - intros [Hpos ->]. apply get_Some_elem_of.
    unfold Counter.getitem in Hget.
    destruct (Dict.get k _) as [n|]; csimpl in *; [by rewrite Hget | lia].
Qed.

(** C2.  After the failed-logins loop the counter value of an IP is the number
    of input lines that match the failed-login grammar with that captured IP
    (and the IP has an entry exactly when that number is positive); a matching
    line adds exactly 1 to the counter of its IP and to no other, a
    non-matching line leaves the counter as it is. *)
Theorem failed_login_counts :
  (forall lines ip,
      Counter.getitem (failed_logins_counter lines) ip
      = length (filter (fun l => failed_login_ip l = Some ip) lines))
  /\ (forall lines ip n,
      (ip, n) ∈ failed_logins_counter lines
      <-> 0 < n /\ n = length (filter (fun l => failed_login_ip l = Some ip) lines))
  /\ (forall counter line,
      failed_logins_step counter line
      = match failed_login_ip line with
        | Some ip => Counter.incr ip counter
        | None => counter
        end)
  /\ (forall (counter : list (string * nat)) ip ip',
      Counter.getitem (Counter.incr ip counter) ip'
      = if decide (ip = ip') then S (Counter.getitem counter ip')
        else Counter.getitem counter ip').
Proof.
  split_and!.
  - intros. rewrite failed_logins_counter_eq, getitem_count_loop. done.
  - intros. rewrite failed_logins_counter_eq. apply counter_entry_count.
  - intros. apply failed_logins_step_eq.
  - intros. apply getitem_incr.
Qed.

(** The example of the specification: three failed logins from 1.2.3.4 and
    one from 5.6.7.8 with [--min-count 2]. *)
Example failed_logins_example :
  analyze_failed_logins
    [failed_line "1.2.3.4"; failed_line "5.6.7.8"; failed_line "1.2.3.4";
     failed_line "1.2.3.4"] 2
  = ["Failed login attempts (min 2)";
     "IP         Count";
     "----------------";
     "1.2.3.4        3"].
Proof. vm_compute. reflexivity. Qed.

(** C3, as the specification words it, fails on the identify-bots report: its
    header row has a key column of the fixed width 47 and a metric column of
    width 6, whatever the keys are. *)
Lemma header_row_identify_bots_not_as_specified :
  header_row (identify_bots [] 3)
  = "Fingerprint                                        IPs"
  /\ ~ header_as_specified (header_row (identify_bots [] 3)) [] "Fingerprint" "IPs".
Proof.
  split; [vm_compute; reflexivity|].
  intros (w & Hw & Heq).
  assert (w = 8 \/ w = 9 \/ w = 10) as [->|[->| ->]] by lia;
    vm_compute in Heq; discriminate Heq.
Qed.

(** C3, amended.  In the three reports printed by [_print_counter] the header
    row is the key header left-aligned in a field as wide as the longest key,
    or as the header text when that is longer, a space, and the metric header
    right-aligned in a field of width 8.  The successful-creds header has two
    left-aligned key fields of the fixed width 15 and a right-aligned metric
    field of width 9; the identify-bots header has a left-aligned key field of
    the fixed width 47 and a right-aligned metric field of width 6. *)
Theorem header_row_layout :
  (forall counter head1 head2 sort_keys,
      _print_counter counter head1 head2 sort_keys !! 0
      = Some (Fmt.ljust (Nat.max (longest (Dict.keys counter)) (String.length head1)) head1
              +:+ " " +:+ Fmt.rjust 8 head2))
  /\ (forall lines min_count,
      header_row (analyze_failed_logins lines min_count)
      = Fmt.ljust (Nat.max (longest (Dict.keys (failed_logins_filtered lines min_count))) 2) "IP"
        +:+ " " +:+ Fmt.rjust 8 "Count")
  /\ (forall lines,
      header_row (top_commands lines)
      = Fmt.ljust (Nat.max (longest (Dict.keys (top_commands_counter lines))) 7) "Command"
        +:+ " " +:+ Fmt.rjust 8 "Count")
  /\ (forall pad_year lines,
      connections pad_year lines
      = match connections_counter pad_year lines with
        | Ok per_min =>
            Ok ("Connections per minute"
                :: (Fmt.ljust (Nat.max (longest (Dict.keys per_min)) 9) "Timestamp"
                    +:+ " " +:+ Fmt.rjust 8 "Count")
                :: drop 1 (_print_counter per_min "Timestamp" "Count" true))
        | Raise e => Raise e
        end)
  /\ (forall lines,
      header_row (analyze_successful_creds lines)
      = Fmt.ljust 15 "Username" +:+ " " +:+ Fmt.ljust 15 "Password"
        +:+ " " +:+ Fmt.rjust 9 "IP_Count")
  /\ (forall lines min_ips,
      header_row (identify_bots lines min_ips)
      = Fmt.ljust 47 "Fingerprint" +:+ " " +:+ Fmt.rjust 6 "IPs").
Proof.
  assert (forall counter head1 head2 sort_keys,
      _print_counter counter head1 head2 sort_keys !! 0
      = Some (Fmt.ljust (Nat.max (longest (Dict.keys counter)) (String.length head1)) head1
              +:+ " " +:+ Fmt.rjust 8 head2)) as Hpc.
  { intros. unfold _print_counter. csimpl. by rewrite ljust_counter_width. }
  split_and!.
  - done.
  - intros. unfold header_row, analyze_failed_logins, _print_counter. csimpl.
    by rewrite ljust_counter_width.
  - intros. unfold header_row, top_commands, _print_counter. csimpl.
    by rewrite ljust_counter_width.
  - intros. unfold connections. destruct (connections_counter pad_year lines); [|done].
    unfold _print_counter. csimpl. by rewrite ljust_counter_width.
  - done.
  - done.
Qed.

(** C4.  In the failed-logins, top-commands, identify-bots and successful-creds
    reports the data rows are those of the aggregate's entries, printed in
    descending order of their metric.  In particular the credential pair of the
    specification's example, seen from 3 distinct IPs, is listed before the
    pair seen from 1 IP, although the latter occurs first in the input. *)
Theorem reports_descend_by_metric :
  (forall lines min_count,
      drop 3 (analyze_failed_logins lines min_count)
      = counter_row (counter_width (failed_logins_filtered lines min_count) "IP")
          <$> failed_logins_rows lines min_count
      /\ failed_logins_rows lines min_count ≡ₚ failed_logins_filtered lines min_count
      /\ StronglySorted (fun a b => b.2 <= a.2) (failed_logins_rows lines min_count))
  /\ (forall lines,
      drop 3 (top_commands lines)
      = counter_row (counter_width (top_commands_counter lines) "Command")
          <$> top_commands_rows lines
      /\ top_commands_rows lines ≡ₚ top_commands_counter lines
      /\ StronglySorted (fun a b => b.2 <= a.2) (top_commands_rows lines))
  /\ (forall lines min_ips,
      drop 3 (identify_bots lines min_ips) = bots_row <$> identify_bots_items lines min_ips
      /\ identify_bots_items lines min_ips ≡ₚ identify_bots_bots lines min_ips
      /\ StronglySorted (fun a b => size b.2 <= size a.2)
           (identify_bots_items lines min_ips))
  /\ (forall lines,
      drop 3 (analyze_successful_creds lines) = creds_row <$> successful_creds_items lines
      /\ successful_creds_items lines ≡ₚ successful_creds_map lines
      /\ StronglySorted (fun a b => size b.2 <= size a.2) (successful_creds_items lines))
  /\ analyze_successful_creds
       [success_line "9.9.9.9" "root" "1234"; success_line "1.1.1.1" "root" "admin";
        success_line "2.2.2.2" "root" "admin"; success_line "1.1.1.1" "root" "admin";
        success_line "3.3.3.3" "root" "admin"]
     = ["Successful login credentials";
        "Username        Password         IP_Count";
        "-----------------------------------------";
        "root            admin                   3";
        "root            1234                    1"].
Proof.
  split_and!.
  - intros. split_and!; [done | apply sorted_desc_Permutation |].
    apply (sorted_desc_descending snd).
  - intros. split_and!; [done | apply sorted_desc_Permutation |].
    apply (sorted_desc_descending snd).
  - intros. split_and!; [done | apply sorted_desc_Permutation |].
    apply (sorted_desc_descending (fun item => size item.2)).
  - intros. split_and!; [done | apply sorted_desc_Permutation |].
    apply (sorted_desc_descending (fun item => size item.2)).
  - vm_compute. reflexivity.
Qed.

(** ** The connections loop *)
Section connections_facts.

Lemma connections_step_eq pad_year c line :
  connections_step pad_year (Ok c) line
  = if bucket_raises line then Raise ValueError
    else Ok (count_step (bucket_of pad_year) c line).
Proof.
  unfold connections_step, bucket_raises, bucket_of, count_step.
  destruct (search NEW_CONN_PATTERN line) as [m|]; [|done].
  by destruct (strptime _).
Qed.

Lemma connections_loop_raise pad_year lines e :
  fold_left (connections_step pad_year) lines (Raise e) = Raise e.
Proof. induction lines as [|line lines IH]; csimpl; done. Qed.

Lemma connections_loop pad_year lines c :
  fold_left (connections_step pad_year) lines (Ok c)
  = if decide (Forall (fun l => bucket_raises l = false) lines)
    then Ok (fold_left (count_step (bucket_of pad_year)) lines c)
    else Raise ValueError.
Proof.
  revert c. induction lines as [|line lines IH]; intros c; cbn [fold_left].
  - by rewrite decide_True.
  - rewrite connections_step_eq. destruct (bucket_raises line) eqn:Hr.
    + rewrite connections_loop_raise, decide_False; [done|].
      intros [? _]%Forall_cons. congruence.
    + rewrite IH. destruct (decide (Forall _ lines)) as [Hall|Hnall].
      * by rewrite decide_True by (by constructor).
      * rewrite decide_False; [done|]. by intros [_ ?]%Forall_cons.
Qed.

Lemma connections_counter_spec pad_year lines :
  connections_counter pad_year lines
  = if decide (Forall (fun l => bucket_raises l = false) lines)
    then Ok (fold_left (count_step (bucket_of pad_year)) lines [])
    else Raise ValueError.
Proof. apply connections_loop. Qed.
End connections_facts.

(** ** Counting does not depend on the order of the lines *)
Section count_loop_perm.
Context {K : Type} `{EqDecision K} (ev : string -> option K).

Lemma count_loop_Permutation (lines lines' : list string) :
  lines ≡ₚ lines' ->
  fold_left (count_step ev) lines [] ≡ₚ fold_left (count_step ev) lines' [].
Proof.
  intros Hperm. apply NoDup_Permutation.
  - eapply NoDup_fmap_1, NoDup_keys_count_loop.
  - eapply NoDup_fmap_1, NoDup_keys_count_loop.
  - intros [k n]. rewrite !counter_entry_count. by rewrite Hperm.
Qed.
End count_loop_perm.

Lemma longest_Permutation ks ks' : ks ≡ₚ ks' -> longest ks = longest ks'.
Proof.
  unfold longest. intros Hperm.
  induction Hperm as [|x l l' _ IH|x y l|l l' l'' _ IH1 _ IH2]; csimpl; lia.
Qed.

Lemma counter_width_Permutation c c' head1 :
  c ≡ₚ c' -> counter_width c head1 = counter_width c' head1.
Proof.
  intros Hperm. rewrite !counter_width_cases.
  destruct (decide (c = [])) as [->|Hc].
  - apply Permutation_nil_l in Hperm. by subst.
  - rewrite decide_False.
    + apply longest_Permutation. unfold Dict.keys. by rewrite Hperm.
    + intros ->. by apply Permutation_nil_r in Hperm.
Qed.

Lemma print_counter_sorted_Permutation c c' head1 head2 :
  c ≡ₚ c' -> _print_counter c head1 head2 true = _print_counter c' head1 head2 true.
Proof.
  intros Hperm. unfold _print_counter, counter_items.
  by rewrite (counter_width_Permutation c c'), (sorted_items_perm c c').
Qed.

(** C5.  The connections-per-minute report lists its rows in strictly
    ascending order of the bucket key, and the outcome of the task (the whole
    report, or the exception) is the same for every permutation of the input
    lines. *)
Theorem connections_sorted_and_order_independent :
  (forall pad_year lines lines',
      lines ≡ₚ lines' -> connections pad_year lines = connections pad_year lines')
  /\ (forall pad_year lines per_min,
      connections_counter pad_year lines = Ok per_min ->
      connections pad_year lines
      = Ok ("Connections per minute" :: _print_counter per_min "Timestamp" "Count" true)
      /\ drop 2 (_print_counter per_min "Timestamp" "Count" true)
         = counter_row (counter_width per_min "Timestamp") <$> counter_items per_min true
      /\ counter_items per_min true ≡ₚ per_min
      /\ StronglySorted (fun a b => String.ltb a.1 b.1 = true) (counter_items per_min true)).
Proof.
  split.
  - intros pad_year lines lines' Hperm. unfold connections.
    rewrite !connections_counter_spec.
    destruct (decide (Forall _ lines)) as [Hall|Hnall].
    + rewrite decide_True by (by rewrite <- Hperm).
      f_equal. f_equal. apply print_counter_sorted_Permutation.
      by apply count_loop_Permutation.
    + rewrite decide_False; [done|]. by rewrite <- Hperm.
  - intros pad_year lines per_min Hc. unfold connections. rewrite Hc.
    split_and!; [done | done | apply sorted_items_Permutation |].
    apply sorted_items_ascending.
    rewrite connections_counter_spec in Hc. case_decide; [|done].
    simplify_eq. apply NoDup_keys_count_loop.
Qed.

Lemma connections_sorted_and_order_independent_witness :
  let a := conn_line "2023-01-01T10:16:02" in
  let b := conn_line "2023-01-01T10:15:02.5" in
  let c := conn_line "2023-01-01T10:15:47" in
  [a; b; c] ≡ₚ [b; a; c]
  /\ connections false [a; b; c] = connections false [b; a; c]
  /\ connections_counter false [a; b; c]
     = Ok [("2023-01-01 10:16", 1); ("2023-01-01 10:15", 2)]
  /\ counter_items [("2023-01-01 10:16", 1); ("2023-01-01 10:15", 2)] true
     = [("2023-01-01 10:15", 2); ("2023-01-01 10:16", 1)]
  /\ StronglySorted (fun x y => String.ltb x.1 y.1 = true)
       (counter_items [("2023-01-01 10:16", 1); ("2023-01-01 10:15", 2)] true).
Proof.
  intros a b c.
  assert ([a; b; c] ≡ₚ [b; a; c]) as Hperm by apply perm_swap.
  assert (connections_counter false [a; b; c]
          = Ok [("2023-01-01 10:16", 1); ("2023-01-01 10:15", 2)]) as Hc
    by (vm_compute; reflexivity).
  destruct connections_sorted_and_order_independent as [Hfst Hsnd].
  split_and!.
  - exact Hperm.
  - exact (Hfst _ _ _ Hperm).
  - exact Hc.
  - vm_compute. reflexivity.
  - exact (proj2 (proj2 (proj2 (Hsnd _ _ _ Hc)))).
Defined.

(** ** Timestamps *)
Section datetime_facts.

Lemma is_digit_spec c :
  is_digit c = true -> c = digit_char (digit_val c) /\ digit_val c < 10.
Proof.
  destruct c as [[] [] [] [] [] [] [] []]; vm_compute; intros Hd;
    first [discriminate Hd | split; [reflexivity | lia]].
Qed.




End datetime_facts.

Section strptime_facts.



Lemma substring_substring a b m s :
  a + b <= m -> substring a b (substring 0 m s) = substring a b s.
Proof.
  revert a b m. induction s as [|c s IH]; intros a b m Hle.
  - destruct m, a, b; reflexivity.
  - destruct m as [|m].
    + assert (a = 0 /\ b = 0) as [-> ->] by lia. reflexivity.
    + destruct a as [|a]; cbn [substring].
      * destruct b as [|b]; [reflexivity|]. cbn [substring].
        f_equal. apply IH. lia.
      * apply IH. lia.
Qed.

Lemma minute_text_prefix ts : minute_text (substring 0 19 ts) = minute_text ts.
Proof.
  unfold minute_text. by rewrite !substring_substring by lia.
Qed.


Lemma bucket_raises_valid line :
  bucket_raises line = false
  <-> forall ts, new_conn_ts line = Some ts -> valid_timestamp ts.
Proof.
  unfold bucket_raises, new_conn_ts, valid_timestamp.
  destruct (search NEW_CONN_PATTERN line) as [m|]; csimpl.
  - destruct (strptime _) as [dt|] eqn:Hp; split; try done.
    + intros _ ts [= <-]. by rewrite Hp.
    + intros Hv. destruct (Hv _ eq_refl) as [dt Hdt]. congruence.
  - split; [|done]. intros _ ts [=].
Qed.
End strptime_facts.


(** ** The connections loop on arbitrary text *)
Section unicode_text_facts.

Lemma of_string_String c s :
  Unicode.of_string (String c s) = N_of_ascii c :: Unicode.of_string s.
Proof. reflexivity. Qed.


Lemma of_string_substring n m (s : string) :
  Unicode.of_string (substring n m s) = take m (drop n (Unicode.of_string s)).
Proof.
  revert n m. induction s as [|c s IH]; intros n m.
  - destruct n, m; reflexivity.
  - destruct n as [|n].
    + destruct m as [|m]; [reflexivity|].
      cbn [substring]. rewrite !of_string_String, (IH 0 m). done.
    + cbn [substring]. rewrite of_string_String, (IH n m). done.
Qed.

Lemma of_string_inj (a b : string) : Unicode.of_string a = Unicode.of_string b -> a = b.
Proof.
  revert b. induction a as [|c a IH]; intros [|c' b]; try done.
  rewrite !of_string_String. intros [= Hc Hab].
  f_equal; [|by apply IH].
  rewrite <- (ascii_N_embedding c), <- (ascii_N_embedding c'). by rewrite Hc.
Qed.

Lemma ascii_digit_char c :
  Unicode.is_ascii_digit c = true ->
  exists a : ascii, c = N_of_ascii a /\ is_digit a = true.
Proof.
  unfold Unicode.is_ascii_digit. intros [Hlo Hhi]%andb_prop.
  apply N.leb_le in Hlo, Hhi. exists (ascii_of_N c).
  assert (N_of_ascii (ascii_of_N c) = c) as Hc by (apply N_ascii_embedding; lia).
  split; [done|]. unfold is_digit, nat_of_ascii. rewrite Hc.
  apply andb_true_intro. split; apply Nat.leb_le; lia.
Qed.

Lemma sep_is_char x c : Unicode.sep_is x c = true -> c = N_of_ascii x.
Proof. unfold Unicode.sep_is. by intros ?%N.eqb_eq. Qed.

(** A timestamp in ASCII digits is the text of a string of the shape
    [dddd-dd-ddTdd:dd:dd]. *)
Lemma ascii_timestamp_string ts :
  Unicode.ascii_timestamp ts = true ->
  exists s : string, take 19 ts = Unicode.of_string s /\ ts_shape s = true.
Proof.
  unfold Unicode.ascii_timestamp.
  destruct (take 19 ts)
    as [|y1 [|y2 [|y3 [|y4 [|p1 [|m1 [|m2 [|p2 [|d1 [|d2 [|p3 [|h1 [|h2 [|p4
        [|n1 [|n2 [|p5 [|s1 [|s2 [|x l]]]]]]]]]]]]]]]]]]]]; try discriminate.
  cbn [forallb]. intros Hshape.
  repeat match goal with
         | H : (_ && _)%bool = true |- _ => apply andb_prop in H as [H ?]
         end.
  repeat match goal with
         | H : Unicode.is_ascii_digit _ = true |- _ =>
             apply ascii_digit_char in H as (? & -> & ?)
         | H : Unicode.sep_is _ _ = true |- _ => apply sep_is_char in H as ->
         end.
  eexists (String _ (String _ (String _ (String _ (String "-" (String _ (String _
           (String "-" (String _ (String _ (String "T" (String _ (String _
           (String ":" (String _ (String _ (String ":" (String _ (String _
           ""))))))))))))))))))).
  split; [reflexivity|].
  unfold ts_shape. cbn [list_ascii_of_string forallb].
  repeat match goal with
         | H : is_digit _ = true |- _ => rewrite H; clear H
         end.
  reflexivity.
Qed.
End unicode_text_facts.

Section unicode_strptime_facts.

Lemma opt_nat_eqb_eq x y : Unicode.opt_nat_eqb x y = true -> x = y.
Proof.
  destruct x, y; csimpl; try done. by intros ->%Nat.eqb_eq.
Qed.

Lemma digits_forall (P : ascii -> ascii -> bool) :
  forallb (fun va => forallb (fun vb => P (digit_char va) (digit_char vb)) (seq 0 10))
    (seq 0 10) = true ->
  forall a b, is_digit a = true -> is_digit b = true -> P a b = true.
Proof.
  intros Hall a b [Ea La]%is_digit_spec [Eb Lb]%is_digit_spec.
  rewrite List.forallb_forall in Hall.
  assert (List.In (digit_val a) (seq 0 10)) as Ia by (apply List.in_seq; lia).
  assert (List.In (digit_val b) (seq 0 10)) as Ib by (apply List.in_seq; lia).
  specialize (Hall _ Ia). rewrite List.forallb_forall in Hall.
  specialize (Hall _ Ib). by rewrite <- Ea, <- Eb in Hall.
Qed.

Lemma directive_ascii a b :
  is_digit a = true -> is_digit b = true ->
  Unicode.decimal (N_of_ascii a) = Some (digit_val a)
  /\ Unicode.directive_m (N_of_ascii a) (N_of_ascii b) = Unicode.in_range 1 12 (num2 a b)
  /\ Unicode.directive_d (N_of_ascii a) (N_of_ascii b) = Unicode.in_range 1 31 (num2 a b)
  /\ Unicode.directive_H (N_of_ascii a) (N_of_ascii b) = Unicode.in_range 0 23 (num2 a b)
  /\ Unicode.directive_M (N_of_ascii a) (N_of_ascii b) = Unicode.in_range 0 59 (num2 a b)
  /\ Unicode.directive_S (N_of_ascii a) (N_of_ascii b) = Unicode.in_range 0 61 (num2 a b).
Proof.
  intros Ha Hb.
  pose proof (digits_forall
    (fun a b =>
       Unicode.opt_nat_eqb (Unicode.decimal (N_of_ascii a)) (Some (digit_val a))
       && Unicode.opt_nat_eqb (Unicode.directive_m (N_of_ascii a) (N_of_ascii b))
            (Unicode.in_range 1 12 (num2 a b))
       && Unicode.opt_nat_eqb (Unicode.directive_d (N_of_ascii a) (N_of_ascii b))
            (Unicode.in_range 1 31 (num2 a b))
       && Unicode.opt_nat_eqb (Unicode.directive_H (N_of_ascii a) (N_of_ascii b))
            (Unicode.in_range 0 23 (num2 a b))
       && Unicode.opt_nat_eqb (Unicode.directive_M (N_of_ascii a) (N_of_ascii b))
            (Unicode.in_range 0 59 (num2 a b))
       && Unicode.opt_nat_eqb (Unicode.directive_S (N_of_ascii a) (N_of_ascii b))
            (Unicode.in_range 0 61 (num2 a b)))
    ltac:(vm_compute; reflexivity) a b Ha Hb) as Hall.
  cbv beta in Hall.
  repeat match goal with
         | H : (_ && _)%bool = true |- _ => apply andb_prop in H as [H ?]
         end.
  split_and!; by apply opt_nat_eqb_eq.
Qed.

Lemma days_in_month_max y m : days_in_month y m <= 31.
Proof.
  unfold days_in_month.
  destruct m as [|[|[|[|[|[|[|[|[|[|[|[|m]]]]]]]]]]]]; try lia.
  destruct (is_leap y); lia.
Qed.

(** The fields of a valid date are in the ranges of their directives. *)
Lemma valid_in_range dt :
  valid dt = true ->
  Unicode.in_range 1 12 (month dt) = Some (month dt)
  /\ Unicode.in_range 1 31 (day dt) = Some (day dt)
  /\ Unicode.in_range 0 23 (hour dt) = Some (hour dt)
  /\ Unicode.in_range 0 59 (minute dt) = Some (minute dt)
  /\ Unicode.in_range 0 61 (second dt) = Some (second dt).
Proof.
  unfold valid. intros Hv.
  repeat match goal with
         | H : (_ && _)%bool = true |- _ => apply andb_prop in H as [H ?]
         end.
  repeat match goal with
         | H : (_ <=? _)%nat = true |- _ => apply Nat.leb_le in H
         | H : (_ <? _)%nat = true |- _ => apply Nat.ltb_lt in H
         end.
  pose proof (days_in_month_max (year dt) (month dt)).
  unfold Unicode.in_range.
  split_and!;
    (rewrite (proj2 (andb_true_iff _ _)); [done|]; split; apply Nat.leb_le; lia).
Qed.

Lemma in_range_Some lo hi n m : Unicode.in_range lo hi n = Some m -> m = n.
Proof. unfold Unicode.in_range. case_match; by intros [=]. Qed.

(** On a timestamp written with ASCII digits the patterns of the directives
    accept exactly the numbers that the [datetime] constructor accepts, up to
    the seconds 60 and 61, which the constructor rejects. *)
Lemma strptime_ascii (s : string) :
  ts_shape s = true -> Unicode.strptime (Unicode.of_string s) = strptime s.
Proof.
  unfold ts_shape, strptime.
  replace (Unicode.of_string s) with (N_of_ascii <$> list_ascii_of_string s) by done.
  destruct (list_ascii_of_string s)
    as [|y1 [|y2 [|y3 [|y4 [|p1 [|m1 [|m2 [|p2 [|d1 [|d2 [|p3 [|h1 [|h2 [|p4
        [|n1 [|n2 [|p5 [|s1 [|s2 [|x l]]]]]]]]]]]]]]]]]]]]; try discriminate.
  cbn [forallb]. intros Hshape.
  repeat match goal with
         | H : (_ && _)%bool = true |- _ => apply andb_prop in H as [H ?]
         end.
  unfold sep_is in *.
  repeat match goal with
         | H : Ascii.eqb _ _ = true |- _ => apply Ascii.eqb_eq in H; subst
         end.
  destruct (directive_ascii y1 y2) as (Hy1 & _); [done..|].
  destruct (directive_ascii y2 y3) as (Hy2 & _); [done..|].
  destruct (directive_ascii y3 y4) as (Hy3 & _); [done..|].
  destruct (directive_ascii y4 y4) as (Hy4 & _); [done..|].
  destruct (directive_ascii m1 m2) as (_ & Hm & _); [done..|].
  destruct (directive_ascii d1 d2) as (_ & _ & Hd & _); [done..|].
  destruct (directive_ascii h1 h2) as (_ & _ & _ & Hh & _); [done..|].
  destruct (directive_ascii n1 n2) as (_ & _ & _ & _ & Hn & _); [done..|].
  destruct (directive_ascii s1 s2) as (_ & _ & _ & _ & _ & Hs); [done..|].
  cbn [fmap list_fmap Unicode.strptime].
  change (Unicode.sep_is "-" (N_of_ascii "-")) with true.
  change (Unicode.sep_is "T" (N_of_ascii "T")) with true.
  change (Unicode.sep_is ":" (N_of_ascii ":")) with true.
  cbn [andb orb forallb].
  repeat match goal with
         | H : is_digit _ = true |- _ => rewrite H; clear H
         end.
  cbn [andb Ascii.eqb Bool.eqb].
  unfold Unicode.directive_Y. rewrite Hy1, Hy2, Hy3, Hy4, Hm, Hd, Hh, Hn, Hs.
  fold (num2 y1 y2) (num2 y3 y4).
  destruct (valid _) eqn:Hv.
  - pose proof (valid_in_range _ Hv) as (E1 & E2 & E3 & E4 & E5).
    cbn [year month day hour minute second] in E1, E2, E3, E4, E5.
    rewrite E1, E2, E3, E4, E5. cbv zeta. by rewrite Hv.
  - repeat case_match; try done.
    repeat match goal with
           | H : Unicode.in_range _ _ _ = Some _ |- _ => apply in_range_Some in H; subst
           end.
    congruence.
Qed.
End unicode_strptime_facts.

Section unicode_connections_facts.



Lemma unicode_connections_step_eq pad_year c line :
  Unicode.connections_step pad_year (Ok c) line
  = if Unicode.bucket_raises line then Raise ValueError
    else Ok (Unicode.count_step (Unicode.bucket_of pad_year) c line).
Proof.
  unfold Unicode.connections_step, Unicode.bucket_raises, Unicode.bucket_of,
    Unicode.count_step.
  destruct (Unicode.search Unicode.NEW_CONN_PATTERN line) as [m|]; [|done].
  by destruct (Unicode.strptime _).
Qed.

Lemma unicode_connections_loop_raise pad_year lines e :
  fold_left (Unicode.connections_step pad_year) lines (Raise e) = Raise e.
Proof. induction lines as [|line lines IH]; csimpl; done. Qed.

Lemma unicode_connections_loop pad_year lines c :
  fold_left (Unicode.connections_step pad_year) lines (Ok c)
  = if decide (Forall (fun l => Unicode.bucket_raises l = false) lines)
    then Ok (fold_left (Unicode.count_step (Unicode.bucket_of pad_year)) lines c)
    else Raise ValueError.
Proof.
  revert c. induction lines as [|line lines IH]; intros c; cbn [fold_left].
  - by rewrite decide_True.
  - rewrite unicode_connections_step_eq.
    destruct (Unicode.bucket_raises line) eqn:Hr.
    + rewrite unicode_connections_loop_raise, decide_False; [done|].
      intros [? _]%Forall_cons. congruence.
    + rewrite IH. destruct (decide (Forall _ lines)) as [Hall|Hnall].
      * by rewrite decide_True by (by constructor).
      * rewrite decide_False; [done|]. by intros [_ ?]%Forall_cons.
Qed.

Lemma unicode_bucket_raises_rejected line :
  Unicode.bucket_raises line = true <-> Unicode.rejected line.
Proof.
  unfold Unicode.bucket_raises, Unicode.rejected, Unicode.new_conn_ts,
    Unicode.valid_timestamp.
  destruct (Unicode.search Unicode.NEW_CONN_PATTERN line) as [m|]; csimpl.
  - destruct (Unicode.strptime _) as [dt|] eqn:Hp; split; try done.
    + intros (ts & [= <-] & Hv). destruct Hv. by rewrite Hp.
    + intros _. eexists. split; [done|]. rewrite Hp. by intros [? ?].
  - split; [done | by intros (? & ? & _)].
Qed.

Lemma unicode_no_raise lines :
  Forall (fun l => Unicode.bucket_raises l = false) lines
  <-> Forall (fun l => ~ Unicode.rejected l) lines.
Proof.
  apply Forall_iff. intros l. rewrite <- unicode_bucket_raises_rejected.
  by destruct (Unicode.bucket_raises l).
Qed.

Section unicode_count_loop.
Context {K : Type} `{EqDecision K} (ev : Unicode.text -> option K).


End unicode_count_loop.


End unicode_connections_facts.



(** The line of the counterexample, read as text of code points, ends the loop
    of the Unicode model as well. *)
Example invalid_date_raises_unicode :
  Unicode.connections_counter false
    [Unicode.of_string (conn_line "2023-02-30T10:15:02")]
  = Raise ValueError.
Proof. vm_compute. reflexivity. Qed.

(** A year in Arabic-Indic digits (U+0662 U+0660 U+0662 U+0663) is captured by
    [\d] and accepted by [strptime]: the line is counted under the ASCII
    rendering of the date, which is not the captured text cut to the
    minute. *)
Example arabic_indic_year :
  Unicode.new_conn_ts
    (Unicode.conn_line ([1634; 1632; 1634; 1635]%N
                        ++ Unicode.of_string "-01-01T10:15:02"))
  = Some ([1634; 1632; 1634; 1635]%N ++ Unicode.of_string "-01-01T10:15:02")
  /\ Unicode.connections_counter false
       [Unicode.conn_line ([1634; 1632; 1634; 1635]%N
                           ++ Unicode.of_string "-01-01T10:15:02")]
     = Ok [(Unicode.of_string "2023-01-01 10:15", 1)]
  /\ Unicode.minute_text ([1634; 1632; 1634; 1635]%N
                          ++ Unicode.of_string "-01-01T10:15:02")
     <> Unicode.of_string "2023-01-01 10:15".
Proof. vm_compute. split_and!; [reflexivity | reflexivity | discriminate]. Qed.

(** Seconds in Arabic-Indic digits (U+0660 U+0662) are captured by [\d] and
    rejected by [strptime], whose pattern for [%S] starts with [[0-5]]: the
    loop raises although the digits spell a time of the day. *)
Example arabic_indic_seconds :
  Unicode.new_conn_ts
    (Unicode.conn_line (Unicode.of_string "2023-01-01T10:15:" ++ [1632; 1634]%N))
  = Some (Unicode.of_string "2023-01-01T10:15:" ++ [1632; 1634]%N)
  /\ Unicode.timestamp_fields (Unicode.of_string "2023-01-01T10:15:" ++ [1632; 1634]%N)
     = Some (mk_datetime 2023 1 1 10 15 2)
  /\ Unicode.connections_counter false
       [Unicode.conn_line (Unicode.of_string "2023-01-01T10:15:" ++ [1632; 1634]%N)]
     = Raise ValueError.
Proof. vm_compute. split_and!; reflexivity. Qed.

(** On a C library that does not zero-fill [%Y], a year below 1000 gives a
    bucket key that is not the captured text cut to the minute. *)
Example plain_year_bucket :
  connections false [conn_line "0999-01-01T10:15:02"]
  = Ok ["Connections per minute";
        "Timestamp          Count";
        "------------------------";
        "999-01-01 10:15        1"]
  /\ minute_text "0999-01-01T10:15:02" = "0999-01-01 10:15".
Proof. vm_compute. split; reflexivity. Qed.

(** The example of the specification: two connections in the same minute. *)
Example connections_example :
  connections false [conn_line "2023-01-01T10:15:02"; conn_line "2023-01-01T10:15:47"]
  = Ok ["Connections per minute";
        "Timestamp           Count";
        "-------------------------";
        "2023-01-01 10:15        2"].
Proof. vm_compute. reflexivity. Qed.

(** C7.  In the identify-bots and successful-creds aggregations a line whose
    (primary key, IP) pair is already present leaves the aggregate unchanged;
    adding a pair twice is the same as adding it once; and the set kept for a
    key, whose cardinality is reported, is the set of the IPs seen with that
    key, however often each pair occurs. *)
Theorem duplicate_pairs_count_once :
  (forall fp_map line fp ip,
      client_fingerprint line = Some (fp, ip) ->
      ip ∈ SetDict.getitem fp_map fp ->
      identify_bots_step fp_map line = fp_map)
  /\ (forall creds line user pw ip,
      success_login line = Some ((user, pw), ip) ->
      ip ∈ SetDict.getitem creds (user, pw) ->
      successful_creds_step creds line = creds)
  /\ (forall fp_map line,
      identify_bots_step (identify_bots_step fp_map line) line
      = identify_bots_step fp_map line)
  /\ (forall creds line,
      successful_creds_step (successful_creds_step creds line) line
      = successful_creds_step creds line)
  /\ (forall lines fp,
      SetDict.getitem (identify_bots_map lines) fp
      = list_to_set (filter (fun e => e.1 = fp) (omap client_fingerprint lines)).*2)
  /\ (forall lines user pw,
      SetDict.getitem (successful_creds_map lines) (user, pw)
      = list_to_set (filter (fun e => e.1 = (user, pw)) (omap success_login lines)).*2).
Proof.
  split_and!.
  - intros fp_map line fp ip Hev Hin.
    rewrite identify_bots_step_eq. unfold collect_step. rewrite Hev.
    by apply add_present.
  - intros creds line user pw ip Hev Hin.
    rewrite successful_creds_step_eq. unfold collect_step. rewrite Hev.
    by apply add_present.
  - intros fp_map line. rewrite !identify_bots_step_eq. unfold collect_step.
    destruct (client_fingerprint line) as [[fp ip]|]; [apply add_idemp | done].
  - intros creds line. rewrite !successful_creds_step_eq. unfold collect_step.
    destruct (success_login line) as [[k ip]|]; [apply add_idemp | done].
  - intros lines fp. rewrite identify_bots_map_eq, getitem_collect_loop.
    unfold SetDict.getitem. csimpl. set_solver.
  - intros lines user pw. rewrite successful_creds_map_eq, getitem_collect_loop.
    unfold SetDict.getitem. csimpl. set_solver.
Qed.

Lemma duplicate_pairs_count_once_witness :
  identify_bots_step
    (identify_bots_map [hassh_line "10.0.0.7" "ec7378c1a92f5a8dde7e8b7a1ddf33d1"])
    (hassh_line "10.0.0.7" "ec7378c1a92f5a8dde7e8b7a1ddf33d1")
  = identify_bots_map [hassh_line "10.0.0.7" "ec7378c1a92f5a8dde7e8b7a1ddf33d1"]
  /\ successful_creds_step
       (successful_creds_map [success_line "10.0.0.7" "root" "admin"])
       (success_line "10.0.0.7" "root" "admin")
     = successful_creds_map [success_line "10.0.0.7" "root" "admin"].
Proof.
  destruct duplicate_pairs_count_once as (Hbots & Hcreds & _).
  split.
  - apply (Hbots _ _ "ec7378c1a92f5a8dde7e8b7a1ddf33d1" "10.0.0.7").
    + vm_compute. reflexivity.
    + apply (bool_decide_unpack _). vm_compute. exact I.
  - apply (Hcreds _ _ "root" "admin" "10.0.0.7").
    + vm_compute. reflexivity.
    + apply (bool_decide_unpack _). vm_compute. exact I.
Defined.

Lemma fold_left_skip {A B} (f : A -> B -> A) (before after : list B) (x : B) (a : A) :
  (forall acc, f acc x = acc) ->
  fold_left f (before ++ x :: after) a = fold_left f (before ++ after) a.
Proof. intros Hskip. rewrite !fold_left_app. csimpl. by rewrite Hskip. Qed.

(** Each loop body is the identity on a line its grammar does not match. *)
Lemma step_skips line :
  (search FAILED_LOGIN_PATTERN line = None ->
   forall counter, failed_logins_step counter line = counter)
  /\ (search NEW_CONN_PATTERN line = None ->
      forall pad_year acc, connections_step pad_year acc line = acc)
  /\ (search SUCCESS_LOGIN_PATTERN line = None ->
      forall creds, successful_creds_step creds line = creds)
  /\ (search FINGERPRINT_PATTERN line = None ->
      forall fp_map, identify_bots_step fp_map line = fp_map)
  /\ (search CMD_PATTERN line = None ->
      forall counter, top_commands_step counter line = counter).
Proof.
  split_and!.
  - intros Hs counter. unfold failed_logins_step. by rewrite Hs.
  - intros Hs pad_year [c|e]; unfold connections_step; [by rewrite Hs | done].
  - intros Hs creds. unfold successful_creds_step. by rewrite Hs.
  - intros Hs fp_map. unfold identify_bots_step. by rewrite Hs.
  - intros Hs counter. unfold top_commands_step. by rewrite Hs.
Qed.

(** C8.  A line that does not match the grammar of the running task yields no
    event and no exception: the loop body leaves the aggregate as it is, and
    the task's outcome is the one of the input without that line. *)
Theorem unmatched_lines_are_skipped :
  forall line,
    (search FAILED_LOGIN_PATTERN line = None ->
     forall counter, failed_logins_step counter line = counter)
    /\ (search NEW_CONN_PATTERN line = None ->
        forall pad_year acc, connections_step pad_year acc line = acc)
    /\ (search SUCCESS_LOGIN_PATTERN line = None ->
        forall creds, successful_creds_step creds line = creds)
    /\ (search FINGERPRINT_PATTERN line = None ->
        forall fp_map, identify_bots_step fp_map line = fp_map)
    /\ (search CMD_PATTERN line = None ->
        forall counter, top_commands_step counter line = counter)
    /\ (forall pad_year a before after,
        search (task_pattern (arg_task a)) line = None ->
        main pad_year a (before ++ line :: after) = main pad_year a (before ++ after)).
Proof.
  intros line. destruct (step_skips line) as (H1 & H2 & H3 & H4 & H5).
  split_and!; try done.
  intros pad_year [t mc mi] before after Hs. unfold main. destruct t; csimpl in *.
  - unfold analyze_failed_logins, failed_logins_filtered, failed_logins_counter.
    by rewrite fold_left_skip by auto.
  - unfold connections, connections_counter. by rewrite fold_left_skip by auto.
  - unfold analyze_successful_creds, successful_creds_items, successful_creds_map.
    by rewrite fold_left_skip by auto.
  - unfold identify_bots, identify_bots_items, identify_bots_bots, identify_bots_map.
    by rewrite fold_left_skip by auto.
  - unfold top_commands, top_commands_counter. by rewrite fold_left_skip by auto.
Qed.

Lemma unmatched_lines_are_skipped_witness :
  failed_logins_step [("1.2.3.4", 2)] "noise" = [("1.2.3.4", 2)]
  /\ connections_step false (Ok [("2023-01-01 10:15", 1)]) "noise"
     = Ok [("2023-01-01 10:15", 1)]
  /\ successful_creds_step [] "noise" = []
  /\ identify_bots_step [] "noise" = []
  /\ top_commands_step [("ls", 1)] "noise" = [("ls", 1)]
  /\ main false (default_args TopCommands)
       ([cmd_line_of "ls"] ++ "noise" :: [cmd_line_of "id"])
     = main false (default_args TopCommands) ([cmd_line_of "ls"] ++ [cmd_line_of "id"]).
Proof.
  destruct (unmatched_lines_are_skipped "noise") as (H1 & H2 & H3 & H4 & H5 & H6).
  split_and!.
  - apply H1. vm_compute. reflexivity.
  - apply H2. vm_compute. reflexivity.
  - apply H3. vm_compute. reflexivity.
  - apply H4. vm_compute. reflexivity.
  - apply H5. vm_compute. reflexivity.
  - apply H6. vm_compute. reflexivity.
Defined.

Lemma fold_left_all_skip {A B} (f : A -> B -> A) (l : list B) (a : A) :
  Forall (fun x => forall acc, f acc x = acc) l -> fold_left f l a = a.
Proof.
  induction 1 as [|x l Hx _ IH]; csimpl; [done|]. by rewrite Hx.
Qed.

(** C9, as the specification words it, fails: on an empty input the output is
    not the header row and the separator only, a title line comes first. *)
Lemma empty_input_report_has_title :
  main false (default_args FailedLogins) []
  = Ok ["Failed login attempts (min 1)"; "IP    Count"; "-----------"]
  /\ main false (default_args FailedLogins) [] <> Ok ["IP    Count"; "-----------"]
  /\ _print_counter [] "IP" "Count" false = ["IP    Count"; "-----------"].
Proof. vm_compute. split_and!; [reflexivity | discriminate | reflexivity]. Qed.

(** C9, amended.  For every task and every choice of the thresholds, an input
    without a matching line (in particular the empty file) produces the task's
    title line followed by the header row and the separator rule only, with no
    data row, and the program ends normally, with exit status 0. *)
Theorem no_match_report :
  forall pad_year a lines,
    Forall (fun l => search (task_pattern (arg_task a)) l = None) lines ->
    main pad_year a lines = Ok (empty_report a)
    /\ length (empty_report a) = 3
    /\ exit_status (main pad_year a lines) = 0.
Proof.
  intros pad_year [t mc mi] lines Hall. csimpl in Hall.
  assert (main pad_year (mk_args t mc mi) lines
          = Ok (empty_report (mk_args t mc mi))) as Hmain.
  { unfold main, empty_report. destruct t; csimpl in *.
    - unfold analyze_failed_logins, failed_logins_filtered, failed_logins_counter.
      rewrite fold_left_all_skip; [reflexivity|].
      eapply Forall_impl; [exact Hall|]. intros l Hl.
      by apply (step_skips l).
    - unfold connections, connections_counter.
      rewrite fold_left_all_skip; [reflexivity|].
      eapply Forall_impl; [exact Hall|]. intros l Hl.
      by apply (step_skips l).
    - unfold analyze_successful_creds, successful_creds_items, successful_creds_map.
      rewrite fold_left_all_skip; [reflexivity|].
      eapply Forall_impl; [exact Hall|]. intros l Hl.
      by apply (step_skips l).
    - unfold identify_bots, identify_bots_items, identify_bots_bots, identify_bots_map.
      rewrite fold_left_all_skip; [reflexivity|].
      eapply Forall_impl; [exact Hall|]. intros l Hl.
      by apply (step_skips l).
    - unfold top_commands, top_commands_counter.
      rewrite fold_left_all_skip; [reflexivity|].
      eapply Forall_impl; [exact Hall|]. intros l Hl.
      by apply (step_skips l). }
  split_and!; [done | by destruct t | by rewrite Hmain].
Qed.

Lemma no_match_report_witness :
  main false (default_args IdentifyBots) ["noise"; failed_line "1.2.3.4"]
  = Ok (empty_report (default_args IdentifyBots))
  /\ length (empty_report (default_args IdentifyBots)) = 3
  /\ exit_status (main false (default_args IdentifyBots) ["noise"; failed_line "1.2.3.4"])
     = 0.
Proof.
  apply no_match_report.
  repeat constructor; vm_compute; reflexivity.
Defined.

(** ** Closed forms of the aggregates *)
Section closed_forms.
Context {K : Type} `{EqDecision K}.

Lemma filter_fmap {A B} (f : A -> B) (P : B -> Prop) `{!forall y, Decision (P y)}
    (l : list A) :
  filter P (f <$> l) = f <$> filter (fun x => P (f x)) l.
Proof.
  induction l as [|x l IH]; csimpl; [done|].
  rewrite !filter_cons, IH. by destruct (decide (P (f x))).
Qed.

Lemma dict_repr {V} (dflt : V) (d : list (K * V)) :
  NoDup (Dict.keys d) ->
  d = (fun k => (k, default dflt (Dict.get k d))) <$> Dict.keys d.
Proof.
  unfold Dict.keys. induction d as [|[k v] d IH]; csimpl; [done|].
  intros [Hnin Hnd]%NoDup_cons. rewrite decide_True by done. csimpl. f_equal.
  rewrite IH at 1 by done. apply list_fmap_ext. intros i k' Hk'.
  rewrite decide_False; [done|]. intros ->.
  apply Hnin. by eapply list_elem_of_lookup_2.
Qed.

Lemma count_loop_closed (ev : string -> option K) (lines : list string) :
  fold_left (count_step ev) lines []
  = (fun k => (k, occurrences ev lines k)) <$> first_seen (omap ev lines).
Proof.
  rewrite (dict_repr 0 (fold_left _ _ _)) by apply NoDup_keys_count_loop.
  rewrite keys_count_loop_nil. apply list_fmap_ext. intros i k _. f_equal.
  apply (getitem_count_loop ev lines [] k).
Qed.

Lemma collect_loop_closed (ev : string -> option (K * string)) (lines : list string) :
  fold_left (collect_step ev) lines []
  = (fun k => (k, seen_with ev lines k)) <$> first_seen (omap ev lines).*1.
Proof.
  assert (NoDup (Dict.keys (fold_left (collect_step ev) lines []))) as Hnd.
  { rewrite keys_collect_loop_nil. apply NoDup_first_seen. }
  rewrite (dict_repr ∅ (fold_left _ _ _)) by done.
  rewrite keys_collect_loop_nil. apply list_fmap_ext. intros i k _. f_equal.
  pose proof (getitem_collect_loop ev lines [] k) as Hget.
  unfold SetDict.getitem in Hget. csimpl in Hget. rewrite Hget.
  unfold seen_with. set_solver.
Qed.

(** Rows of metric [m] after a threshold filter and the stable descending
    sort: the keys with that metric, in the order of the aggregate. *)
Lemma tied_rows {V} (key : K * V -> nat) (value : K -> V) (ks : list K)
    (keep : K * V -> Prop) (sel : K -> Prop)
    `{!forall it, Decision (keep it)} `{!forall k, Decision (sel k)} (m : nat) :
  (forall k, sel k <-> key (k, value k) = m /\ keep (k, value k)) ->
  (filter (fun it => key it = m)
     (Sorting.sorted_desc key (filter keep ((fun k => (k, value k)) <$> ks)))).*1
  = filter sel ks.
Proof.
  intros Hsel. rewrite (sorted_desc_stable key).
  rewrite list_filter_filter, filter_fmap. csimpl.
  rewrite <- list_fmap_compose.
  rewrite (list_fmap_ext (fst ∘ (fun k => (k, value k))) id) by done.
  rewrite list_fmap_id. apply list_filter_iff.
  intros k. by rewrite Hsel.
Qed.

Lemma tied_rows_unfiltered {V} (key : K * V -> nat) (value : K -> V) (ks : list K)
    (m : nat) :
  (filter (fun it => key it = m)
     (Sorting.sorted_desc key ((fun k => (k, value k)) <$> ks))).*1
  = filter (fun k => key (k, value k) = m) ks.
Proof.
  rewrite (sorted_desc_stable key).
  rewrite filter_fmap. csimpl. rewrite <- list_fmap_compose.
  rewrite (list_fmap_ext (fst ∘ (fun k => (k, value k))) id) by done.
  by rewrite list_fmap_id.
Qed.
End closed_forms.

(** C10.  The output of every task is a function of the sequence of input
    lines: equal line sequences give the same output, character by character.
    In the four reports sorted by descending metric, the rows that share a
    metric [m] are listed in the order in which their keys first occur in the
    input. *)
Theorem output_deterministic_ties_first_seen :
  (forall pad_year a lines lines',
      lines = lines' -> main pad_year a lines = main pad_year a lines')
  /\ (forall lines min_count m,
      (filter (fun it => it.2 = m) (failed_logins_rows lines min_count)).*1
      = filter (fun ip => occurrences failed_login_ip lines ip = m
                          /\ (min_count <= Z.of_nat m)%Z)
          (first_seen (omap failed_login_ip lines)))
  /\ (forall lines m,
      (filter (fun it => it.2 = m) (top_commands_rows lines)).*1
      = filter (fun cmd => occurrences shell_command lines cmd = m)
          (first_seen (omap shell_command lines)))
  /\ (forall lines min_ips m,
      (filter (fun it => size it.2 = m) (identify_bots_items lines min_ips)).*1
      = filter (fun fp => size (seen_with client_fingerprint lines fp) = m
                          /\ (min_ips <= Z.of_nat m)%Z)
          (first_seen (omap client_fingerprint lines).*1))
  /\ (forall lines m,
      (filter (fun it => size it.2 = m) (successful_creds_items lines)).*1
      = filter (fun key => size (seen_with success_login lines key) = m)
          (first_seen (omap success_login lines).*1)).
Proof.
  split_and!.
  - by intros pad_year a lines lines' ->.
  - intros lines min_count m.
    unfold failed_logins_rows, counter_items, failed_logins_filtered, counts_at_least.
    rewrite failed_logins_counter_eq, count_loop_closed.
    apply (tied_rows snd (occurrences failed_login_ip lines)).
    intros ip. csimpl. split; intros [<- ?]; done.
  - intros lines m. unfold top_commands_rows, counter_items.
    rewrite top_commands_counter_eq, count_loop_closed.
    apply (tied_rows_unfiltered snd (occurrences shell_command lines)).
  - intros lines min_ips m.
    unfold identify_bots_items, identify_bots_bots, sets_at_least.
    rewrite identify_bots_map_eq, collect_loop_closed.
    apply (tied_rows (fun it => size it.2) (seen_with client_fingerprint lines)).
    intros fp. csimpl. split; intros [<- ?]; done.
  - intros lines m. unfold successful_creds_items.
    rewrite successful_creds_map_eq, collect_loop_closed.
    apply (tied_rows_unfiltered (fun it => size it.2) (seen_with success_login lines)).
Qed.

Lemma output_deterministic_ties_first_seen_witness :
  main false (default_args FailedLogins) [failed_line "1.2.3.4"; failed_line "5.6.7.8"]
  = main false (default_args FailedLogins) [failed_line "1.2.3.4"; failed_line "5.6.7.8"].
Proof.
  apply (proj1 output_deterministic_ties_first_seen). reflexivity.
Defined.

(** Two IPs with one failed login each are listed in the order of the input,
    whichever is the smaller string. *)
Example tie_break_example :
  analyze_failed_logins [failed_line "5.6.7.8"; failed_line "1.2.3.4"] 1
  = ["Failed login attempts (min 1)";
     "IP         Count";
     "----------------";
     "5.6.7.8        1";
     "1.2.3.4        1"].
Proof. vm_compute. reflexivity. Qed.

(** ** What a match establishes *)
Section regex_facts.

Lemma strip_prefix_Some t s s' : strip_prefix t s = Some s' -> s = t +:+ s'.
Proof.
  revert s. induction t as [|a t IH]; intros s; csimpl.
  - by intros [= ->].
  - destruct s as [|b s]; [done|].
    destruct (Ascii.eqb_spec a b) as [->|]; [|done].
    intros Hs. by rewrite (IH _ Hs).
Qed.

Lemma rep_greedy_sound p s g k m :
  rep_greedy p s g k = Some m -> exists t s', s = t +:+ s' /\ k s' g = Some m.
Proof.
  induction s as [|c s IH]; cbn [rep_greedy].
  - intros Hk. by exists "", "".
  - destruct (p c).
    + destruct (rep_greedy p s g k) as [m'|] eqn:Hrec.
      * intros [= ->]. destruct (IH eq_refl) as (t & s' & -> & Hk).
        by exists (String c t), s'.
      * intros Hk. by exists "", (String c s).
    + intros Hk. by exists "", (String c s).
Qed.

Lemma rep_lazy_sound p s g k m :
  rep_lazy p s g k = Some m -> exists t s', s = t +:+ s' /\ k s' g = Some m.
Proof.
  induction s as [|c s IH]; cbn [rep_lazy].
  - destruct (k "" g) eqn:Hk; [|done]. intros [= ->]. by exists "", "".
  - destruct (k (String c s) g) eqn:Hk.
    + intros [= ->]. by exists "", (String c s).
    + destruct (p c); [|done]. intros Hrec.
      destruct (IH Hrec) as (t & s' & -> & Hk').
      by exists (String c t), s'.
Qed.

Lemma run_sound r s g k m :
  run r s g k = Some m -> exists s' g', den r s s' g g' /\ k s' g' = Some m.
Proof.
  revert s g k. induction r as [t|p|r1 IH1 r2 IH2|[] p|r IH|name r IH];
    intros s g k; cbn [run den].
  - destruct (strip_prefix t s) as [s'|] eqn:Hs; [|done].
    intros Hk. exists s', g. by rewrite (strip_prefix_Some _ _ _ Hs).
  - destruct s as [|c s]; [done|]. destruct (p c) eqn:Hp; [|done].
    intros Hk. exists s, g. split; [by exists c | done].
  - intros Hrun. apply IH1 in Hrun as (s1 & g1 & H1 & Hrun).
    apply IH2 in Hrun as (s2 & g2 & H2 & Hk).
    exists s2, g2. split; [by exists s1, g1 | done].
  - intros (t & s' & -> & Hk)%rep_greedy_sound.
    exists s', g. split; [by exists t | done].
  - intros (t & s' & -> & Hk)%rep_lazy_sound.
    exists s', g. split; [by exists t | done].
  - destruct (run r s g k) as [m'|] eqn:Hrun.
    + intros [= ->]. apply IH in Hrun as (s' & g' & H & Hk).
      exists s', g'. split; [by left | done].
    + intros Hk. exists s, g. split; [by right | done].
  - intros Hrun. apply IH in Hrun as (s' & g1 & H & Hk).
    eexists s', _. split; [by exists g1 | done].
Qed.

Lemma search_sound r line m :
  search r line = Some m ->
  exists skipped s s', line = skipped +:+ s /\ den r s s' [] m.
Proof.
  induction line as [|c line IH]; cbn [search].
  - destruct (match_here r "") as [m'|] eqn:Hm; [|done]. intros [= ->].
    apply run_sound in Hm as (s' & g' & Hden & [= ->]). by exists "", "", s'.
  - destruct (match_here r (String c line)) as [m'|] eqn:Hm.
    + intros [= ->].
      apply run_sound in Hm as (s' & g' & Hden & [= ->]).
      by exists "", (String c line), s'.
    + intros (skipped & s & s' & -> & Hden)%IH.
      by exists (String c skipped), s, s'.
Qed.
End regex_facts.

Section new_conn_shape.

Lemma string_length_app (a b : string) :
  String.length (a +:+ b) = String.length a + String.length b.
Proof. induction a as [|c a IH]; csimpl; [done | by rewrite IH]. Qed.

Ltac open_den :=
  repeat match goal with
         | H : exists _, _ |- _ => destruct H as [? H]
         | H : _ /\ _ |- _ => destruct H as [? ?]
         end.

Lemma app_String c (a b : string) : String c a +:+ b = String c (a +:+ b).
Proof. reflexivity. Qed.

Lemma app_Empty (b : string) : "" +:+ b = b.
Proof. reflexivity. Qed.

Lemma substring_0_0 (s : string) : substring 0 0 s = "".
Proof. by destruct s. Qed.

Ltac push_app := repeat (rewrite app_String || rewrite app_Empty).

Ltac use_digits :=
  repeat match goal with
         | H : is_digit _ = true |- _ => rewrite H; clear H
         end.

Lemma den_timestamp s s' g g' :
  den timestamp s s' g g' ->
  g' = g /\ ts_shape (substring 0 19 s) = true
  /\ 19 + String.length s' <= String.length s.
Proof.
  unfold timestamp, plus. cbn [cat times den]. intros Hden.
  open_den. subst.
  match goal with H : _ \/ _ |- _ => destruct H as [H|H] end; open_den; subst.
  - push_app. split_and!; [done | |].
    + cbn [substring]. rewrite ?substring_0_0. unfold ts_shape.
      cbn [list_ascii_of_string forallb]. use_digits. reflexivity.
    + cbn [String.length]. rewrite !string_length_app. lia.
  - push_app. split_and!; [done | |].
    + cbn [substring]. rewrite ?substring_0_0. unfold ts_shape.
      cbn [list_ascii_of_string forallb]. use_digits. reflexivity.
    + cbn [String.length]. lia.
Qed.

(** The first 19 characters of a timestamp captured by [NEW_CONN_PATTERN]
    always have the shape [dddd-dd-ddTdd:dd:dd]. *)
Lemma new_conn_ts_shape line ts :
  new_conn_ts line = Some ts -> ts_shape (substring 0 19 ts) = true.
Proof.
  unfold new_conn_ts.
  destruct (search NEW_CONN_PATTERN line) as [m|] eqn:Hs; [|done].
  intros [= <-].
  apply search_sound in Hs as (skipped & s & s' & _ & Hden).
  unfold NEW_CONN_PATTERN, ipv4, plus in Hden. cbn [cat den] in Hden.
  destruct Hden as (sA & gA & (g0 & Hts & ->) & Hrest).
  apply den_timestamp in Hts as (-> & Hshape & Hlen).
  assert (group "ts" m = consumed s sA) as ->.
  { open_den. subst. reflexivity. }
  unfold consumed. rewrite substring_substring by lia. done.
Qed.
End new_conn_shape.

(** ** The patterns on sample lines *)

Example failed_login_match :
  search FAILED_LOGIN_PATTERN (failed_line "1.2.3.4") = Some [("ip", "1.2.3.4")].
Proof. vm_compute. reflexivity. Qed.

Example new_conn_match :
  search NEW_CONN_PATTERN (conn_line "2023-01-01T10:15:02.123456")
  = Some [("ts", "2023-01-01T10:15:02.123456"); ("ip", "10.0.0.7")].
Proof. vm_compute. reflexivity. Qed.

Example success_login_match :
  search SUCCESS_LOGIN_PATTERN (success_line "8.8.8.8" "root" "ad/min")
  = Some [("ip", "8.8.8.8"); ("user", "root"); ("pw", "ad/min")].
Proof. vm_compute. reflexivity. Qed.

Example fingerprint_match :
  search FINGERPRINT_PATTERN (hassh_line "8.8.8.8" "ec7378c1a92f5a8dde7e8b7a1ddf33d1")
  = Some [("ip", "8.8.8.8"); ("fp", "ec7378c1a92f5a8dde7e8b7a1ddf33d1")].
Proof. vm_compute. reflexivity. Qed.

Example cmd_match :
  shell_command (cmd_line_of "  uname -a  ") = Some "uname -a".
Proof. vm_compute. reflexivity. Qed.

Example success_is_not_failure :
  search FAILED_LOGIN_PATTERN (success_line "8.8.8.8" "root" "admin") = None.
Proof. vm_compute. reflexivity. Qed.

Example leap_day :
  strptime "2024-02-29T23:59:59" = Some (mk_datetime 2024 2 29 23 59 59)
  /\ strptime "2023-02-29T23:59:59" = None
  /\ strptime "2023-12-31T23:59:60" = None
  /\ strptime "0000-01-01T00:00:00" = None.
Proof. vm_compute. split_and!; reflexivity. Qed.

(** * Further properties of the code *)

Ltac str_simpl :=
  repeat (rewrite app_String || rewrite app_Empty);
  cbn [all_chars take_run drop_run String.length strip_prefix].

Ltac str_simpl_in H :=
  repeat (rewrite app_String in H || rewrite app_Empty in H);
  cbn [all_chars take_run drop_run String.length strip_prefix] in H.

(** ** Strings *)
Section string_facts.

Lemma app_assoc_s (a b c : string) : (a +:+ b) +:+ c = a +:+ (b +:+ c).
Proof. induction a as [|x a IH]; str_simpl; [done | by rewrite IH]. Qed.

Lemma app_empty_r (a : string) : a +:+ "" = a.
Proof. induction a as [|x a IH]; str_simpl; [done | by rewrite IH]. Qed.

Lemma substring_0_length_app (t s : string) : substring 0 (String.length t) (t +:+ s) = t.
Proof.
  induction t as [|c t IH]; str_simpl; [apply substring_0_0|].
  cbn [substring]. by rewrite IH.
Qed.

Lemma consumed_app (t s : string) : consumed (t +:+ s) s = t.
Proof.
  unfold consumed. rewrite string_length_app.
  replace (String.length t + String.length s - String.length s)
    with (String.length t) by lia.
  apply substring_0_length_app.
Qed.

Lemma app_inv_head_s (t a b : string) : t +:+ a = t +:+ b -> a = b.
Proof. induction t as [|c t IH]; str_simpl; [done|]. intros [= H]. auto. Qed.

Lemma all_chars_app p (a b : string) :
  all_chars p (a +:+ b) = all_chars p a && all_chars p b.
Proof.
  induction a as [|c a IH]; str_simpl; [done|]. rewrite IH. by destruct (p c).
Qed.

Lemma take_drop_run p (s : string) : take_run p s +:+ drop_run p s = s.
Proof.
  induction s as [|c s IH]; str_simpl; [done|].
  destruct (p c); str_simpl; [by rewrite IH | done].
Qed.

Lemma all_chars_take_run p (s : string) : all_chars p (take_run p s) = true.
Proof.
  induction s as [|c s IH]; str_simpl; [done|].
  destruct (p c) eqn:Hp; str_simpl; [by rewrite Hp | done].
Qed.
End string_facts.

(** ** The matcher finds exactly the texts of [matches] *)
Section matcher_facts.

Lemma strip_prefix_app t s : strip_prefix t (t +:+ s) = Some s.
Proof.
  induction t as [|a t IH]; str_simpl; [done|]. by rewrite Ascii.eqb_refl.
Qed.

Lemma rep_greedy_matches p s g k m :
  rep_greedy p s g k = Some m ->
  exists t s', s = t +:+ s' /\ all_chars p t = true /\ k s' g = Some m.
Proof.
  induction s as [|c s IH]; cbn [rep_greedy].
  - intros Hk. by exists "", "".
  - destruct (p c) eqn:Hp.
    + destruct (rep_greedy p s g k) as [m'|] eqn:Hrec.
      * intros [= ->]. destruct (IH eq_refl) as (t & s' & -> & Ht & Hk).
        exists (String c t), s'. str_simpl. by rewrite Hp.
      * intros Hk. by exists "", (String c s).
    + intros Hk. by exists "", (String c s).
Qed.

Lemma rep_lazy_matches p s g k m :
  rep_lazy p s g k = Some m ->
  exists t s', s = t +:+ s' /\ all_chars p t = true /\ k s' g = Some m.
Proof.
  induction s as [|c s IH]; cbn [rep_lazy].
  - destruct (k "" g) eqn:Hk; [|done]. intros [= ->]. by exists "", "".
  - destruct (k (String c s) g) eqn:Hk.
    + intros [= ->]. by exists "", (String c s).
    + destruct (p c) eqn:Hp; [|done]. intros Hrec.
      destruct (IH Hrec) as (t & s' & -> & Ht & Hk').
      exists (String c t), s'. csimpl. by rewrite Hp.
Qed.

Lemma run_matches r s g k m :
  run r s g k = Some m -> exists s' g', matches r s s' g g' /\ k s' g' = Some m.
Proof.
  revert s g k. induction r as [t|p|r1 IH1 r2 IH2|[] p|r IH|name r IH];
    intros s g k; cbn [run matches].
  - destruct (strip_prefix t s) as [s'|] eqn:Hs; [|done].
    intros Hk. exists s', g. by rewrite (strip_prefix_Some _ _ _ Hs).
  - destruct s as [|c s]; [done|]. destruct (p c) eqn:Hp; [|done].
    intros Hk. exists s, g. split; [by exists c | done].
  - intros Hrun. apply IH1 in Hrun as (s1 & g1 & H1 & Hrun).
    apply IH2 in Hrun as (s2 & g2 & H2 & Hk).
    exists s2, g2. split; [by exists s1, g1 | done].
  - intros (t & s' & -> & Ht & Hk)%rep_greedy_matches.
    exists s', g. split; [by exists t | done].
  - intros (t & s' & -> & Ht & Hk)%rep_lazy_matches.
    exists s', g. split; [by exists t | done].
  - destruct (run r s g k) as [m'|] eqn:Hrun.
    + intros [= ->]. apply IH in Hrun as (s' & g' & H & Hk).
      exists s', g'. split; [by left | done].
    + intros Hk. exists s, g. split; [by right | done].
  - intros Hrun. apply IH in Hrun as (s' & g1 & H & Hk).
    eexists s', _. split; [by exists g1 | done].
Qed.

Lemma rep_greedy_base p s g k : is_Some (k s g) -> is_Some (rep_greedy p s g k).
Proof.
  destruct s as [|c s]; cbn [rep_greedy]; [done|].
  destruct (p c); [|done]. by destruct (rep_greedy p s g k).
Qed.

Lemma rep_greedy_finds p t s g k :
  all_chars p t = true -> is_Some (k s g) -> is_Some (rep_greedy p (t +:+ s) g k).
Proof.
  induction t as [|c t IH]; str_simpl; cbn [rep_greedy].
  - intros _. apply rep_greedy_base.
  - intros [Hp Ht]%andb_prop Hk. rewrite Hp.
    destruct (rep_greedy p (t +:+ s) g k) eqn:Hrec; [done|].
    destruct (IH Ht Hk) as [m Hm]. congruence.
Qed.

Lemma rep_lazy_base p s g k : is_Some (k s g) -> is_Some (rep_lazy p s g k).
Proof.
  intros [m Hm]. destruct s as [|c s]; cbn [rep_lazy]; by rewrite Hm.
Qed.

Lemma rep_lazy_finds p t s g k :
  all_chars p t = true -> is_Some (k s g) -> is_Some (rep_lazy p (t +:+ s) g k).
Proof.
  induction t as [|c t IH]; str_simpl; cbn [rep_lazy].
  - intros _. apply rep_lazy_base.
  - intros [Hp Ht]%andb_prop Hk.
    destruct (k (String c (t +:+ s)) g); [done|]. rewrite Hp. auto.
Qed.

Lemma run_finds r s s' g g' k :
  matches r s s' g g' -> is_Some (k s' g') -> is_Some (run r s g k).
Proof.
  revert s s' g g' k.
  induction r as [t|p|r1 IH1 r2 IH2|[] p|r IH|name r IH];
    intros s s' g g' k; cbn [run matches].
  - intros [-> ->] Hk. by rewrite strip_prefix_app.
  - intros (c & -> & Hp & ->) Hk. by rewrite Hp.
  - intros (s1 & g1 & H1 & H2) Hk. eapply IH1; [exact H1|].
    eapply IH2; [exact H2 | exact Hk].
  - intros (t & -> & Ht & ->) Hk. by apply rep_greedy_finds.
  - intros (t & -> & Ht & ->) Hk. by apply rep_lazy_finds.
  - intros [H|[-> ->]] Hk.
    + destruct (run r s g k) eqn:Hrun; [done|].
      destruct (IH _ _ _ _ _ H Hk) as [m Hm]. congruence.
    + by destruct (run r s g k).
  - intros (g1 & H & ->) Hk. eapply IH; [exact H|]. exact Hk.
Qed.

Lemma search_here r line m :
  search r line = Some m ->
  exists skipped s, line = skipped +:+ s /\ match_here r s = Some m.
Proof.
  induction line as [|c line IH]; cbn [search].
  - destruct (match_here r "") as [m'|] eqn:Hm; [|done]. intros [= ->].
    by exists "", "".
  - destruct (match_here r (String c line)) as [m'|] eqn:Hm.
    + intros [= ->]. by exists "", (String c line).
    + intros (skipped & s & -> & Hs)%IH. by exists (String c skipped), s.
Qed.

Lemma search_finds r skipped s :
  is_Some (match_here r s) -> is_Some (search r (skipped +:+ s)).
Proof.
  intros [m Hm]. induction skipped as [|c skipped IH]; str_simpl; cbn [search].
  - destruct s; cbn [search]; by rewrite Hm.
  - by destruct (match_here r (String c (skipped +:+ s))).
Qed.

(** [search] succeeds exactly on the texts that contain a match. *)
Lemma search_is_Some r line :
  is_Some (search r line)
  <-> exists skipped s s' g', line = skipped +:+ s /\ matches r s s' [] g'.
Proof.
  split.
  - intros [m (skipped & s & -> & Hm)%search_here].
    apply run_matches in Hm as (s' & g' & Hden & _). by exists skipped, s, s', g'.
  - intros (skipped & s & s' & g' & -> & Hden).
    apply search_finds. eapply run_finds; [exact Hden | done].
Qed.

Lemma search_matches r line m :
  search r line = Some m ->
  exists skipped s s', line = skipped +:+ s /\ matches r s s' [] m.
Proof.
  intros (skipped & s & -> & Hm)%search_here.
  apply run_matches in Hm as (s' & g' & Hden & [= ->]). by exists skipped, s, s'.
Qed.
End matcher_facts.

(** ** What the patterns match *)
Section pattern_facts.

Ltac open_all :=
  repeat match goal with
         | H : exists _, _ |- _ => destruct H as [? H]
         | H : _ /\ _ |- _ => destruct H as [? ?]
         end.

Lemma matches_plus p s s' g g' :
  matches (plus p) s s' g g' <-> exists t, s = t +:+ s' /\ run_of p t /\ g' = g.
Proof.
  unfold plus, run_of. cbn [matches]. split.
  - intros (s1 & g1 & (c & -> & Hp & ->) & t & -> & Ht & ->).
    exists (String c t). str_simpl. by rewrite Hp, Ht.
  - intros (t & -> & [Hne Ht] & ->). destruct t as [|c t]; [done|].
    str_simpl. cbn [all_chars] in Ht. apply andb_prop in Ht as [Hp Ht].
    exists (t +:+ s'), g. split; [by exists c | by exists t].
Qed.

Lemma matches_ipv4 s s' g g' :
  matches ipv4 s s' g g' <-> exists ip, s = ip +:+ s' /\ dotted_quad ip /\ g' = g.
Proof.
  unfold ipv4, dotted_quad. cbn [cat]. cbn [matches].
  repeat setoid_rewrite matches_plus. split.
  - intros (s1 & g1 & (a & -> & Ha & ->) & s2 & g2 & [-> ->]
            & s3 & g3 & (b & -> & Hb & ->) & s4 & g4 & [-> ->]
            & s5 & g5 & (c & -> & Hc & ->) & s6 & g6 & [-> ->]
            & d & -> & Hd & ->).
    exists (a +:+ "." +:+ b +:+ "." +:+ c +:+ "." +:+ d).
    split; [|split; [by exists a, b, c, d | done]].
    rewrite !app_assoc_s. str_simpl. reflexivity.
  - intros (ip & -> & (a & b & c & d & -> & Ha & Hb & Hc & Hd) & ->).
    rewrite !app_assoc_s. str_simpl.
    eexists _, _. split; [exists a; split_and!; [reflexivity | done..]|].
    eexists _, _. split; [split; reflexivity|].
    eexists _, _. split; [exists b; split_and!; [reflexivity | done..]|].
    eexists _, _. split; [split; reflexivity|].
    eexists _, _. split; [exists c; split_and!; [reflexivity | done..]|].
    eexists _, _. split; [split; reflexivity|].
    exists d. split_and!; [reflexivity | done..].
Qed.

Lemma matches_transport_marker s s' g g' :
  matches transport_marker s s' g g'
  <-> exists n ip,
      s = "[HoneyPotSSHTransport," +:+ n +:+ "," +:+ ip +:+ "]" +:+ s'
      /\ run_of is_digit n /\ dotted_quad ip /\ g' = set_group "ip" ip g.
Proof.
  unfold transport_marker. cbn [cat]. cbn [matches].
  setoid_rewrite matches_plus. setoid_rewrite matches_ipv4. split.
  - intros (s1 & g1 & [-> ->] & s2 & g2 & (n & -> & Hn & ->) & s3 & g3 & [-> ->]
            & s4 & g4 & (g5 & (ip & -> & Hip & ->) & ->) & -> & ->).
    rewrite consumed_app. by exists n, ip.
  - intros (n & ip & -> & Hn & Hip & ->).
    eexists _, _. split; [split; reflexivity|].
    eexists _, _. split; [exists n; split_and!; [reflexivity | done..]|].
    eexists _, _. split; [split; reflexivity|].
    eexists _, _. split.
    + eexists. split; [exists ip; split_and!; [reflexivity | done..]|].
      rewrite consumed_app. reflexivity.
    + split; reflexivity.
Qed.
Lemma matches_failed_login s s' g' :
  matches FAILED_LOGIN_PATTERN s s' [] g'
  <-> exists n ip mid u p,
      s = failed_login_text n ip mid u p +:+ s'
      /\ run_of is_digit n /\ dotted_quad ip
      /\ all_chars dot mid = true /\ all_chars dot u = true /\ all_chars dot p = true
      /\ g' = [("ip", ip)].
Proof.
  unfold FAILED_LOGIN_PATTERN, failed_login_text. cbn [cat]. cbn [matches].
  setoid_rewrite matches_transport_marker. split.
  - intros (s1 & g1 & (n & ip & -> & Hn & Hip & ->) & s2 & g2 & (mid & -> & Hmid & ->)
            & s3 & g3 & [-> ->] & s4 & g4 & (u & -> & Hu & ->) & s5 & g5 & [-> ->]
            & s6 & g6 & (p & -> & Hp & ->) & -> & ->).
    exists n, ip, mid, u, p. split_and!; try done.
    rewrite !app_assoc_s. str_simpl. reflexivity.
  - intros (n & ip & mid & u & p & -> & Hn & Hip & Hmid & Hu & Hp & ->).
    rewrite !app_assoc_s. str_simpl.
    eexists _, _. split; [exists n, ip; split_and!; [reflexivity | done..]|].
    eexists _, _. split; [exists mid; split_and!; [reflexivity | done..]|].
    eexists _, _. split; [split; reflexivity|].
    eexists _, _. split; [exists u; split_and!; [reflexivity | done..]|].
    eexists _, _. split; [split; reflexivity|].
    eexists _, _. split; [exists p; split_and!; [reflexivity | done..]|].
    split; reflexivity.
Qed.
End pattern_facts.

(** ** Failed-login events *)
Section failed_login_facts.

Lemma all_chars_mono (p q : ascii -> bool) (s : string) :
  (forall c, p c = true -> q c = true) -> all_chars p s = true -> all_chars q s = true.
Proof.
  intros Hpq. induction s as [|c s IH]; cbn [all_chars]; [done|].
  intros [Hc Hs]%andb_prop. by rewrite (Hpq _ Hc), IH.
Qed.

Lemma dotted_quad_addr_chars ip : dotted_quad ip -> all_chars is_addr_char ip = true.
Proof.
  intros (a & b & c & d & -> & [_ Ha] & [_ Hb] & [_ Hc] & [_ Hd]).
  assert (forall s, all_chars is_digit s = true -> all_chars is_addr_char s = true) as Hd'.
  { intros s. apply all_chars_mono. intros x Hx. unfold is_addr_char. by rewrite Hx. }
  rewrite !all_chars_app. cbn [all_chars]. by rewrite !Hd'.
Qed.

(** A run of a class is determined by the text it starts, when a character
    outside the class follows it. *)
Lemma run_split_unique p (a a' : string) c c' (x x' : string) :
  all_chars p a = true -> all_chars p a' = true ->
  p c = false -> p c' = false ->
  a +:+ String c x = a' +:+ String c' x' -> a = a' /\ String c x = String c' x'.
Proof.
  revert a'. induction a as [|y a IH]; intros [|y' a']; str_simpl.
  - done.
  - intros _ [Hy' _]%andb_prop Hc _ [= -> _]. congruence.
  - intros [Hy _]%andb_prop _ _ Hc' [= -> _]. congruence.
  - intros [_ Ha]%andb_prop [_ Ha']%andb_prop Hc Hc' [= -> Heq].
    destruct (IH _ Ha Ha' Hc Hc' Heq) as [-> ?]. done.
Qed.

Lemma match_here_Some_search r s m : match_here r s = Some m -> search r s = Some m.
Proof. intros Hm. destruct s; cbn [search]; by rewrite Hm. Qed.

Lemma search_skip r p pre s :
  (forall c x, p c = true -> match_here r (String c x) = None) ->
  all_chars p pre = true -> search r (pre +:+ s) = search r s.
Proof.
  intros Hnone. induction pre as [|c pre IH]; str_simpl; [done|].
  intros [Hc Hpre]%andb_prop. cbn [search]. rewrite (Hnone _ _ Hc). auto.
Qed.

Lemma failed_login_needs_bracket c x :
  other_than "[" c = true -> match_here FAILED_LOGIN_PATTERN (String c x) = None.
Proof.
  unfold other_than. intros Hc%negb_true_iff.
  unfold match_here, FAILED_LOGIN_PATTERN, transport_marker. cbn [cat run strip_prefix].
  rewrite Ascii.eqb_sym in Hc. by rewrite Hc.
Qed.

Lemma failed_login_ip_at_marker n ip mid u p post :
  run_of is_digit n -> dotted_quad ip ->
  all_chars dot mid = true -> all_chars dot u = true -> all_chars dot p = true ->
  search FAILED_LOGIN_PATTERN (failed_login_text n ip mid u p +:+ post)
  = Some [("ip", ip)].
Proof.
  intros Hn Hip Hmid Hu Hp.
  assert (is_Some (match_here FAILED_LOGIN_PATTERN
                     (failed_login_text n ip mid u p +:+ post))) as [m Hm].
  { eapply run_finds; [|done]. apply matches_failed_login.
    by exists n, ip, mid, u, p. }
  rewrite (match_here_Some_search _ _ _ Hm). f_equal.
  apply run_matches in Hm as (s' & g' & Hden & [= ->]).
  apply matches_failed_login in Hden
    as (n' & ip' & mid' & u' & p' & Heq & [_ Hn'] & Hip' & _ & _ & _ & ->).
  do 2 f_equal. destruct Hn as [_ Hn].
  unfold failed_login_text in Heq. rewrite !app_assoc_s in Heq.
  apply app_inv_head_s in Heq. str_simpl_in Heq.
  apply (run_split_unique is_digit) in Heq as [-> [= Heq]]; try done.
  apply (run_split_unique is_addr_char) in Heq as [-> _];
    auto using dotted_quad_addr_chars.
Qed.
End failed_login_facts.

(** X1.  A line yields a failed-login event exactly when it contains the
    transport marker (a session number and a dotted quad of digit runs in
    brackets) followed on the same line by [login attempt [u/p] failed]; the
    captured IP is the dotted quad of such a marker.  The octets are not
    range-checked. *)
Theorem failed_login_grammar :
  (forall line ip,
      failed_login_ip line = Some ip ->
      exists pre n mid u p post,
        line = pre +:+ failed_login_text n ip mid u p +:+ post
        /\ run_of is_digit n /\ dotted_quad ip
        /\ all_chars dot mid = true /\ all_chars dot u = true
        /\ all_chars dot p = true)
  /\ (forall pre n ip mid u p post,
      run_of is_digit n -> dotted_quad ip ->
      all_chars dot mid = true -> all_chars dot u = true -> all_chars dot p = true ->
      is_Some (failed_login_ip (pre +:+ failed_login_text n ip mid u p +:+ post))).
Proof.
  split.
  - intros line ip. unfold failed_login_ip.
    destruct (search FAILED_LOGIN_PATTERN line) as [m|] eqn:Hs; [|done].
    intros [= <-].
    apply search_matches in Hs as (pre & s & post & -> & Hden).
    apply matches_failed_login in Hden
      as (n & ip & mid & u & p & -> & Hn & Hip & Hmid & Hu & Hp & ->).
    by exists pre, n, mid, u, p, post.
  - intros pre n ip mid u p post Hn Hip Hmid Hu Hp.
    unfold failed_login_ip. apply fmap_is_Some, search_is_Some.
    exists pre, (failed_login_text n ip mid u p +:+ post), post, [("ip", ip)].
    split; [done|]. apply matches_failed_login. by exists n, ip, mid, u, p.
Qed.

Lemma failed_login_grammar_witness :
  (exists pre n mid u p post,
      failed_line "999.2.3.4" = pre +:+ failed_login_text n "999.2.3.4" mid u p +:+ post
      /\ run_of is_digit n /\ dotted_quad "999.2.3.4"
      /\ all_chars dot mid = true /\ all_chars dot u = true /\ all_chars dot p = true)
  /\ is_Some (failed_login_ip
                ("x " +:+ failed_login_text "7" "1.2.3.4" " " "root" "a/b" +:+ nl)).
Proof.
  destruct failed_login_grammar as [Hsound Hcomplete]. split.
  - apply Hsound. vm_compute. reflexivity.
  - apply Hcomplete; try reflexivity.
    + split; [discriminate | reflexivity].
    + exists "1", "2", "3", "4". repeat split; discriminate.
Defined.

(** X2.  When nothing before the first transport marker contains a [[], the
    failed-login event of the line carries the IP of that marker. *)
Theorem failed_login_first_marker :
  forall pre n ip mid u p post,
    all_chars (other_than "[") pre = true ->
    run_of is_digit n -> dotted_quad ip ->
    all_chars dot mid = true -> all_chars dot u = true -> all_chars dot p = true ->
    failed_login_ip (pre +:+ failed_login_text n ip mid u p +:+ post) = Some ip.
Proof.
  intros pre n ip mid u p post Hpre Hn Hip Hmid Hu Hp.
  unfold failed_login_ip.
  rewrite (search_skip _ (other_than "[") pre)
    by (done || apply failed_login_needs_bracket).
  by rewrite failed_login_ip_at_marker.
Qed.

Lemma failed_login_first_marker_witness :
  failed_login_ip
    ("2023-01-01T10:15:02.123456Z "
     +:+ failed_login_text "12" "10.0.0.7" " [b'root'/b'toor'] " "root" "toor" +:+ nl)
  = Some "10.0.0.7".
Proof.
  apply failed_login_first_marker; try reflexivity.
  - split; [discriminate | reflexivity].
  - exists "10", "0", "0", "7". repeat split; discriminate.
Defined.

(** ** Fingerprint and successful-login events *)
Section capture_facts.

Lemma matches_times_OneOf p n s s' g g' :
  matches (times n (OneOf p)) s s' g g'
  <-> exists t, s = t +:+ s' /\ String.length t = n /\ all_chars p t = true /\ g' = g.
Proof.
  revert s g g'. induction n as [|[|n] IH]; intros s g g'.
  - cbn [times matches]. split.
    + intros [-> ->]. by exists "".
    + intros ([|c t] & -> & Hlen & _ & ->); [done | discriminate Hlen].
  - cbn [times matches]. split.
    + intros (c & -> & Hp & ->). exists (String c ""). str_simpl. by rewrite Hp.
    + intros ([|c [|c' t]] & -> & Hlen & Ht & ->); try discriminate Hlen.
      str_simpl_in Ht. apply andb_prop in Ht as [Hp _]. by exists c.
  - change (times (S (S n)) (OneOf p)) with (Seq (OneOf p) (times (S n) (OneOf p))).
    cbn [matches]. setoid_rewrite IH. split.
    + intros (s1 & g1 & (c & -> & Hp & ->) & t & -> & Hlen & Ht & ->).
      exists (String c t). str_simpl. rewrite Hp, Ht, Hlen. done.
    + intros ([|c t] & -> & Hlen & Ht & ->); [discriminate Hlen|].
      str_simpl_in Ht. apply andb_prop in Ht as [Hp Ht].
      injection Hlen as Hlen.
      exists (t +:+ s'), g. split; [by exists c | by exists t].
Qed.

Lemma matches_fingerprint s s' g' :
  matches FINGERPRINT_PATTERN s s' [] g'
  <-> exists n ip mid fp,
      s = "[HoneyPotSSHTransport," +:+ n +:+ "," +:+ ip +:+ "]" +:+ mid
          +:+ "SSH client hassh fingerprint: " +:+ fp +:+ s'
      /\ run_of is_digit n /\ dotted_quad ip /\ all_chars dot mid = true
      /\ String.length fp = 32 /\ all_chars is_hex_colon fp = true
      /\ g' = [("ip", ip); ("fp", fp)].
Proof.
  unfold FINGERPRINT_PATTERN. cbn [cat]. cbn [matches].
  setoid_rewrite matches_transport_marker. setoid_rewrite matches_times_OneOf. split.
  - intros (s1 & g1 & (n & ip & -> & Hn & Hip & ->) & s2 & g2 & (mid & -> & Hmid & ->)
            & s3 & g3 & [-> ->] & g4 & (fp & -> & Hlen & Hfp & ->) & ->).
    exists n, ip, mid, fp. rewrite consumed_app. split_and!; try done.
    all: rewrite !app_assoc_s; str_simpl; reflexivity.
  - intros (n & ip & mid & fp & -> & Hn & Hip & Hmid & Hlen & Hfp & ->).
    eexists _, _. split; [exists n, ip; split_and!; [reflexivity | done..]|].
    eexists _, _. split; [exists mid; split_and!; [reflexivity | done..]|].
    eexists _, _. split; [split; reflexivity|].
    eexists. split; [exists fp; split_and!; [reflexivity | done..]|].
    by rewrite consumed_app.
Qed.

Lemma matches_success_login s s' g' :
  matches SUCCESS_LOGIN_PATTERN s s' [] g'
  <-> exists n ip mid user pw,
      s = "[HoneyPotSSHTransport," +:+ n +:+ "," +:+ ip +:+ "]" +:+ mid
          +:+ "login attempt [" +:+ user +:+ "/" +:+ pw +:+ "] succeeded" +:+ s'
      /\ run_of is_digit n /\ dotted_quad ip /\ all_chars dot mid = true
      /\ run_of (other_than "/") user /\ run_of (other_than "]") pw
      /\ g' = [("ip", ip); ("user", user); ("pw", pw)].
Proof.
  unfold SUCCESS_LOGIN_PATTERN. cbn [cat]. cbn [matches].
  setoid_rewrite matches_transport_marker. setoid_rewrite matches_plus. split.
  - intros (s1 & g1 & (n & ip & -> & Hn & Hip & ->) & s2 & g2 & (mid & -> & Hmid & ->)
            & s3 & g3 & [-> ->] & s4 & g4 & (g5 & (user & -> & Huser & ->) & ->)
            & s6 & g6 & [-> ->] & s7 & g7 & (g8 & (pw & -> & Hpw & ->) & ->) & -> & ->).
    exists n, ip, mid, user, pw. rewrite !consumed_app. split_and!; try done.
    all: rewrite !app_assoc_s; str_simpl; reflexivity.
  - intros (n & ip & mid & user & pw & -> & Hn & Hip & Hmid & Huser & Hpw & ->).
    eexists _, _. split; [exists n, ip; split_and!; [reflexivity | done..]|].
    eexists _, _. split; [exists mid; split_and!; [reflexivity | done..]|].
    eexists _, _. split; [split; reflexivity|].
    eexists _, _. split.
    { eexists. split; [exists user; split_and!; [reflexivity | done..]|]. reflexivity. }
    eexists _, _. split; [split; reflexivity|].
    eexists _, _. split.
    { eexists. split; [exists pw; split_and!; [reflexivity | done..]|]. reflexivity. }
    rewrite !consumed_app. split; reflexivity.
Qed.
End capture_facts.

(** X3.  A fingerprint event carries exactly 32 characters of [[0-9a-f:]] that
    follow [SSH client hassh fingerprint: ] after a transport marker on the
    same line, together with the marker's dotted quad; whatever follows the
    32 characters is ignored.  Every line of that form yields an event. *)
Theorem fingerprint_capture :
  (forall line fp ip,
      client_fingerprint line = Some (fp, ip) ->
      String.length fp = 32 /\ all_chars is_hex_colon fp = true /\ dotted_quad ip
      /\ exists pre n mid post,
          line = pre +:+ "[HoneyPotSSHTransport," +:+ n +:+ "," +:+ ip +:+ "]" +:+ mid
                 +:+ "SSH client hassh fingerprint: " +:+ fp +:+ post
          /\ run_of is_digit n /\ all_chars dot mid = true)
  /\ (forall pre n ip mid fp post,
      run_of is_digit n -> dotted_quad ip -> all_chars dot mid = true ->
      String.length fp = 32 -> all_chars is_hex_colon fp = true ->
      is_Some (client_fingerprint
                 (pre +:+ "[HoneyPotSSHTransport," +:+ n +:+ "," +:+ ip +:+ "]" +:+ mid
                  +:+ "SSH client hassh fingerprint: " +:+ fp +:+ post))).
Proof.
  split.
  - intros line fp ip. unfold client_fingerprint.
    destruct (search FINGERPRINT_PATTERN line) as [m|] eqn:Hs; [|done].
    intros Hm.
    apply search_matches in Hs as (pre & s & post & -> & Hden).
    apply matches_fingerprint in Hden
      as (n & ip' & mid & fp' & -> & Hn & Hip & Hmid & Hlen & Hfp & ->).
    injection Hm as <- <-. split_and!; try done. by exists pre, n, mid, post.
  - intros pre n ip mid fp post Hn Hip Hmid Hlen Hfp.
    unfold client_fingerprint. apply fmap_is_Some, search_is_Some.
    eexists pre, _, post, _. split; [reflexivity|].
    apply matches_fingerprint. by exists n, ip, mid, fp.
Qed.

Lemma fingerprint_capture_witness :
  (String.length "ec:73:78:c1:a9:2f:5a:8d:de:7e:8b" = 32
   /\ all_chars is_hex_colon "ec:73:78:c1:a9:2f:5a:8d:de:7e:8b" = true
   /\ dotted_quad "10.0.0.7"
   /\ exists pre n mid post,
       hassh_line "10.0.0.7" "ec:73:78:c1:a9:2f:5a:8d:de:7e:8b:7a:1d:df:33:d1"
       = pre +:+ "[HoneyPotSSHTransport," +:+ n +:+ "," +:+ "10.0.0.7" +:+ "]" +:+ mid
         +:+ "SSH client hassh fingerprint: " +:+ "ec:73:78:c1:a9:2f:5a:8d:de:7e:8b"
         +:+ post
       /\ run_of is_digit n /\ all_chars dot mid = true)
  /\ is_Some (client_fingerprint
                ("" +:+ "[HoneyPotSSHTransport," +:+ "3" +:+ "," +:+ "8.8.8.8" +:+ "]"
                 +:+ " " +:+ "SSH client hassh fingerprint: "
                 +:+ "ec7378c1a92f5a8dde7e8b7a1ddf33d1" +:+ nl)).
Proof.
  destruct fingerprint_capture as [Hsound Hcomplete]. split.
  - apply Hsound. vm_compute. reflexivity.
  - apply Hcomplete; try reflexivity.
    + split; [discriminate | reflexivity].
    + exists "8", "8", "8", "8". repeat split; discriminate.
Defined.

(** X4.  A successful-login event carries a non-empty user name without [/]
    and a non-empty password without []]: the bracketed pair is split at its
    first [/], so a [/] inside the password is kept.  The pair follows
    [login attempt [] after a transport marker on the same line and is
    followed by [] succeeded]; every line of that form yields an event. *)
Theorem success_login_capture :
  (forall line user pw ip,
      success_login line = Some ((user, pw), ip) ->
      run_of (other_than "/") user /\ run_of (other_than "]") pw /\ dotted_quad ip
      /\ exists pre n mid post,
          line = pre +:+ "[HoneyPotSSHTransport," +:+ n +:+ "," +:+ ip +:+ "]" +:+ mid
                 +:+ "login attempt [" +:+ user +:+ "/" +:+ pw +:+ "] succeeded" +:+ post
          /\ run_of is_digit n /\ all_chars dot mid = true)
  /\ (forall pre n ip mid user pw post,
      run_of is_digit n -> dotted_quad ip -> all_chars dot mid = true ->
      run_of (other_than "/") user -> run_of (other_than "]") pw ->
      is_Some (success_login
                 (pre +:+ "[HoneyPotSSHTransport," +:+ n +:+ "," +:+ ip +:+ "]" +:+ mid
                  +:+ "login attempt [" +:+ user +:+ "/" +:+ pw +:+ "] succeeded"
                  +:+ post))).
Proof.
  split.
  - intros line user pw ip. unfold success_login.
    destruct (search SUCCESS_LOGIN_PATTERN line) as [m|] eqn:Hs; [|done].
    intros Hm.
    apply search_matches in Hs as (pre & s & post & -> & Hden).
    apply matches_success_login in Hden
      as (n & ip' & mid & user' & pw' & -> & Hn & Hip & Hmid & Huser & Hpw & ->).
    injection Hm as <- <- <-. split_and!; try done. by exists pre, n, mid, post.
  - intros pre n ip mid user pw post Hn Hip Hmid Huser Hpw.
    unfold success_login. apply fmap_is_Some, search_is_Some.
    eexists pre, _, post, _. split; [reflexivity|].
    apply matches_success_login. by exists n, ip, mid, user, pw.
Qed.

Lemma success_login_capture_witness :
  (run_of (other_than "/") "root" /\ run_of (other_than "]") "ad/min"
   /\ dotted_quad "8.8.8.8"
   /\ exists pre n mid post,
       success_line "8.8.8.8" "root" "ad/min"
       = pre +:+ "[HoneyPotSSHTransport," +:+ n +:+ "," +:+ "8.8.8.8" +:+ "]" +:+ mid
         +:+ "login attempt [" +:+ "root" +:+ "/" +:+ "ad/min" +:+ "] succeeded" +:+ post
       /\ run_of is_digit n /\ all_chars dot mid = true)
  /\ is_Some (success_login
                ("x" +:+ "[HoneyPotSSHTransport," +:+ "3" +:+ "," +:+ "8.8.8.8" +:+ "]"
                 +:+ " " +:+ "login attempt [" +:+ "a" +:+ "/" +:+ "b"
                 +:+ "] succeeded" +:+ nl)).
Proof.
  destruct success_login_capture as [Hsound Hcomplete]. split.
  - apply Hsound. vm_compute. reflexivity.
  - apply Hcomplete; try reflexivity.
    + split; [discriminate | reflexivity].
    + exists "8", "8", "8", "8". repeat split; discriminate.
    + split; [discriminate | reflexivity].
    + split; [discriminate | reflexivity].
Defined.

(** ** Shell commands *)
Section cmd_facts.

Lemma rep_greedy_total p s g k :
  (forall s', is_Some (k s' g)) -> rep_greedy p s g k = k (drop_run p s) g.
Proof.
  intros Hk. induction s as [|c s IH]; cbn [rep_greedy drop_run]; [done|].
  destruct (p c); [|done]. rewrite IH. by destruct (Hk (drop_run p s)) as [m ->].
Qed.

Lemma consumed_take_run p c (s : string) :
  consumed (String c s) (drop_run p s) = String c (take_run p s).
Proof.
  rewrite <- (take_drop_run p s) at 1.
  rewrite <- app_String. apply consumed_app.
Qed.

(** [CMD_PATTERN] matched at the start of a text. *)
Lemma match_here_cmd s :
  match_here CMD_PATTERN s
  = match strip_prefix "CMD: " s with
    | Some (String c s2) =>
        if dot c then Some [("cmd", String c (take_run dot s2))] else None
    | _ => None
    end.
Proof.
  unfold match_here, CMD_PATTERN, plus. cbn [cat run].
  destruct (strip_prefix "CMD: " s) as [[|c s2]|]; [done | | done].
  destruct (dot c); [|done].
  rewrite rep_greedy_total by done. by rewrite consumed_take_run.
Qed.

Lemma drop_run_dot_rest (s : string) :
  drop_run dot s = "" \/ exists r, drop_run dot s = nl +:+ r.
Proof.
  induction s as [|c s IH]; cbn [drop_run]; [by left|].
  destruct (dot c) eqn:Hc; [done|]. right. exists s.
  unfold dot in Hc. apply negb_false_iff, Ascii.eqb_eq in Hc. by subst.
Qed.

Lemma take_run_all p (raw rest : string) :
  all_chars p raw = true -> (rest = "" \/ exists c r, rest = String c r /\ p c = false) ->
  take_run p (raw +:+ rest) = raw.
Proof.
  intros Hraw Hrest. induction raw as [|c raw IH]; str_simpl.
  - destruct Hrest as [->|(c & r & -> & Hc)]; cbn [take_run]; [done | by rewrite Hc].
  - str_simpl_in Hraw. apply andb_prop in Hraw as [Hc Hraw]. by rewrite Hc, IH.
Qed.

Lemma cmd_needs_C c x :
  other_than "C" c = true -> match_here CMD_PATTERN (String c x) = None.
Proof.
  unfold other_than. intros Hc%negb_true_iff. rewrite match_here_cmd.
  cbn [strip_prefix]. rewrite Ascii.eqb_sym in Hc. by rewrite Hc.
Qed.

Lemma lstrip_head (s : string) :
  Fmt.lstrip s = "" \/ exists c t, Fmt.lstrip s = String c t /\ Fmt.is_py_space c = false.
Proof.
  induction s as [|c s IH]; cbn [Fmt.lstrip]; [by left|].
  destruct (Fmt.is_py_space c) eqn:Hc; [done|]. right. by exists c, s.
Qed.

Lemma rstrip_rstrip (s : string) : Fmt.rstrip (Fmt.rstrip s) = Fmt.rstrip s.
Proof.
  induction s as [|c s IH]; cbn [Fmt.rstrip]; [done|].
  destruct (Fmt.rstrip s) as [|c' t] eqn:Hr.
  - destruct (Fmt.is_py_space c) eqn:Hc; cbn [Fmt.rstrip]; [done | by rewrite Hc].
  - cbn [Fmt.rstrip] in *. by rewrite IH.
Qed.

Lemma rstrip_keeps_head c (t : string) :
  Fmt.is_py_space c = false -> exists t', Fmt.rstrip (String c t) = String c t'.
Proof.
  intros Hc. cbn [Fmt.rstrip]. destruct (Fmt.rstrip t); [rewrite Hc|]; by eexists.
Qed.

Lemma strip_strip (s : string) : Fmt.strip (Fmt.strip s) = Fmt.strip s.
Proof.
  unfold Fmt.strip. destruct (lstrip_head s) as [->|(c & t & -> & Hc)]; [done|].
  destruct (rstrip_keeps_head c t Hc) as [t' Ht']. rewrite Ht' at 1.
  cbn [Fmt.lstrip]. rewrite Hc, <- Ht'. apply rstrip_rstrip.
Qed.
End cmd_facts.

(** X5.  The shell command of a line is the text after [CMD: ] up to the end
    of the line (the first newline), stripped of surrounding whitespace; that
    text is not empty before stripping.  When nothing before [CMD: ] contains
    a [C], the command is the one that follows that first [CMD: ]. *)
Theorem shell_command_capture :
  (forall line cmd,
      shell_command line = Some cmd ->
      exists pre raw rest,
        line = pre +:+ "CMD: " +:+ raw +:+ rest
        /\ run_of dot raw /\ (rest = "" \/ exists r, rest = nl +:+ r)
        /\ cmd = Fmt.strip raw)
  /\ (forall pre raw rest,
      all_chars (other_than "C") pre = true -> run_of dot raw ->
      (rest = "" \/ exists r, rest = nl +:+ r) ->
      shell_command (pre +:+ "CMD: " +:+ raw +:+ rest) = Some (Fmt.strip raw)).
Proof.
  split.
  - intros line cmd. unfold shell_command.
    destruct (search CMD_PATTERN line) as [m|] eqn:Hs; [|done]. intros [= <-].
    apply search_here in Hs as (pre & s & -> & Hm). rewrite match_here_cmd in Hm.
    destruct (strip_prefix "CMD: " s) as [[|c s2]|] eqn:Hp; try done.
    destruct (dot c) eqn:Hc; [|done]. injection Hm as <-.
    apply strip_prefix_Some in Hp as ->.
    exists pre, (String c (take_run dot s2)), (drop_run dot s2). split_and!.
    + rewrite (app_String c), take_drop_run. done.
    + split; [done|]. cbn [all_chars]. by rewrite Hc, all_chars_take_run.
    + apply drop_run_dot_rest.
    + reflexivity.
  - intros pre raw rest Hpre [Hne Hraw] Hrest. unfold shell_command.
    rewrite (search_skip _ (other_than "C") pre) by (done || apply cmd_needs_C).
    destruct raw as [|c raw]; [done|]. cbn [all_chars] in Hraw.
    apply andb_prop in Hraw as [Hc Hraw].
    rewrite (match_here_Some_search _ _ [("cmd", String c raw)]); [done|].
    rewrite match_here_cmd, strip_prefix_app, app_String, Hc.
    rewrite take_run_all; [done | done |].
    destruct Hrest as [->|[r ->]]; [by left | right]. by exists "010"%char, r.
Qed.

Lemma shell_command_capture_witness :
  (exists pre raw rest,
      cmd_line_of "  uname -a  " = pre +:+ "CMD: " +:+ raw +:+ rest
      /\ run_of dot raw /\ (rest = "" \/ exists r, rest = nl +:+ r)
      /\ "uname -a" = Fmt.strip raw)
  /\ shell_command ("[HoneyPotSSHTransport,7,10.0.0.7] " +:+ "CMD: " +:+ " ls  " +:+ nl)
     = Some (Fmt.strip " ls  ").
Proof.
  destruct shell_command_capture as [Hsound Hexact]. split.
  - apply Hsound. vm_compute. reflexivity.
  - apply Hexact.
    + reflexivity.
    + split; [discriminate | reflexivity].
    + right. by exists "".
Defined.

(** ** Invariants of the aggregates *)
Section aggregate_facts.
Context {K : Type} `{EqDecision K}.

Lemma sum_incr (k : K) c : sum_list (Counter.incr k c).*2 = S (sum_list c.*2).
Proof.
  unfold Counter.incr, Counter.getitem.
  induction c as [|[k0 v0] c IH]; csimpl; [done|].
  case_decide; csimpl; [lia|]. rewrite IH. lia.
Qed.

Lemma count_loop_total (ev : string -> option K) (lines : list string) c :
  sum_list (fold_left (count_step ev) lines c).*2
  = sum_list c.*2 + length (filter (fun l => is_Some (ev l)) lines).
Proof.
  revert c. induction lines as [|l lines IH]; intros c; csimpl; [lia|].
  rewrite IH, filter_cons. unfold count_step. destruct (ev l) eqn:Hev.
  - rewrite sum_incr. rewrite decide_True by done. csimpl. lia.
  - rewrite decide_False by (by intros [? ?]). lia.
Qed.

Lemma count_loop_key_origin (ev : string -> option K) (lines : list string) k :
  k ∈ Dict.keys (fold_left (count_step ev) lines [])
  <-> exists l, l ∈ lines /\ ev l = Some k.
Proof. by rewrite keys_count_loop_nil, elem_of_first_seen, list_elem_of_omap. Qed.

Lemma count_loop_keys_Forall (ev : string -> option K) (P : K -> Prop)
    (lines : list string) :
  (forall l k, ev l = Some k -> P k) ->
  Forall (fun it => P it.1 /\ 0 < it.2) (fold_left (count_step ev) lines []).
Proof.
  intros HP. apply Forall_forall. intros [k n] Hin. csimpl. split.
  - assert (k ∈ Dict.keys (fold_left (count_step ev) lines [])) as Hk.
    { unfold Dict.keys. apply list_elem_of_fmap. by exists (k, n). }
    apply count_loop_key_origin in Hk as (l & _ & Hl). by eapply HP.
  - by apply counter_entry_count in Hin as [? _].
Qed.

Lemma positive_length_le_sum (c : list (K * nat)) :
  Forall (fun it => 0 < it.2) c -> length c <= sum_list c.*2.
Proof.
  induction 1 as [|[k n] c Hn _ IH]; csimpl in *; lia.
Qed.
End aggregate_facts.

Lemma shell_command_stripped line cmd : shell_command line = Some cmd -> Fmt.strip cmd = cmd.
Proof.
  unfold shell_command. destruct (search CMD_PATTERN line); [|done].
  intros [= <-]. apply strip_strip.
Qed.

Lemma failed_login_ip_dotted line ip : failed_login_ip line = Some ip -> dotted_quad ip.
Proof.
  unfold failed_login_ip.
  destruct (search FAILED_LOGIN_PATTERN line) as [m|] eqn:Hs; [|done]. intros [= <-].
  apply search_matches in Hs as (pre & s & post & -> & Hden).
  by apply matches_failed_login in Hden as (n & ip & mid & u & p & -> & _ & Hip & _ & _ & _ & ->).
Qed.

(** X6.  The top-commands counter holds, for every command text, the number of
    lines whose stripped command is that text.  Its keys are distinct and
    carry no surrounding whitespace, every count is positive, the counts add
    up to the number of lines that contain a command, and there are no more
    rows than such lines. *)
Theorem top_commands_counter_invariants :
  forall lines,
    (forall cmd, Counter.getitem (top_commands_counter lines) cmd
                 = occurrences shell_command lines cmd)
    /\ NoDup (Dict.keys (top_commands_counter lines))
    /\ Forall (fun it => Fmt.strip it.1 = it.1 /\ 0 < it.2) (top_commands_counter lines)
    /\ sum_list (top_commands_counter lines).*2
       = length (filter (fun l => is_Some (shell_command l)) lines)
    /\ length (top_commands_rows lines)
       <= length (filter (fun l => is_Some (shell_command l)) lines).
Proof.
  intros lines. unfold top_commands_rows, counter_items.
  rewrite sorted_desc_Permutation, top_commands_counter_eq.
  pose proof (count_loop_keys_Forall shell_command _ lines shell_command_stripped) as Hall.
  pose proof (count_loop_total shell_command lines []) as Hsum. csimpl in Hsum.
  split_and!.
  - intros cmd. by rewrite getitem_count_loop.
  - apply NoDup_keys_count_loop.
  - done.
  - done.
  - rewrite <- Hsum. apply positive_length_le_sum.
    eapply Forall_impl; [exact Hall|]. by intros it [_ ?].
Qed.

(** X7.  The failed-logins counter has distinct keys, each a dotted quad of
    digit runs, and positive counts that add up to the number of lines with a
    failed-login event.  The filtered counter keeps these properties and its
    counts add up to no more than that number; with a minimum of at most 1
    nothing is filtered out. *)
Theorem failed_logins_counter_invariants :
  forall lines min_count,
    NoDup (Dict.keys (failed_logins_counter lines))
    /\ Forall (fun it => dotted_quad it.1 /\ 0 < it.2) (failed_logins_counter lines)
    /\ sum_list (failed_logins_counter lines).*2
       = length (filter (fun l => is_Some (failed_login_ip l)) lines)
    /\ NoDup (Dict.keys (failed_logins_filtered lines min_count))
    /\ Forall (fun it => dotted_quad it.1 /\ 0 < it.2)
         (failed_logins_filtered lines min_count)
    /\ sum_list (failed_logins_filtered lines min_count).*2
       <= length (filter (fun l => is_Some (failed_login_ip l)) lines)
    /\ ((min_count <= 1)%Z ->
        failed_logins_filtered lines min_count = failed_logins_counter lines).
Proof.
  intros lines min_count. unfold failed_logins_filtered, counts_at_least.
  rewrite failed_logins_counter_eq.
  pose proof (count_loop_keys_Forall failed_login_ip _ lines failed_login_ip_dotted) as Hall.
  pose proof (count_loop_total failed_login_ip lines []) as Hsum. csimpl in Hsum.
  pose proof (NoDup_keys_count_loop failed_login_ip lines) as Hnd.
  split_and!; try done.
  - unfold Dict.keys in *. eapply sublist_NoDup; [exact Hnd|].
    apply fmap_sublist, sublist_filter.
  - apply Forall_forall. intros it [_ Hin]%list_elem_of_filter.
    rewrite Forall_forall in Hall. auto.
  - rewrite <- Hsum. generalize (fold_left (count_step failed_login_ip) lines []).
    intros c. induction c as [|[k n] c IH]; csimpl; [lia|].
    rewrite filter_cons. case_decide; csimpl; lia.
  - intros Hmin. apply filter_all. eapply Forall_impl; [exact Hall|].
    intros it [_ ?]. lia.
Qed.

Lemma failed_logins_counter_invariants_witness :
  failed_logins_filtered [failed_line "1.2.3.4"; failed_line "5.6.7.8"] 0
  = failed_logins_counter [failed_line "1.2.3.4"; failed_line "5.6.7.8"].
Proof.
  apply (failed_logins_counter_invariants
           [failed_line "1.2.3.4"; failed_line "5.6.7.8"] 0).
  lia.
Defined.

(** ** New-connection events *)
Section new_conn_facts.

Lemma matches_timestamp s s' g g' :
  matches timestamp s s' g g'
  <-> exists ts, s = ts +:+ s' /\ timestamp_text ts /\ g' = g.
Proof.
  unfold timestamp, timestamp_text, digits. cbn [cat]. cbn [matches].
  setoid_rewrite matches_times_OneOf. setoid_rewrite matches_plus. split.
  - intros (s1 & g1 & (y & -> & Hy & Hyd & ->) & s2 & g2 & [-> ->]
            & s3 & g3 & (mo & -> & Hmo & Hmod & ->) & s4 & g4 & [-> ->]
            & s5 & g5 & (d & -> & Hd & Hdd & ->) & s6 & g6 & [-> ->]
            & s7 & g7 & (h & -> & Hh & Hhd & ->) & s8 & g8 & [-> ->]
            & s9 & g9 & (mi & -> & Hmi & Hmid & ->) & s10 & g10 & [-> ->]
            & s11 & g11 & (se & -> & Hse & Hsed & ->) & Hopt).
    destruct Hopt as [(sa & ga & [-> ->] & f & -> & Hf & ->) | [-> ->]].
    + exists (y +:+ "-" +:+ mo +:+ "-" +:+ d +:+ "T" +:+ h +:+ ":" +:+ mi +:+ ":"
              +:+ se +:+ "." +:+ f).
      split_and!; [rewrite !app_assoc_s; str_simpl; reflexivity | | done].
      exists y, mo, d, h, mi, se, ("." +:+ f). split_and!; try done.
      right. by exists f.
    + exists (y +:+ "-" +:+ mo +:+ "-" +:+ d +:+ "T" +:+ h +:+ ":" +:+ mi +:+ ":"
              +:+ se +:+ "").
      split_and!; [rewrite !app_assoc_s; str_simpl; reflexivity | | done].
      exists y, mo, d, h, mi, se, "". split_and!; try done. by left.
  - intros (ts & -> & (y & mo & d & h & mi & se & frac & -> & [Hy Hyd] & [Hmo Hmod]
                       & [Hd Hdd] & [Hh Hhd] & [Hmi Hmid] & [Hse Hsed] & Hfrac) & ->).
    rewrite !app_assoc_s. str_simpl.
    eexists _, _. split; [exists y; split_and!; [reflexivity | done..]|].
    eexists _, _. split; [split; reflexivity|].
    eexists _, _. split; [exists mo; split_and!; [reflexivity | done..]|].
    eexists _, _. split; [split; reflexivity|].
    eexists _, _. split; [exists d; split_and!; [reflexivity | done..]|].
    eexists _, _. split; [split; reflexivity|].
    eexists _, _. split; [exists h; split_and!; [reflexivity | done..]|].
    eexists _, _. split; [split; reflexivity|].
    eexists _, _. split; [exists mi; split_and!; [reflexivity | done..]|].
    eexists _, _. split; [split; reflexivity|].
    eexists _, _. split; [exists se; split_and!; [reflexivity | done..]|].
    destruct Hfrac as [-> | (f & -> & Hf)].
    + right. str_simpl. done.
    + left. rewrite !app_assoc_s. str_simpl.
      eexists _, _. split; [split; reflexivity|].
      exists f. split_and!; [reflexivity | done..].
Qed.

Lemma matches_new_conn s s' g' :
  matches NEW_CONN_PATTERN s s' [] g'
  <-> exists ts ip port,
      s = new_conn_text ts ip port +:+ s'
      /\ timestamp_text ts /\ dotted_quad ip /\ run_of is_digit port
      /\ g' = [("ts", ts); ("ip", ip)].
Proof.
  unfold NEW_CONN_PATTERN, new_conn_text. cbn [cat]. cbn [matches].
  setoid_rewrite matches_timestamp. setoid_rewrite matches_ipv4.
  setoid_rewrite matches_plus. split.
  - intros (s1 & g1 & (g2 & (ts & -> & Hts & ->) & ->) & s3 & g3 & [-> ->]
            & s4 & g4 & [-> ->] & s5 & g5 & (g6 & (ip & -> & Hip & ->) & ->)
            & s7 & g7 & [-> ->] & port & -> & Hport & ->).
    exists ts, ip, port. rewrite !consumed_app. split_and!; try done.
    rewrite !app_assoc_s. str_simpl. reflexivity.
  - intros (ts & ip & port & -> & Hts & Hip & Hport & ->).
    rewrite !app_assoc_s. str_simpl.
    eexists _, _. split.
    { eexists. split; [exists ts; split_and!; [reflexivity | done..]|]. reflexivity. }
    eexists _, _. split; [split; reflexivity|].
    eexists _, _. split; [split; reflexivity|].
    eexists _, _. split.
    { eexists. split; [exists ip; split_and!; [reflexivity | done..]|]. reflexivity. }
    eexists _, _. split; [split; reflexivity|].
    exists port. rewrite !consumed_app. split_and!; [reflexivity | done..].
Qed.
End new_conn_facts.

Section timestamp_facts.

Lemma digits_2 s :
  digits 2 s -> exists a b, s = String a (String b "") /\ is_digit a = true /\ is_digit b = true.
Proof.
  intros [Hlen Hd]. destruct s as [|a [|b [|? ?]]]; try discriminate Hlen.
  cbn [all_chars] in Hd. apply andb_prop in Hd as [Ha [Hb _]%andb_prop]. by exists a, b.
Qed.

Lemma digits_4 s :
  digits 4 s ->
  exists a b c d, s = String a (String b (String c (String d "")))
    /\ is_digit a = true /\ is_digit b = true /\ is_digit c = true /\ is_digit d = true.
Proof.
  intros [Hlen Hd]. destruct s as [|a [|b [|c [|d [|? ?]]]]]; try discriminate Hlen.
  cbn [all_chars] in Hd.
  apply andb_prop in Hd as [Ha Hd]. apply andb_prop in Hd as [Hb Hd].
  apply andb_prop in Hd as [Hc Hd]. apply andb_prop in Hd as [Hd _].
  by exists a, b, c, d.
Qed.

(** A timestamp is 19 characters of the shape [dddd-dd-ddTdd:dd:dd] and an
    optional fraction. *)
Lemma timestamp_text_split ts :
  timestamp_text ts ->
  exists sec frac,
    ts = sec +:+ frac /\ String.length sec = 19 /\ ts_shape sec = true
    /\ (frac = "" \/ exists f, frac = "." +:+ f /\ run_of is_digit f).
Proof.
  intros (y & mo & d & h & mi & se & frac & -> & Hy & Hmo & Hd & Hh & Hmi & Hse & Hfrac).
  apply digits_4 in Hy as (y1 & y2 & y3 & y4 & -> & ? & ? & ? & ?).
  apply digits_2 in Hmo as (m1 & m2 & -> & ? & ?).
  apply digits_2 in Hd as (d1 & d2 & -> & ? & ?).
  apply digits_2 in Hh as (h1 & h2 & -> & ? & ?).
  apply digits_2 in Hmi as (n1 & n2 & -> & ? & ?).
  apply digits_2 in Hse as (s1 & s2 & -> & ? & ?).
  exists (String y1 (String y2 (String y3 (String y4 (String "-" (String m1 (String m2
           (String "-" (String d1 (String d2 (String "T" (String h1 (String h2
           (String ":" (String n1 (String n2 (String ":" (String s1 (String s2
           ""))))))))))))))))))), frac.
  split_and!; [by str_simpl | done | | done].
  unfold ts_shape. cbn [list_ascii_of_string forallb].
  repeat match goal with
         | H : is_digit _ = true |- _ => rewrite H; clear H
         end.
  reflexivity.
Qed.

Lemma substring_0_app (t s : string) n :
  String.length t = n -> substring 0 n (t +:+ s) = t.
Proof. intros <-. apply substring_0_length_app. Qed.

Lemma app_inj_length (a a' b b' : string) :
  String.length a = String.length a' -> a +:+ b = a' +:+ b' -> a = a' /\ b = b'.
Proof.
  revert a'. induction a as [|c a IH]; intros [|c' a']; str_simpl; try done.
  intros [= Hlen] [= -> Heq]. by destruct (IH _ Hlen Heq) as [-> ->].
Qed.

Lemma strptime_shape s :
  ts_shape s = true ->
  strptime s = if valid (timestamp_fields s) then Some (timestamp_fields s) else None.
Proof.
  unfold ts_shape, strptime, timestamp_fields.
  destruct (list_ascii_of_string s)
    as [|y1 [|y2 [|y3 [|y4 [|p1 [|m1 [|m2 [|p2 [|d1 [|d2 [|p3 [|h1 [|h2 [|p4
        [|n1 [|n2 [|p5 [|s1 [|s2 [|x l]]]]]]]]]]]]]]]]]]]]; try discriminate.
  intros Hshape.
  repeat match goal with
         | H : (_ && _)%bool = true |- _ => apply andb_prop in H as [H ?]
         end.
  repeat match goal with
         | H : _ = true |- _ => rewrite H; clear H
         end.
  reflexivity.
Qed.

Lemma new_conn_ts_split line ts :
  new_conn_ts line = Some ts ->
  timestamp_text ts
  /\ exists pre ip port post,
      line = pre +:+ new_conn_text ts ip port +:+ post
      /\ dotted_quad ip /\ run_of is_digit port.
Proof.
  unfold new_conn_ts.
  destruct (search NEW_CONN_PATTERN line) as [m|] eqn:Hs; [|done]. intros [= <-].
  apply search_matches in Hs as (pre & s & post & -> & Hden).
  apply matches_new_conn in Hden as (ts & ip & port & -> & Hts & Hip & Hport & ->).
  split; [done|]. by exists pre, ip, port, post.
Qed.

Lemma new_conn_needs_digit c x :
  not_digit c = true -> match_here NEW_CONN_PATTERN (String c x) = None.
Proof.
  unfold not_digit. intros Hc%negb_true_iff.
  unfold match_here, NEW_CONN_PATTERN, timestamp. cbn [cat run times].
  by rewrite Hc.
Qed.

Lemma frac_unique (frac frac' x x' : string) :
  (frac = "" \/ exists f, frac = "." +:+ f /\ run_of is_digit f) ->
  (frac' = "" \/ exists f, frac' = "." +:+ f /\ run_of is_digit f) ->
  frac +:+ String "Z" x = frac' +:+ String "Z" x' -> frac = frac' /\ x = x'.
Proof.
  intros [->|(f & -> & [_ Hf])] [->|(f' & -> & [_ Hf'])]; str_simpl; try done.
  - by intros [= ->].
  - intros [= Heq].
    apply (run_split_unique is_digit) in Heq as [-> [= ->]]; done.
Qed.

Lemma new_conn_here ts ip port post :
  timestamp_text ts -> dotted_quad ip -> run_of is_digit port ->
  match_here NEW_CONN_PATTERN (new_conn_text ts ip port +:+ post)
  = Some [("ts", ts); ("ip", ip)].
Proof.
  intros Hts Hip Hport.
  assert (is_Some (match_here NEW_CONN_PATTERN (new_conn_text ts ip port +:+ post)))
    as [m Hm].
  { eapply run_finds; [|done]. apply matches_new_conn. by exists ts, ip, port. }
  rewrite Hm. f_equal.
  apply run_matches in Hm as (s' & g' & Hden & [= ->]).
  apply matches_new_conn in Hden as (ts' & ip' & port' & Heq & Hts' & Hip' & _ & ->).
  apply timestamp_text_split in Hts as (sec & frac & -> & Hlen & _ & Hfrac).
  apply timestamp_text_split in Hts' as (sec' & frac' & -> & Hlen' & _ & Hfrac').
  unfold new_conn_text in Heq. rewrite !app_assoc_s in Heq. str_simpl_in Heq.
  apply app_inj_length in Heq as [-> Heq]; [|congruence].
  apply frac_unique in Heq as [-> Heq]; [|done..].
  apply (app_inv_head_s " [cowrie.ssh.factory.CowrieSSHFactory] New connection: ") in Heq.
  apply (run_split_unique is_addr_char) in Heq as [-> _];
    auto using dotted_quad_addr_chars.
Qed.
End timestamp_facts.

(** X8.  A line yields a new-connection event exactly when it contains a
    timestamp [dddd-dd-ddTdd:dd:dd] with an optional fraction of a second,
    directly followed by [Z], the factory's phrase, a dotted quad, a colon and
    a port number; the captured timestamp is that text with its fraction and
    without the [Z].  When no digit precedes it on the line, the timestamp
    captured is the one that starts the event. *)
Theorem new_conn_grammar :
  (forall line ts,
      new_conn_ts line = Some ts ->
      timestamp_text ts
      /\ exists pre ip port post,
          line = pre +:+ new_conn_text ts ip port +:+ post
          /\ dotted_quad ip /\ run_of is_digit port)
  /\ (forall pre ts ip port post,
      timestamp_text ts -> dotted_quad ip -> run_of is_digit port ->
      is_Some (new_conn_ts (pre +:+ new_conn_text ts ip port +:+ post)))
  /\ (forall pre ts ip port post,
      all_chars not_digit pre = true ->
      timestamp_text ts -> dotted_quad ip -> run_of is_digit port ->
      new_conn_ts (pre +:+ new_conn_text ts ip port +:+ post) = Some ts).
Proof.
  split_and!.
  - apply new_conn_ts_split.
  - intros pre ts ip port post Hts Hip Hport.
    unfold new_conn_ts. apply fmap_is_Some, search_is_Some.
    eexists pre, _, post, _. split; [reflexivity|].
    apply matches_new_conn. by exists ts, ip, port.
  - intros pre ts ip port post Hpre Hts Hip Hport. unfold new_conn_ts.
    rewrite (search_skip _ not_digit pre) by (done || apply new_conn_needs_digit).
    rewrite (match_here_Some_search _ _ [("ts", ts); ("ip", ip)]); [done|].
    by apply new_conn_here.
Qed.

Lemma new_conn_grammar_witness :
  new_conn_ts ("# " +:+ new_conn_text "2023-01-01T10:15:02.5" "10.0.0.7" "51234" +:+ " (x)")
  = Some "2023-01-01T10:15:02.5".
Proof.
  apply new_conn_grammar.
  - reflexivity.
  - exists "2023", "01", "01", "10", "15", "02", ".5".
    split_and!; try (split; reflexivity). right. exists "5".
    split; [reflexivity|]. split; [discriminate | reflexivity].
  - exists "10", "0", "0", "7". repeat split; discriminate.
  - split; [discriminate | reflexivity].
Defined.

(** ** The two alphabets

    On lines of code points below 256 the Unicode model of the connections
    loop coincides with the model that the tasks above are written in. *)
Section latin1_facts.

Lemma length_of_string s : length (Unicode.of_string s) = String.length s.
Proof. induction s as [|c s IH]; [done|]. rewrite of_string_String. csimpl. by rewrite IH. Qed.

Lemma N_of_ascii_eqb a b : (N_of_ascii a =? N_of_ascii b)%N = Ascii.eqb a b.
Proof.
  destruct (Ascii.eqb_spec a b) as [->|Hne]; [apply N.eqb_refl|].
  apply N.eqb_neq. intros Heq. apply Hne.
  by rewrite <- (ascii_N_embedding a), <- (ascii_N_embedding b), Heq.
Qed.

Lemma strip_prefix_of_string t s :
  Unicode.strip_prefix (Unicode.of_string t) (Unicode.of_string s)
  = Unicode.of_string <$> strip_prefix t s.
Proof.
  revert s. induction t as [|a t IH]; intros [|b s]; try done.
  rewrite !of_string_String. cbn [Unicode.strip_prefix strip_prefix].
  rewrite N_of_ascii_eqb. destruct (Ascii.eqb a b); [apply IH | done].
Qed.

Lemma consumed_of_string s s' :
  Unicode.consumed (Unicode.of_string s) (Unicode.of_string s')
  = Unicode.of_string (consumed s s').
Proof.
  unfold Unicode.consumed, consumed.
  by rewrite of_string_substring, drop_0, !length_of_string.
Qed.

Lemma set_group_of_groups n t g :
  Unicode.set_group n (Unicode.of_string t) (Unicode.of_groups g) = Unicode.of_groups (set_group n t g).
Proof.
  induction g as [|[n' t'] g IH]; [done|].
  unfold Unicode.of_groups in *. csimpl. destruct (String.eqb n' n); csimpl; [done|].
  by rewrite IH.
Qed.

Lemma group_of_groups n g :
  Unicode.group n (Unicode.of_groups g) = Unicode.of_string (group n g).
Proof.
  induction g as [|[n' t'] g IH]; [done|].
  unfold Unicode.of_groups in *. csimpl. by destruct (String.eqb n' n).
Qed.

Section same_class.
Context (p : ascii -> bool) (P : N -> bool) (HP : forall c, P (N_of_ascii c) = p c).

Lemma rep_greedy_of_string s g k K :
  (forall s' g', K (Unicode.of_string s') (Unicode.of_groups g') = Unicode.of_groups <$> k s' g') ->
  Unicode.rep_greedy P (Unicode.of_string s) (Unicode.of_groups g) K
  = Unicode.of_groups <$> rep_greedy p s g k.
Proof.
  intros HK. induction s as [|c s IH]; [apply (HK "")|].
  rewrite of_string_String. cbn [Unicode.rep_greedy rep_greedy].
  rewrite HP. destruct (p c).
  - rewrite IH. destruct (rep_greedy p s g k); [done|].
    csimpl. rewrite <- of_string_String. apply HK.
  - rewrite <- of_string_String. apply HK.
Qed.

Lemma rep_lazy_of_string s g k K :
  (forall s' g', K (Unicode.of_string s') (Unicode.of_groups g') = Unicode.of_groups <$> k s' g') ->
  Unicode.rep_lazy P (Unicode.of_string s) (Unicode.of_groups g) K
  = Unicode.of_groups <$> rep_lazy p s g k.
Proof.
  intros HK. induction s as [|c s IH].
  - pose proof (HK "" g) as H0. change (Unicode.of_string "") with (@nil N) in *.
    cbn [Unicode.rep_lazy rep_lazy]. rewrite H0.
    by destruct (k "" g).
  - pose proof (HK (String c s) g) as H0. rewrite of_string_String in *.
    cbn [Unicode.rep_lazy rep_lazy]. rewrite H0.
    destruct (k (String c s) g); [done|]. csimpl.
    rewrite HP. destruct (p c); [apply IH | done].
Qed.
End same_class.

Lemma run_of_string r R :
  Unicode.same_pattern r R ->
  forall s g k K,
    (forall s' g', K (Unicode.of_string s') (Unicode.of_groups g') = Unicode.of_groups <$> k s' g') ->
    Unicode.run R (Unicode.of_string s) (Unicode.of_groups g) K = Unicode.of_groups <$> run r s g k.
Proof.
  induction 1 as [t|p P HP|r1 R1 r2 R2 _ IH1 _ IH2|b p P HP|r R _ IH|n r R _ IH];
    intros s g k K HK; cbn [Unicode.run run].
  - rewrite strip_prefix_of_string. destruct (strip_prefix t s); csimpl; [apply HK | done].
  - destruct s as [|c s]; [done|]. rewrite of_string_String, HP.
    destruct (p c); [apply HK | done].
  - apply IH1. intros s' g'. by apply IH2.
  - destruct b; [by apply rep_greedy_of_string | by apply rep_lazy_of_string].
  - rewrite (IH s g k K HK). destruct (run r s g k); [done|]. csimpl. apply HK.
  - apply IH. intros s' g'.
    rewrite consumed_of_string, set_group_of_groups. apply HK.
Qed.

Lemma search_of_string r R s :
  Unicode.same_pattern r R ->
  Unicode.search R (Unicode.of_string s) = Unicode.of_groups <$> search r s.
Proof.
  intros Hsame.
  assert (forall s, Unicode.match_here R (Unicode.of_string s)
                    = Unicode.of_groups <$> match_here r s) as Hhere.
  { intros s0. unfold Unicode.match_here, match_here.
    change (@nil (string * Unicode.text)) with (Unicode.of_groups []).
    by apply run_of_string. }
  induction s as [|c s IH].
  - pose proof (Hhere "") as H0. change (Unicode.of_string "") with (@nil N) in *.
    cbn [Unicode.search search]. rewrite H0.
    by destruct (match_here r "").
  - pose proof (Hhere (String c s)) as H0. rewrite of_string_String in *.
    cbn [Unicode.search search]. rewrite H0.
    destruct (match_here r (String c s)); [done|].
    csimpl. apply IH.
Qed.

Lemma is_digit_of_ascii c : Unicode.is_digit (N_of_ascii c) = is_digit c.
Proof. destruct c as [[] [] [] [] [] [] [] []]; vm_compute; reflexivity. Qed.

Lemma same_plus p P :
  (forall c, P (N_of_ascii c) = p c) -> Unicode.same_pattern (plus p) (Unicode.plus P).
Proof. intros HP. by repeat constructor. Qed.

Lemma same_NEW_CONN_PATTERN : Unicode.same_pattern NEW_CONN_PATTERN Unicode.NEW_CONN_PATTERN.
Proof.
  unfold NEW_CONN_PATTERN, Unicode.NEW_CONN_PATTERN, timestamp, Unicode.timestamp,
    ipv4, Unicode.ipv4.
  cbn [cat Unicode.cat times Unicode.times].
  repeat first [ apply same_plus, is_digit_of_ascii
               | apply Unicode.same_OneOf, is_digit_of_ascii
               | constructor ].
Qed.

Lemma incr_of_counter k c :
  Counter.incr (Unicode.of_string k) (Unicode.of_counter c) = Unicode.of_counter (Counter.incr k c).
Proof.
  unfold Counter.incr, Counter.getitem.
  assert (Dict.get (Unicode.of_string k) (Unicode.of_counter c) = Dict.get k c) as ->.
  { induction c as [|[k' n] c IH]; [done|]. unfold Unicode.of_counter in *. csimpl.
    destruct (decide (k' = k)) as [->|Hne].
    - by rewrite decide_True.
    - rewrite decide_False; [done|]. by intros ?%of_string_inj. }
  generalize (default 0 (Dict.get k c) + 1). intros v.
  induction c as [|[k' n] c IH]; [done|]. unfold Unicode.of_counter in *. csimpl.
  destruct (decide (k' = k)) as [->|Hne].
  - by rewrite decide_True.
  - rewrite decide_False; [|by intros ?%of_string_inj]. csimpl. by rewrite IH.
Qed.

(** On a line of code points below 256 the Unicode model of the loop body is
    the model of [connections] used above. *)
Lemma connections_step_of_string pad_year acc line :
  Unicode.connections_step pad_year (Unicode.of_result acc) (Unicode.of_string line)
  = Unicode.of_result (connections_step pad_year acc line).
Proof.
  destruct acc as [c|e]; [|done]. cbn [Unicode.of_result Unicode.connections_step connections_step].
  rewrite (search_of_string _ _ _ same_NEW_CONN_PATTERN).
  destruct (search NEW_CONN_PATTERN line) as [m|] eqn:Hs; csimpl; [|done].
  assert (new_conn_ts line = Some (group "ts" m)) as Hts.
  { unfold new_conn_ts. by rewrite Hs. }
  apply new_conn_ts_shape in Hts.
  rewrite group_of_groups.
  replace (take 19 (Unicode.of_string (group "ts" m)))
    with (Unicode.of_string (substring 0 19 (group "ts" m)))
    by (by rewrite of_string_substring, drop_0).
  rewrite (strptime_ascii _ Hts).
  destruct (strptime _) as [dt|]; [|done]. csimpl.
  unfold Unicode.strftime. by rewrite incr_of_counter.
Qed.

Lemma connections_counter_of_string pad_year lines :
  Unicode.connections_counter pad_year (Unicode.of_string <$> lines)
  = Unicode.of_result (connections_counter pad_year lines).
Proof.
  unfold Unicode.connections_counter, connections_counter.
  change (Ok (@nil (Unicode.text * nat))) with (Unicode.of_result (Ok [])).
  generalize (@Ok (list (string * nat)) []). 
  induction lines as [|l lines IH]; intros acc; [done|].
  csimpl. rewrite connections_step_of_string. apply IH.
Qed.
End latin1_facts.

(** ** The outcome of the connections loop *)
Section unicode_outcome_facts.

Section unicode_count_invariants.
Context {K : Type} `{EqDecision K} (ev : Unicode.text -> option K).

Lemma unicode_count_loop_invariants (lines : list Unicode.text) c :
  NoDup (Dict.keys c) -> Forall (fun it => 0 < it.2) c ->
  NoDup (Dict.keys (fold_left (Unicode.count_step ev) lines c))
  /\ Forall (fun it => 0 < it.2) (fold_left (Unicode.count_step ev) lines c)
  /\ sum_list (fold_left (Unicode.count_step ev) lines c).*2
     = sum_list c.*2 + length (filter (fun l => is_Some (ev l)) lines).
Proof.
  revert c. induction lines as [|l lines IH]; intros c Hnd Hpos; csimpl.
  - split_and!; [done | done | lia].
  - rewrite filter_cons. destruct (ev l) as [k|] eqn:Hev.
    + assert (Unicode.count_step ev c l = Counter.incr k c) as ->
        by (unfold Unicode.count_step; by rewrite Hev).
      rewrite decide_True by done.
      destruct (IH (Counter.incr k c)) as (? & ? & Hsum).
      * by apply NoDup_keys_setitem.
      * by apply incr_positive.
      * split_and!; [done | done |]. rewrite Hsum, sum_incr. csimpl. lia.
    + assert (Unicode.count_step ev c l = c) as ->
        by (unfold Unicode.count_step; by rewrite Hev).
      rewrite decide_False by (by intros [? ?]). by apply IH.
Qed.
End unicode_count_invariants.

Lemma unicode_bucket_of_is_Some pad_year line :
  Unicode.bucket_raises line = false ->
  (is_Some (Unicode.bucket_of pad_year line) <-> is_Some (Unicode.new_conn_ts line)).
Proof.
  unfold Unicode.bucket_raises, Unicode.bucket_of, Unicode.new_conn_ts.
  destruct (Unicode.search Unicode.NEW_CONN_PATTERN line) as [m|]; csimpl; [|done].
  destruct (Unicode.strptime _) as [dt|]; csimpl; [|done].
  intros _. split; intros _; by eexists.
Qed.

Lemma unicode_timestamp_fields_ascii (s : string) :
  ts_shape s = true ->
  Unicode.timestamp_fields (Unicode.of_string s) = Some (timestamp_fields s).
Proof.
  unfold ts_shape, timestamp_fields.
  replace (Unicode.of_string s) with (N_of_ascii <$> list_ascii_of_string s) by done.
  destruct (list_ascii_of_string s)
    as [|y1 [|y2 [|y3 [|y4 [|p1 [|m1 [|m2 [|p2 [|d1 [|d2 [|p3 [|h1 [|h2 [|p4
        [|n1 [|n2 [|p5 [|s1 [|s2 [|x l]]]]]]]]]]]]]]]]]]]]; try discriminate.
  cbn [forallb]. intros Hshape.
  repeat match goal with
         | H : (_ && _)%bool = true |- _ => apply andb_prop in H as [H ?]
         end.
  cbn [fmap list_fmap Unicode.timestamp_fields].
  repeat match goal with
         | H : is_digit ?a = true |- _ =>
             rewrite (proj1 (directive_ascii a a H H)); clear H
         end.
  reflexivity.
Qed.

Lemma unicode_valid_timestamp_ascii ts :
  Unicode.ascii_timestamp ts = true ->
  (Unicode.valid_timestamp ts
   <-> exists dt, Unicode.timestamp_fields (take 19 ts) = Some dt /\ valid dt = true).
Proof.
  intros (s & Hs & Hshape)%ascii_timestamp_string.
  unfold Unicode.valid_timestamp.
  rewrite Hs, (strptime_ascii _ Hshape), (strptime_shape _ Hshape),
    (unicode_timestamp_fields_ascii _ Hshape).
  destruct (valid (timestamp_fields s)) eqn:Hv; split.
  - intros _. by eexists.
  - intros _. by eexists.
  - by intros [? ?].
  - intros (dt & [= <-] & ?). congruence.
Qed.
End unicode_outcome_facts.

(** X10.  The loop of the connections task raises [ValueError] exactly when
    some line matches the new-connection grammar with a timestamp that
    [strptime] rejects, whatever the C library.  Otherwise it ends with a
    counter whose buckets are distinct and whose counts are positive and add up
    to the number of lines with a new-connection event.  A timestamp written
    with the ASCII digits 0-9 is rejected exactly when its six numbers are not
    a date and time of the calendar. *)
Theorem connections_outcome :
  forall pad_year lines,
    (Unicode.connections_counter pad_year lines = Raise ValueError
     <-> Exists Unicode.rejected lines)
    /\ (Forall (fun l => ~ Unicode.rejected l) lines ->
        exists per_min,
          Unicode.connections_counter pad_year lines = Ok per_min
          /\ NoDup (Dict.keys per_min)
          /\ Forall (fun it => 0 < it.2) per_min
          /\ sum_list per_min.*2
             = length (filter (fun l => is_Some (Unicode.new_conn_ts l)) lines))
    /\ (forall ts,
        Unicode.ascii_timestamp ts = true ->
        (Unicode.valid_timestamp ts
         <-> exists dt, Unicode.timestamp_fields (take 19 ts) = Some dt
                        /\ valid dt = true)).
Proof.
  intros pad_year lines. unfold Unicode.connections_counter.
  rewrite unicode_connections_loop. split_and!.
  - destruct (decide (Forall _ lines)) as [Hall|Hnall].
    + split; [done|]. intros Hex. apply unicode_no_raise in Hall.
      apply Exists_exists in Hex as (l & Hl & Hbad).
      rewrite Forall_forall in Hall. by destruct (Hall _ Hl).
    + split; [|done]. intros _. apply not_Forall_Exists in Hnall; [|apply _].
      eapply Exists_impl; [exact Hnall|]. intros l Hl. csimpl in Hl.
      apply unicode_bucket_raises_rejected. by destruct (Unicode.bucket_raises l).
  - intros Hall. pose proof Hall as Hno%unicode_no_raise.
    rewrite decide_True by done. eexists. split; [reflexivity|].
    destruct (unicode_count_loop_invariants (Unicode.bucket_of pad_year) lines [])
      as (Hnd & Hpos & Hsum); [constructor | constructor |].
    split_and!; [done | done |].
    rewrite Hsum. csimpl. clear Hall Hnd Hpos Hsum.
    induction Hno as [|l lines Hl _ IH]; [done|].
    rewrite !filter_cons.
    pose proof (unicode_bucket_of_is_Some pad_year l Hl).
    repeat case_decide; csimpl; try tauto; by rewrite IH.
  - apply unicode_valid_timestamp_ascii.
Qed.

Lemma connections_outcome_witness :
  (exists per_min,
      Unicode.connections_counter false
        [Unicode.conn_line (Unicode.of_string "2023-01-01T10:15:02"); [10%N]]
      = Ok per_min
      /\ NoDup (Dict.keys per_min)
      /\ Forall (fun it => 0 < it.2) per_min
      /\ sum_list per_min.*2
         = length (filter (fun l => is_Some (Unicode.new_conn_ts l))
                     [Unicode.conn_line (Unicode.of_string "2023-01-01T10:15:02");
                      [10%N]]))
  /\ (Unicode.valid_timestamp (Unicode.of_string "2024-02-29T23:59:59.25")
      <-> exists dt,
          Unicode.timestamp_fields (take 19 (Unicode.of_string "2024-02-29T23:59:59.25"))
          = Some dt /\ valid dt = true).
Proof.
  destruct (connections_outcome false
              [Unicode.conn_line (Unicode.of_string "2023-01-01T10:15:02"); [10%N]])
    as (_ & Hok & Hascii).
  split.
  - apply Hok.
    apply Forall_cons_2; [|apply Forall_cons_2; [|apply Forall_nil_2]].
    + intros (ts & Hts & Hv). vm_compute in Hts. injection Hts as <-.
      apply Hv. exists (mk_datetime 2023 1 1 10 15 2). vm_compute. reflexivity.
    + intros (ts & Hts & _). vm_compute in Hts. discriminate Hts.
  - apply Hascii. vm_compute. reflexivity.
Defined.

(** ** Invariants of the set-valued aggregates *)
Section collect_facts.
Context {K : Type} `{EqDecision K} (ev : string -> option (K * string)).

Lemma size_list_to_set_le (l : list string) :
  size (list_to_set (C := gset string) l) <= length l.
Proof.
  induction l as [|x l IH].
  - change (size (∅ : gset string) <= 0). by rewrite size_empty.
  - change (size ({[x]} ∪ list_to_set (C := gset string) l) <= S (length l)).
    rewrite size_union_alt, size_singleton.
    assert (size (list_to_set (C := gset string) l ∖ {[x]})
            <= size (list_to_set (C := gset string) l)).
    { apply subseteq_size. set_solver. }
    lia.
Qed.

Lemma elem_of_seen_with (lines : list string) k x :
  x ∈ seen_with ev lines k <-> exists l, l ∈ lines /\ ev l = Some (k, x).
Proof.
  unfold seen_with. rewrite elem_of_list_to_set, list_elem_of_fmap. split.
  - intros ([k' x'] & -> & [Hk Hin%list_elem_of_omap]%list_elem_of_filter).
    csimpl in *. by subst.
  - intros (l & Hl & Hev). exists (k, x). split; [done|].
    apply list_elem_of_filter. split; [done|]. apply list_elem_of_omap. by exists l.
Qed.

Lemma size_seen_with_le (lines : list string) k :
  size (seen_with ev lines k)
  <= length (filter (fun l => fst <$> ev l = Some k) lines).
Proof.
  unfold seen_with. etrans; [apply size_list_to_set_le|].
  rewrite length_fmap. induction lines as [|l lines IH]; csimpl; [done|].
  rewrite filter_cons. destruct (ev l) as [[k' x]|] eqn:Hev; csimpl.
  - rewrite filter_cons. csimpl.
    repeat case_decide; csimpl in *; simplify_eq; lia.
  - done.
Qed.

Lemma collect_key_origin (lines : list string) k :
  k ∈ Dict.keys (fold_left (collect_step ev) lines [])
  <-> exists l x, l ∈ lines /\ ev l = Some (k, x).
Proof.
  rewrite keys_collect_loop_nil, elem_of_first_seen, list_elem_of_fmap. split.
  - intros ([k' x] & -> & (l & Hl & Hev)%list_elem_of_omap). by exists l, x.
  - intros (l & x & Hl & Hev). exists (k, x). split; [done|].
    apply list_elem_of_omap. by exists l.
Qed.

Lemma collect_entry (lines : list string) k X :
  (k, X) ∈ fold_left (collect_step ev) lines [] ->
  X = seen_with ev lines k /\ exists l x, l ∈ lines /\ ev l = Some (k, x).
Proof.
  intros Hin. split.
  - rewrite collect_loop_closed in Hin.
    apply list_elem_of_fmap in Hin as (k' & [= -> ->] & _). done.
  - apply collect_key_origin. unfold Dict.keys. apply list_elem_of_fmap. by exists (k, X).
Qed.

Lemma collect_loop_Forall (P : K -> Prop) (Q : string -> Prop) (lines : list string) :
  (forall l k x, ev l = Some (k, x) -> P k /\ Q x) ->
  Forall (fun it => P it.1 /\ it.2 = seen_with ev lines it.1
                    /\ 1 <= size it.2
                       <= length (filter (fun l => fst <$> ev l = Some it.1) lines)
                    /\ set_Forall Q it.2)
    (fold_left (collect_step ev) lines []).
Proof.
  intros HPQ. apply Forall_forall. intros [k X] Hin. csimpl.
  apply collect_entry in Hin as (-> & l & x & Hl & Hev). split_and!.
  - by eapply HPQ.
  - done.
  - assert (x ∈ seen_with ev lines k) as Hx by (apply elem_of_seen_with; eauto).
    assert (size (seen_with ev lines k) <> 0); [|lia].
    intros Hz%size_empty_inv. set_solver.
  - apply size_seen_with_le.
  - intros y (l' & _ & Hev')%elem_of_seen_with. by eapply HPQ.
Qed.

Lemma getitem_collect_origin (lines : list string) k x :
  x ∈ SetDict.getitem (fold_left (collect_step ev) lines []) k
  <-> exists l, l ∈ lines /\ ev l = Some (k, x).
Proof.
  rewrite getitem_collect_loop, <- elem_of_seen_with. unfold seen_with, SetDict.getitem.
  csimpl. set_solver.
Qed.
End collect_facts.

Lemma client_fingerprint_shape l fp ip :
  client_fingerprint l = Some (fp, ip) ->
  (String.length fp = 32 /\ all_chars is_hex_colon fp = true) /\ dotted_quad ip.
Proof.
  unfold client_fingerprint.
  destruct (search FINGERPRINT_PATTERN l) as [m|] eqn:Hs; [|done]. intros Hm.
  apply search_matches in Hs as (pre & s & post & -> & Hden).
  apply matches_fingerprint in Hden
    as (n & ip' & mid & fp' & -> & Hn & Hip & Hmid & Hlen & Hfp & ->).
  by injection Hm as <- <-.
Qed.

Lemma success_login_shape l key ip :
  success_login l = Some (key, ip) ->
  (run_of (other_than "/") key.1 /\ run_of (other_than "]") key.2) /\ dotted_quad ip.
Proof.
  unfold success_login.
  destruct (search SUCCESS_LOGIN_PATTERN l) as [m|] eqn:Hs; [|done]. intros Hm.
  apply search_matches in Hs as (pre & s & post & -> & Hden).
  apply matches_success_login in Hden
    as (n & ip' & mid & user & pw & -> & Hn & Hip & Hmid & Huser & Hpw & ->).
  by injection Hm as <- <-.
Qed.

Lemma sets_at_least_all min_ips (d : list (string * gset string)) :
  (min_ips <= 1)%Z -> Forall (fun it => 1 <= size it.2) d -> sets_at_least min_ips d = d.
Proof.
  intros Hmin Hall. apply filter_all. eapply Forall_impl; [exact Hall|].
  intros it Hit. cbn beta in *. lia.
Qed.

(** X11.  The fingerprint map of the identify-bots task has distinct keys,
    each of 32 characters of [[0-9a-f:]]; the set kept for a fingerprint is
    never empty, holds exactly the addresses of the lines that carry this
    fingerprint, all dotted quads, and has at most as many members as there
    are such lines.  With [--min-ips] at most 1 no fingerprint is filtered
    out. *)
Theorem identify_bots_map_invariants :
  forall lines,
    NoDup (Dict.keys (identify_bots_map lines))
    /\ Forall (fun it =>
                 (String.length it.1 = 32 /\ all_chars is_hex_colon it.1 = true)
                 /\ it.2 = seen_with client_fingerprint lines it.1
                 /\ 1 <= size it.2
                    <= length (filter (fun l => fst <$> client_fingerprint l = Some it.1)
                                 lines)
                 /\ set_Forall dotted_quad it.2)
         (identify_bots_map lines)
    /\ (forall fp ip,
        ip ∈ SetDict.getitem (identify_bots_map lines) fp
        <-> exists l, l ∈ lines /\ client_fingerprint l = Some (fp, ip))
    /\ (forall min_ips,
        (min_ips <= 1)%Z -> identify_bots_bots lines min_ips = identify_bots_map lines).
Proof.
  intros lines. unfold identify_bots_bots. rewrite identify_bots_map_eq.
  pose proof (collect_loop_Forall client_fingerprint _ _ lines client_fingerprint_shape)
    as Hall.
  split_and!.
  - rewrite keys_collect_loop_nil. apply NoDup_first_seen.
  - done.
  - intros fp ip. apply getitem_collect_origin.
  - intros min_ips Hmin. apply sets_at_least_all; [done|].
    eapply Forall_impl; [exact Hall|]. intros it (_ & _ & [? _] & _). done.
Qed.

Lemma identify_bots_map_invariants_witness :
  identify_bots_bots [hassh_line "10.0.0.7" "ec7378c1a92f5a8dde7e8b7a1ddf33d1"] 1
  = identify_bots_map [hassh_line "10.0.0.7" "ec7378c1a92f5a8dde7e8b7a1ddf33d1"].
Proof.
  apply (identify_bots_map_invariants
           [hassh_line "10.0.0.7" "ec7378c1a92f5a8dde7e8b7a1ddf33d1"]).
  lia.
Defined.

(** X12.  The credentials map of the successful-creds task has distinct keys;
    a key is a non-empty user name without [/] and a non-empty password
    without []].  The set kept for a pair is never empty, holds exactly the
    addresses of the lines that log in with this pair, all dotted quads, and
    has at most as many members as there are such lines; the report has one
    row for every pair. *)
Theorem successful_creds_map_invariants :
  forall lines,
    NoDup (Dict.keys (successful_creds_map lines))
    /\ Forall (fun it =>
                 (run_of (other_than "/") it.1.1 /\ run_of (other_than "]") it.1.2)
                 /\ it.2 = seen_with success_login lines it.1
                 /\ 1 <= size it.2
                    <= length (filter (fun l => fst <$> success_login l = Some it.1) lines)
                 /\ set_Forall dotted_quad it.2)
         (successful_creds_map lines)
    /\ (forall user pw ip,
        ip ∈ SetDict.getitem (successful_creds_map lines) (user, pw)
        <-> exists l, l ∈ lines /\ success_login l = Some ((user, pw), ip))
    /\ length (analyze_successful_creds lines)
       = 3 + length (first_seen (omap success_login lines).*1).
Proof.
  intros lines. unfold analyze_successful_creds, successful_creds_items.
  rewrite successful_creds_map_eq.
  pose proof (collect_loop_Forall success_login _ _ lines success_login_shape) as Hall.
  split_and!.
  - rewrite keys_collect_loop_nil. apply NoDup_first_seen.
  - done.
  - intros user pw ip. apply getitem_collect_origin.
  - csimpl. rewrite length_fmap, sorted_desc_Permutation.
    rewrite <- (keys_collect_loop_nil success_login). unfold Dict.keys.
    by rewrite length_fmap.
Qed.

(** ** The geometry of the tables *)
Section table_facts.

Lemma length_repeat_char c n : String.length (Fmt.repeat_char c n) = n.
Proof. induction n as [|n IH]; csimpl; [done | by rewrite IH]. Qed.

Lemma length_ljust w s : String.length (Fmt.ljust w s) = Nat.max w (String.length s).
Proof. unfold Fmt.ljust. rewrite string_length_app, length_repeat_char. lia. Qed.

Lemma length_rjust w s : String.length (Fmt.rjust w s) = Nat.max w (String.length s).
Proof. unfold Fmt.rjust. rewrite string_length_app, length_repeat_char. lia. Qed.

Lemma longest_bound (ks : list string) k : k ∈ ks -> String.length k <= longest ks.
Proof.
  unfold longest. induction 1 as [k ks|k k' ks _ IH]; csimpl; lia.
Qed.

Lemma key_fits_width counter head1 (it : string * nat) :
  it ∈ counter -> String.length it.1 <= counter_width counter head1.
Proof.
  intros Hin. rewrite counter_width_cases. case_decide as Hc.
  - subst. by apply elem_of_nil in Hin.
  - apply longest_bound. unfold Dict.keys. apply list_elem_of_fmap. by exists it.
Qed.

Lemma length_counter_row width (it : string * nat) :
  String.length (counter_row width it)
  = Nat.max width (String.length it.1) + 1
    + Nat.max 8 (String.length (Fmt.str_nat it.2)).
Proof.
  unfold counter_row. rewrite !string_length_app, length_ljust, length_rjust.
  csimpl. lia.
Qed.

Lemma length_bots_row (it : string * gset string) :
  String.length (bots_row it)
  = Nat.max 47 (String.length it.1) + 1
    + Nat.max 6 (String.length (Fmt.str_nat (size it.2))).
Proof.
  unfold bots_row. rewrite !string_length_app, length_ljust, length_rjust.
  csimpl. lia.
Qed.

Lemma length_creds_row (it : (string * string) * gset string) :
  String.length (creds_row it)
  = Nat.max 15 (String.length it.1.1) + 1 + Nat.max 15 (String.length it.1.2) + 1
    + Nat.max 9 (String.length (Fmt.str_nat (size it.2))).
Proof.
  unfold creds_row. rewrite !string_length_app, !length_ljust, length_rjust.
  csimpl. lia.
Qed.
End table_facts.

(** X13.  [_print_counter] prints a header, a rule and one row per entry.  The
    key column is as wide as the longest key, and only for an empty counter as
    wide as the key header: the rule has that width plus 9 dashes, and every
    row is exactly as long as the rule unless its count has more than 8
    digits.  The header row is longer than the rule whenever the key header is
    longer than every key, or the count header is longer than 8. *)
Theorem print_counter_geometry :
  forall counter head1 head2 sort_keys,
    length (_print_counter counter head1 head2 sort_keys) = 2 + length counter
    /\ (counter <> [] -> counter_width counter head1 = longest (Dict.keys counter))
    /\ _print_counter counter head1 head2 sort_keys !! 1
       = Some (Fmt.repeat_char "-" (counter_width counter head1 + 9))
    /\ String.length (Fmt.repeat_char "-" (counter_width counter head1 + 9))
       = counter_width counter head1 + 9
    /\ drop 2 (_print_counter counter head1 head2 sort_keys)
       ≡ₚ counter_row (counter_width counter head1) <$> counter
    /\ Forall (fun it =>
                 String.length (counter_row (counter_width counter head1) it)
                 = counter_width counter head1 + 1
                   + Nat.max 8 (String.length (Fmt.str_nat it.2)))
         counter
    /\ String.length (default "" (_print_counter counter head1 head2 sort_keys !! 0))
       = Nat.max (counter_width counter head1) (String.length head1) + 1
         + Nat.max 8 (String.length head2).
Proof.
  intros counter head1 head2 sort_keys.
  assert (counter_items counter sort_keys ≡ₚ counter) as Hperm.
  { unfold counter_items. destruct sort_keys;
      [apply sorted_items_Permutation | apply sorted_desc_Permutation]. }
  unfold _print_counter. csimpl. split_and!.
  - by rewrite length_fmap, Hperm.
  - intros Hne. rewrite counter_width_cases. by rewrite decide_False.
  - done.
  - apply length_repeat_char.
  - by rewrite Hperm.
  - apply Forall_forall. intros it Hin. rewrite length_counter_row.
    pose proof (key_fits_width counter head1 it Hin). lia.
  - rewrite !string_length_app, length_ljust, length_rjust. csimpl. lia.
Qed.

Lemma print_counter_geometry_witness :
  counter_width [("ls", 3)] "Command" = longest (Dict.keys [("ls", 3)]).
Proof. apply (print_counter_geometry [("ls", 3)] "Command" "Count" false). discriminate. Defined.

(** X14.  The two tables with fixed column widths.  The identify-bots table
    has one row per kept fingerprint after its title, header and rule; the
    header is 54 characters long and so is every row whose number of addresses
    has at most 6 digits (no row is shorter), while the rule has 53 dashes,
    one less.  In the successful-creds table the header and the rule are 41
    characters long; a row is that long exactly when the user name and the
    password have at most 15 characters and the number of addresses at most 9
    digits, and longer otherwise. *)
Theorem fixed_width_tables :
  (forall lines min_ips,
      length (identify_bots lines min_ips)
      = 3 + length (identify_bots_bots lines min_ips)
      /\ String.length <$> identify_bots lines min_ips !! 1 = Some 54
      /\ String.length <$> identify_bots lines min_ips !! 2 = Some 53
      /\ Forall (fun it =>
                   String.length (bots_row it)
                   = 48 + Nat.max 6 (String.length (Fmt.str_nat (size it.2))))
           (identify_bots_items lines min_ips))
  /\ (forall lines,
      String.length <$> analyze_successful_creds lines !! 1 = Some 41
      /\ String.length <$> analyze_successful_creds lines !! 2 = Some 41
      /\ Forall (fun it =>
                   41 <= String.length (creds_row it)
                   /\ (String.length (creds_row it) = 41
                       <-> String.length it.1.1 <= 15 /\ String.length it.1.2 <= 15
                           /\ String.length (Fmt.str_nat (size it.2)) <= 9))
           (successful_creds_items lines)).
Proof.
  split.
  - intros lines min_ips. split_and!.
    + unfold identify_bots, identify_bots_items. csimpl.
      by rewrite length_fmap, sorted_desc_Permutation.
    + reflexivity.
    + reflexivity.
    + unfold identify_bots_items, identify_bots_bots, sets_at_least.
      rewrite sorted_desc_Permutation, identify_bots_map_eq.
      apply Forall_forall. intros it [_ Hin]%list_elem_of_filter.
      pose proof (collect_loop_Forall client_fingerprint _ _ lines client_fingerprint_shape)
        as Hall.
      rewrite Forall_forall in Hall. destruct (Hall _ Hin) as ([Hlen _] & _).
      rewrite length_bots_row, Hlen. lia.
  - intros lines. split_and!; [reflexivity | reflexivity |].
    apply Forall_forall. intros it _. rewrite length_creds_row. lia.
Qed.

(** ** Thresholds and the order of the rows *)
Section threshold_facts.
Context {A : Type} (key : A -> nat) (b : Z).

Local Abbreviation kept := (fun it : A => (b <= Z.of_nat (key it))%Z).

Lemma insert_desc_head x t :
  Forall (fun z => key z <= key x) t ->
  Sorting.insert (fun y x => (key x <? key y)%nat) x t = x :: t.
Proof.
  destruct 1 as [|z t Hz _]; cbn [Sorting.insert]; [done|].
  by rewrite (proj2 (Nat.ltb_ge _ _) Hz).
Qed.

Lemma filter_insert_desc x s :
  StronglySorted (fun a c => key c <= key a) s ->
  filter kept (Sorting.insert (fun y x => (key x <? key y)%nat) x s)
  = if decide (kept x)
    then Sorting.insert (fun y x => (key x <? key y)%nat) x (filter kept s)
    else filter kept s.
Proof.
  induction 1 as [|y s Hs IH Hall]; cbn [Sorting.insert].
  - rewrite filter_cons. by case_decide.
  - destruct (key x <? key y)%nat eqn:Hxy.
    + pose proof (proj1 (Nat.ltb_lt _ _) Hxy) as Hlt. rewrite !filter_cons, IH.
      destruct (decide (kept x)) as [Hx|Hx]; [|done].
      rewrite !decide_True by lia. cbn [Sorting.insert]. by rewrite Hxy.
    + apply Nat.ltb_ge in Hxy. rewrite filter_cons.
      destruct (decide (kept x)) as [Hx|Hx]; [|done].
      rewrite insert_desc_head; [done|].
      apply Forall_forall. intros z [_ Hz]%list_elem_of_filter.
      apply elem_of_cons in Hz as [->|Hz]; [done|].
      rewrite Forall_forall in Hall. specialize (Hall _ Hz). lia.
Qed.

Lemma filter_sorted_desc l :
  filter kept (Sorting.sorted_desc key l) = Sorting.sorted_desc key (filter kept l).
Proof.
  induction l as [|x l IH]; [done|].
  change (Sorting.sorted_desc key (x :: l))
    with (Sorting.insert (fun y x => (key x <? key y)%nat) x (Sorting.sorted_desc key l)).
  rewrite filter_insert_desc by apply sorted_desc_descending.
  rewrite filter_cons, IH. by case_decide.
Qed.

Lemma filter_desc_prefix s :
  StronglySorted (fun a c => key c <= key a) s -> filter kept s `prefix_of` s.
Proof.
  induction 1 as [|y s Hs IH Hall]; [done|].
  rewrite filter_cons. case_decide as Hy; [by apply prefix_cons|].
  assert (filter kept s = []) as ->; [|apply prefix_nil].
  clear IH Hs. induction Hall as [|z s Hz _ IH]; [done|].
  rewrite filter_cons, decide_False by lia. done.
Qed.

Lemma filter_filter_le (a : Z) (l : list A) :
  (a <= b)%Z ->
  filter kept (filter (fun it => (a <= Z.of_nat (key it))%Z) l) = filter kept l.
Proof.
  intros Hab. rewrite list_filter_filter. apply list_filter_iff. intros x. lia.
Qed.
End threshold_facts.

Lemma fmap_prefix {A B} (f : A -> B) (l1 l2 : list A) :
  l1 `prefix_of` l2 -> f <$> l1 `prefix_of` f <$> l2.
Proof. intros [k ->]. exists (f <$> k). apply fmap_app. Qed.

(** X15.  Raising a threshold only cuts the list of reported entries short.
    The (IP, count) entries that the failed-logins report lists for a minimum
    [b] are those entries listed for a smaller minimum [a] whose count is at
    least [b], and they are an initial segment of them, in the same order.
    The printed rows are these entries formatted with a key column as wide as
    the longest IP that is kept: they are an initial segment of the rows
    printed for [a] when that width is the same, and differ from them in
    their padding otherwise.  The identify-bots report has fixed column
    widths: there the printed rows for [b] are an initial segment of the
    printed rows for [a]. *)
Theorem threshold_truncates_report :
  (forall lines a b,
      (a <= b)%Z ->
      failed_logins_rows lines b
      = filter (fun it => (b <= Z.of_nat it.2)%Z) (failed_logins_rows lines a)
      /\ failed_logins_rows lines b `prefix_of` failed_logins_rows lines a
      /\ drop 3 (analyze_failed_logins lines b)
         = counter_row (counter_width (failed_logins_filtered lines b) "IP")
             <$> filter (fun it => (b <= Z.of_nat it.2)%Z) (failed_logins_rows lines a)
      /\ (counter_width (failed_logins_filtered lines b) "IP"
          = counter_width (failed_logins_filtered lines a) "IP" ->
          drop 3 (analyze_failed_logins lines b)
          `prefix_of` drop 3 (analyze_failed_logins lines a)))
  /\ (forall lines a b,
      (a <= b)%Z ->
      identify_bots_items lines b
      = filter (fun it => (b <= Z.of_nat (size it.2))%Z) (identify_bots_items lines a)
      /\ identify_bots_items lines b `prefix_of` identify_bots_items lines a
      /\ drop 3 (identify_bots lines b) `prefix_of` drop 3 (identify_bots lines a)).
Proof.
  split.
  - intros lines a b Hab.
    assert (failed_logins_rows lines b
            = filter (fun it => (b <= Z.of_nat it.2)%Z) (failed_logins_rows lines a))
      as Heq.
    { unfold failed_logins_rows, counter_items, failed_logins_filtered, counts_at_least.
      rewrite (filter_sorted_desc snd), (filter_filter_le snd) by done. done. }
    assert (failed_logins_rows lines b `prefix_of` failed_logins_rows lines a) as Hpre.
    { rewrite Heq. apply (filter_desc_prefix snd), sorted_desc_descending. }
    assert (forall m, drop 3 (analyze_failed_logins lines m)
                      = counter_row (counter_width (failed_logins_filtered lines m) "IP")
                          <$> failed_logins_rows lines m) as Hrows by done.
    split_and!; [done | done | by rewrite Hrows, Heq |].
    intros Hw. rewrite !Hrows, Hw. by apply fmap_prefix.
  - intros lines a b Hab.
    assert (identify_bots_items lines b
            = filter (fun it => (b <= Z.of_nat (size it.2))%Z)
                (identify_bots_items lines a)) as Heq.
    { unfold identify_bots_items, identify_bots_bots, sets_at_least.
      rewrite (filter_sorted_desc (fun it => size it.2)).
      rewrite (filter_filter_le (fun it => size it.2)) by done. done. }
    assert (identify_bots_items lines b `prefix_of` identify_bots_items lines a) as Hpre.
    { rewrite Heq.
      apply (filter_desc_prefix (fun it => size it.2)), sorted_desc_descending. }
    split_and!; [done | done |].
    change (bots_row <$> identify_bots_items lines b
            `prefix_of` bots_row <$> identify_bots_items lines a).
    by apply fmap_prefix.
Qed.

Lemma threshold_truncates_report_witness :
  failed_logins_rows
    [failed_line "5.6.7.8"; failed_line "1.2.3.4"; failed_line "1.2.3.4"] 2
  `prefix_of`
  failed_logins_rows
    [failed_line "5.6.7.8"; failed_line "1.2.3.4"; failed_line "1.2.3.4"] 1.
Proof.
  apply threshold_truncates_report. lia.
Defined.

(** With a longer IP below the threshold the kept row is printed with less
    padding than in the report for the smaller minimum. *)
Example threshold_changes_padding :
  drop 3 (analyze_failed_logins
            [failed_line "1.2.3.4"; failed_line "1.2.3.4"; failed_line "111.222.333.444"] 2)
  = ["1.2.3.4        2"]
  /\ drop 3 (analyze_failed_logins
               [failed_line "1.2.3.4"; failed_line "1.2.3.4"; failed_line "111.222.333.444"] 1)
     = ["1.2.3.4                2"; "111.222.333.444        1"].
Proof. vm_compute. split; reflexivity. Qed.

Lemma bucket_raises_rejected line :
  bucket_raises line = true <-> rejected_timestamp line.
Proof.
  unfold rejected_timestamp. pose proof (bucket_raises_valid line) as Hv.
  destruct (bucket_raises line); split; try done.
  - intros _. destruct (new_conn_ts line) as [ts|] eqn:Hts.
    + destruct (decide (valid_timestamp ts)) as [Hok|Hno]; [|by exists ts].
      assert (true = false) as Habs; [|done]. apply Hv. intros ts' [= <-]. done.
    + assert (true = false) as Habs; [|done]. apply Hv. by intros ts' [=].
  - intros (ts & Hts & Hno). destruct Hno. by apply (proj1 Hv).
Qed.

(** X16.  Given the lines of the file, the program ends with a non-zero
    status, having printed no report, exactly when the task is [connections]
    and some line matches the new-connection grammar with a timestamp that
    [strptime] rejects; the four other tasks cannot fail on any input.  A run
    that succeeds prints at least its title, a header row and a rule. *)
Theorem main_exit_status :
  forall pad_year a lines,
    (exit_status (main pad_year a lines) = 1
     <-> arg_task a = Connections /\ Exists rejected_timestamp lines)
    /\ (exit_status (main pad_year a lines) = 0
        <-> exists out, main pad_year a lines = Ok out /\ 3 <= length out)
    /\ (arg_task a <> Connections -> exists out, main pad_year a lines = Ok out).
Proof.
  intros pad_year a lines.
  assert (forall out, main pad_year a lines = Ok out -> 3 <= length out) as Hlen.
  { unfold main, connections, analyze_failed_logins, analyze_successful_creds,
      identify_bots, top_commands, _print_counter.
    intros out. destruct (arg_task a); try (intros [= <-]; csimpl; lia).
    destruct (connections_counter pad_year lines); [|done]. intros [= <-]. csimpl. lia. }
  assert (main pad_year a lines = Raise ValueError
          <-> arg_task a = Connections /\ Exists rejected_timestamp lines) as Hraise.
  { unfold main. destruct (arg_task a) eqn:Ht; try (split; [done | by intros [? _]]).
    unfold connections. rewrite connections_counter_spec.
    destruct (decide (Forall _ lines)) as [Hall|Hnall].
    - split; [done|]. intros [_ Hex].
      apply Exists_exists in Hex as (l & Hl & Hbad).
      rewrite Forall_forall in Hall. specialize (Hall _ Hl).
      apply bucket_raises_rejected in Hbad. congruence.
    - split; [|done]. intros _. split; [done|].
      apply not_Forall_Exists in Hnall; [|apply _].
      eapply Exists_impl; [exact Hnall|]. intros l Hl. csimpl in Hl.
      apply bucket_raises_rejected. by destruct (bucket_raises l). }
  split_and!.
  - rewrite <- Hraise. destruct (main pad_year a lines) as [out|[]]; csimpl; done.
  - destruct (main pad_year a lines) as [out|[]] eqn:Hm; csimpl.
    + split; [|done]. intros _. exists out. eauto.
    + split; [done | by intros (? & ? & _)].
  - intros Hne. destruct (main pad_year a lines) as [out|[]] eqn:Hm; [by exists out|].
    by destruct (proj1 Hraise eq_refl).
Qed.

Lemma main_exit_status_witness :
  exists out, main false (default_args TopCommands) [cmd_line_of "ls"] = Ok out.
Proof.
  apply (main_exit_status false (default_args TopCommands) [cmd_line_of "ls"]).
  discriminate.
Defined.
